(** * sqlc configuration loader: [internal/config/config.go]

    A shallow embedding of the settings loader of sqlc (package [config])
    and the properties of its override parser, its document validation and
    its settings combiner.

    Go strings are byte strings: they are modelled as [string] (a list of
    8-bit [ascii]).  Go [int] values (string lengths and the results of
    [strings.LastIndex]) are modelled as [Z]; every integer the code
    computes lies between [-1] and the length of a string, so no 64-bit
    wrap-around can occur.  A run-time panic (index or slice out of range)
    is an outcome of its own, distinct from a returned [error]. *)

From Stdlib Require Import ZArith Ascii String List Lia Bool.
From stdpp Require Import base strings list gmap.

Local Open Scope Z_scope.

(** ** Byte strings: length, indexing and slicing as in Go *)

Module GoString.

Definition len (s : string) : Z := Z.of_nat (String.length s).

Fixpoint drop (n : nat) (s : string) : string :=
  match n, s with
  | O, _ => s
  | S n', String _ s' => drop n' s'
  | S _, EmptyString => EmptyString
  end.

Fixpoint take (n : nat) (s : string) : string :=
  match n, s with
  | O, _ => EmptyString
  | S n', String a s' => String a (take n' s')
  | S _, EmptyString => EmptyString
  end.

(** [s[lo:hi]]; [None] is the slice-bounds-out-of-range panic. *)
Definition slice (s : string) (lo hi : Z) : option string :=
  if (0 <=? lo) && (lo <=? hi) && (hi <=? len s)
  then Some (take (Z.to_nat (hi - lo)) (drop (Z.to_nat lo) s))
  else None.

(** [s[lo:]] *)
Definition slice_from (s : string) (lo : Z) : option string :=
  slice s lo (len s).

(** [s[:hi]] *)
Definition slice_to (s : string) (hi : Z) : option string :=
  slice s 0 hi.

(** [s[i]]; [None] is the index-out-of-range panic. *)
Definition index (s : string) (i : Z) : option ascii :=
  if (0 <=? i) && (i <? len s) then String.get (Z.to_nat i) s else None.

(** Membership of a byte in a string. *)
Fixpoint mem (c : ascii) (s : string) : bool :=
  match s with
  | EmptyString => false
  | String a s' => Ascii.eqb a c || mem c s'
  end.

End GoString.

(** ** The functions of Go's [strings] package that the loader calls,
    at a one-byte separator (the code only passes ["."] and ["/"]). *)

Module GoStrings.
Import GoString.

Fixpoint LastIndex_at (i : Z) (s : string) (sep : ascii) : Z :=
  match s with
  | EmptyString => -1
  | String a s' =>
      let r := LastIndex_at (i + 1) s' sep in
      if r =? -1 then (if Ascii.eqb a sep then i else -1) else r
  end.

(** [strings.LastIndex(s, sep)]: the index of the last [sep], or [-1]. *)
Definition LastIndex (s : string) (sep : ascii) : Z := LastIndex_at 0 s sep.

(** [strings.Split(s, sep)]: the segments between the separators; one
    more segment than there are separators, so never an empty list. *)
Fixpoint Split (s : string) (sep : ascii) : list string :=
  match s with
  | EmptyString => [EmptyString]
  | String a s' =>
      if Ascii.eqb a sep then EmptyString :: Split s' sep
      else match Split s' sep with
           | seg :: rest => String a seg :: rest
           | [] => [String a EmptyString]
           end
  end.

(** [strings.HasPrefix(s, prefix)] *)
Definition HasPrefix (s prefix : string) : bool := String.prefix prefix s.

(** [strings.HasSuffix(s, suffix)]:
    [len(s) >= len(suffix) && s[len(s)-len(suffix):] == suffix] *)
Definition HasSuffix (s suffix : string) : bool :=
  (len suffix <=? len s)
  && String.eqb (drop (String.length s - String.length suffix) s) suffix.

(** [strings.Join(segs, sep)], used to state what [Split] inverts. *)
Fixpoint Join (segs : list string) (sep : ascii) : string :=
  match segs with
  | [] => EmptyString
  | [seg] => seg
  | seg :: rest => seg +:+ String sep (Join rest sep)
  end.

End GoStrings.

(** ** [path/filepath.Base] on a system whose separator is the slash *)

Module Filepath.
Import GoString.

Definition Separator : ascii := "/"%char.

(** The first loop of [Base]: the trailing separators are removed. *)
Fixpoint stripTrailing (path : string) : string :=
  match path with
  | EmptyString => EmptyString
  | String a rest =>
      match stripTrailing rest with
      | EmptyString =>
          if Ascii.eqb a Separator then EmptyString else String a EmptyString
      | stripped => String a stripped
      end
  end.

(** [filepath.Base(path)]: the last element of [path].  The empty path
    gives ["."]; the trailing separators are removed; what follows the
    last separator is kept (the second loop stops at the index [i] of the
    last separator, or at [-1]); a path of separators only gives the
    separator.  There is no volume name on this system. *)
Definition Base (path : string) : string :=
  match path with
  | EmptyString => "."
  | _ =>
      let path := stripTrailing path in
      let i := GoStrings.LastIndex path Separator in
      let path := if 0 <=? i then drop (Z.to_nat (i + 1)) path else path in
      match path with
      | EmptyString => String Separator EmptyString
      | _ => path
      end
  end.

End Filepath.

(** ** The table [types.Typ] of Go's [go/types] package *)

Module GoTypes.

Definition BasicInfo := Z.

Definition IsBoolean : BasicInfo := Z.shiftl 1 0.
Definition IsInteger : BasicInfo := Z.shiftl 1 1.
Definition IsUnsigned : BasicInfo := Z.shiftl 1 2.
Definition IsFloat : BasicInfo := Z.shiftl 1 3.
Definition IsComplex : BasicInfo := Z.shiftl 1 4.
Definition IsString : BasicInfo := Z.shiftl 1 5.
Definition IsUntyped : BasicInfo := Z.shiftl 1 6.

Record Basic := { Info : BasicInfo; Name : string }.

Definition Typ : list Basic :=
  [ {| Info := 0; Name := "invalid type" |};
    {| Info := IsBoolean; Name := "bool" |};
    {| Info := IsInteger; Name := "int" |};
    {| Info := IsInteger; Name := "int8" |};
    {| Info := IsInteger; Name := "int16" |};
    {| Info := IsInteger; Name := "int32" |};
    {| Info := IsInteger; Name := "int64" |};
    {| Info := Z.lor IsInteger IsUnsigned; Name := "uint" |};
    {| Info := Z.lor IsInteger IsUnsigned; Name := "uint8" |};
    {| Info := Z.lor IsInteger IsUnsigned; Name := "uint16" |};
    {| Info := Z.lor IsInteger IsUnsigned; Name := "uint32" |};
    {| Info := Z.lor IsInteger IsUnsigned; Name := "uint64" |};
    {| Info := Z.lor IsInteger IsUnsigned; Name := "uintptr" |};
    {| Info := IsFloat; Name := "float32" |};
    {| Info := IsFloat; Name := "float64" |};
    {| Info := IsComplex; Name := "complex64" |};
    {| Info := IsComplex; Name := "complex128" |};
    {| Info := IsString; Name := "string" |};
    {| Info := 0; Name := "unsafe.Pointer" |};
    {| Info := Z.lor IsBoolean IsUntyped; Name := "untyped bool" |};
    {| Info := Z.lor IsInteger IsUntyped; Name := "untyped int" |};
    {| Info := Z.lor IsInteger IsUntyped; Name := "untyped rune" |};
    {| Info := Z.lor IsFloat IsUntyped; Name := "untyped float" |};
    {| Info := Z.lor IsComplex IsUntyped; Name := "untyped complex" |};
    {| Info := Z.lor IsString IsUntyped; Name := "untyped string" |};
    {| Info := IsUntyped; Name := "untyped nil" |} ].

End GoTypes.

(** ** Errors and outcomes *)

(** A value of Go's [error] interface, as this package builds them:
    [fmt.Errorf(format, args...)] is kept as its format string and its
    arguments (all of them strings printed with [%q]); the package-level
    variables made with [errors.New] are constructors of their own; an
    error of the JSON decoder is opaque. *)
Inductive error : Type :=
| Errorf (format : string) (args : list string)
| ErrMissingVersion
| ErrUnknownVersion
| ErrNoPackages
| ErrNoPackageName
| ErrNoPackagePath
| ErrDecode (msg : string).

(** What a call does: return (with a value; a nil [error] is [Ok tt]),
    return a non-nil [error], or panic at run time. *)
Inductive result (A : Type) : Type :=
| Ok (a : A)
| Err (e : error)
| Panic.
Arguments Ok {A} a.
Arguments Err {A} e.
Arguments Panic {A}.

(** The double-quote byte and the line feed. *)
Definition dq : string := String "034"%char EmptyString.
Definition lf : string := String "010"%char EmptyString.

(** line 92 *)
Definition errEngineRequired : error :=
  Errorf ("the " +:+ dq +:+ "engine" +:+ dq +:+
          " field is required for global type overrides because your configuration uses multiple database engines")
         [].

(** line 102, the text written to [os.Stderr] *)
Definition warnDeprecatedPostgresType : string :=
  "WARNING: " +:+ dq +:+ "postgres_type" +:+ dq +:+
  " is deprecated. Instead, use " +:+ dq +:+ "db_type" +:+ dq +:+
  " to specify a type override." +:+ lf.

(** line 104 *)
Definition errDBTypeWithPostgresType : error :=
  Errorf ("Type override configurations cannot have " +:+ dq +:+ "db_type" +:+ dq +:+
          " and " +:+ dq +:+ "postres_type" +:+ dq +:+ " together. Use " +:+
          dq +:+ "db_type" +:+ dq +:+ " alone")
         [].

(** line 112 *)
Definition errColumnAndDBType (column dbtype : string) : error :=
  Errorf "Override specifying both `column` (%q) and `db_type` (%q) is not valid."
         [column; dbtype].

(** line 114 *)
Definition errNoColumnOrDBType : error :=
  Errorf "Override must specify one of either `column` or `db_type`" [].

(** line 131 *)
Definition fmtColumnFormat : string :=
  "Override `column` specifier %q is not the proper format, expected '[catalog.][schema.]colname.tablename'".
Definition errColumnFormat (column : string) : error :=
  Errorf fmtColumnFormat [column].

(** line 155 *)
Definition errNotBasicType (gotype : string) : error :=
  Errorf "Package override `go_type` specifier %q is not a Go basic type e.g. 'string'"
         [gotype].

(** lines 161 and 164 *)
Definition errGoTypeFormat (gotype : string) : error :=
  Errorf "Package override `go_type` specifier %q is not the proper format, expected 'package.type', e.g. 'github.com/segmentio/ksuid.KSUID'"
         [gotype].

(** ** A state and error monad for methods with a pointer receiver

    A method mutates its receiver in place and may write to the standard
    error stream; the receiver keeps the fields assigned before an error
    is returned. *)

Record World (S : Type) : Type := mkWorld { obj : S; stderr : list string }.
Arguments mkWorld {S} obj stderr.
Arguments obj {S} w.
Arguments stderr {S} w.

Definition M (S A : Type) : Type := World S -> World S * result A.

Definition M_ret {S A} (a : A) : M S A := fun w => (w, Ok a).

Definition M_bind {S A B} (f : A -> M S B) (m : M S A) : M S B :=
  fun w =>
    match m w with
    | (w', Ok a) => f a w'
    | (w', Err e) => (w', Err e)
    | (w', Panic) => (w', Panic)
    end.

#[global] Instance M_mret {S} : MRet (M S) := @M_ret S.
#[global] Instance M_mbind {S} : MBind (M S) := @M_bind S.

(** read the receiver *)
Definition get {S} : M S S := fun w => (w, Ok (obj w)).
(** assign to a field of the receiver *)
Definition modify {S} (f : S -> S) : M S unit :=
  fun w => (mkWorld (f (obj w)) (stderr w), Ok tt).
(** [return err] *)
Definition fail {S A} (e : error) : M S A := fun w => (w, Err e).
(** an indexing or slicing expression, which panics out of range *)
Definition checked {S A} (x : option A) : M S A :=
  fun w => match x with Some a => (w, Ok a) | None => (w, Panic) end.
(** [fmt.Fprintf(os.Stderr, text)] *)
Definition eprint {S} (text : string) : M S unit :=
  fun w => (mkWorld (obj w) (stderr w ++ [text]), Ok tt).

(** ** The data model *)

Definition Engine := string.
Definition EngineMySQL : Engine := "mysql".
Definition EnginePostgreSQL : Engine := "postgresql".

(** [pg.FQN], the table reference of package [internal/pg]: three strings. *)
Module pg.
Record FQN : Type := mkFQN { Catalog : string; Schema : string; Rel : string }.
End pg.

Module Override.
Import GoString GoStrings.

Record t : Type := mk {
  GoType : string;
  DBType : string;
  Deprecated_PostgresType : string;
  Engine : Engine;
  Null : bool;
  Column : string;
  ColumnName : string;
  Table : pg.FQN;
  GoTypeName : string;
  GoPackage : string;
  GoBasicType : bool
}.

Definition set_DBType (v : string) (o : t) : t :=
  mk (GoType o) v (Deprecated_PostgresType o) (Engine o) (Null o) (Column o)
     (ColumnName o) (Table o) (GoTypeName o) (GoPackage o) (GoBasicType o).
Definition set_ColumnName (v : string) (o : t) : t :=
  mk (GoType o) (DBType o) (Deprecated_PostgresType o) (Engine o) (Null o) (Column o)
     v (Table o) (GoTypeName o) (GoPackage o) (GoBasicType o).
Definition set_Table (v : pg.FQN) (o : t) : t :=
  mk (GoType o) (DBType o) (Deprecated_PostgresType o) (Engine o) (Null o) (Column o)
     (ColumnName o) v (GoTypeName o) (GoPackage o) (GoBasicType o).
Definition set_GoTypeName (v : string) (o : t) : t :=
  mk (GoType o) (DBType o) (Deprecated_PostgresType o) (Engine o) (Null o) (Column o)
     (ColumnName o) (Table o) v (GoPackage o) (GoBasicType o).
Definition set_GoPackage (v : string) (o : t) : t :=
  mk (GoType o) (DBType o) (Deprecated_PostgresType o) (Engine o) (Null o) (Column o)
     (ColumnName o) (Table o) (GoTypeName o) v (GoBasicType o).
Definition set_GoBasicType (v : bool) (o : t) : t :=
  mk (GoType o) (DBType o) (Deprecated_PostgresType o) (Engine o) (Null o) (Column o)
     (ColumnName o) (Table o) (GoTypeName o) (GoPackage o) v.

(** [s != EmptyString] *)
Definition nonempty (s : string) : bool := negb (String.eqb s EmptyString).

(** lines 100-107: validate deprecated postgres_type field *)
Definition validateDeprecated : M t unit :=
  o ← get;
  if nonempty (Deprecated_PostgresType o) then
    eprint warnDeprecatedPostgresType;;
    (if nonempty (DBType o) then fail errDBTypeWithPostgresType
     else modify (set_DBType (Deprecated_PostgresType o)))
  else mret tt.

(** lines 109-115: validate option combinations *)
Definition validateCombination : M t unit :=
  o ← get;
  if nonempty (Column o) && nonempty (DBType o) then
    fail (errColumnAndDBType (Column o) (DBType o))
  else if negb (nonempty (Column o)) && negb (nonempty (DBType o)) then
    fail errNoColumnOrDBType
  else mret tt.

(** lines 117-133: validate Column *)
Definition validateColumn : M t unit :=
  o ← get;
  if nonempty (Column o) then
    match Split (Column o) "." with
    | [p0; p1] =>
        modify (set_ColumnName p1);;
        modify (set_Table (pg.mkFQN EmptyString "public" p0))
    | [p0; p1; p2] =>
        modify (set_ColumnName p2);;
        modify (set_Table (pg.mkFQN EmptyString p0 p1))
    | [p0; p1; p2; p3] =>
        modify (set_ColumnName p3);;
        modify (set_Table (pg.mkFQN p0 p1 p2))
    | _ => fail (errColumnFormat (Column o))
    end
  else mret tt.

(** lines 141-153: the loop over [types.Typ] that sets [found] *)
Definition found_basic (typename : string) : bool :=
  fold_left
    (fun found typ =>
       let info := GoTypes.Info typ in
       if info =? 0 then found
       else if negb (Z.land info GoTypes.IsUntyped =? 0) then found
       else if String.eqb typename (GoTypes.Name typ) then true
       else found)
    GoTypes.Typ false.

(** line 180: [o.GoType[0] == '*'] *)
Definition isPointer (gotype : string) : option bool :=
  c ← index gotype 0; Some (Ascii.eqb c "*").

(** lines 135-184: validate GoType *)
Definition validateGoType : M t unit :=
  o ← get;
  let lastDot := LastIndex (GoType o) "." in
  let lastSlash := LastIndex (GoType o) "/" in
  typename ←
    (if (lastDot =? -1) && (lastSlash =? -1) then
       if negb (found_basic (GoType o)) then fail (errNotBasicType (GoType o))
       else modify (set_GoBasicType true);; mret (GoType o)
     else
       if lastDot =? -1 then fail (errGoTypeFormat (GoType o))
       else if lastSlash =? -1 then fail (errGoTypeFormat (GoType o))
       else
         typename ← checked (slice_from (GoType o) (lastSlash + 1));
         typename ←
           (if HasPrefix typename "go-"
            then checked (slice_from typename (len "go-"))
            else mret typename);
         typename ←
           (if HasSuffix typename "-go"
            then checked (slice_to typename (len typename - len "-go"))
            else mret typename);
         pkg ← checked (slice_to (GoType o) lastDot);
         modify (set_GoPackage pkg);;
         mret typename);
  modify (set_GoTypeName typename);;
  isPointer ← checked (isPointer (GoType o));
  if (isPointer : bool) then
    o1 ← get;
    pkg ← checked (slice_from (GoPackage o1) 1);
    modify (set_GoPackage pkg);;
    o2 ← get;
    modify (set_GoTypeName ("*" +:+ GoTypeName o2))
  else mret tt.

(** [func (o *Override) Parse() error], lines 98-187 *)
Definition Parse : M t unit :=
  validateDeprecated;;
  validateCombination;;
  validateColumn;;
  validateGoType.

End Override.

Module PackageSettings.

Record t : Type := mk {
  Name : string;
  Engine : Engine;
  Path : string;
  Schema : string;
  Queries : string;
  EmitInterface : bool;
  EmitJSONTags : bool;
  EmitPreparedQueries : bool;
  Overrides : list Override.t
}.

Definition set_Name (v : string) (p : t) : t :=
  mk v (Engine p) (Path p) (Schema p) (Queries p) (EmitInterface p)
     (EmitJSONTags p) (EmitPreparedQueries p) (Overrides p).
Definition set_Engine v (p : t) : t :=
  mk (Name p) v (Path p) (Schema p) (Queries p) (EmitInterface p)
     (EmitJSONTags p) (EmitPreparedQueries p) (Overrides p).
Definition set_Overrides (v : list Override.t) (p : t) : t :=
  mk (Name p) (Engine p) (Path p) (Schema p) (Queries p) (EmitInterface p)
     (EmitJSONTags p) (EmitPreparedQueries p) v.

End PackageSettings.

Module GenerateSettings.

Record t : Type := mk {
  Version : string;
  Packages : list PackageSettings.t;
  Overrides : list Override.t;
  Rename : gmap string string
}.

Definition set_Packages (v : list PackageSettings.t) (c : t) : t :=
  mk (Version c) v (Overrides c) (Rename c).
Definition set_Overrides (v : list Override.t) (c : t) : t :=
  mk (Version c) (Packages c) v (Rename c).

(** lines 82-87: the map [engines], used as a set of engine tags *)
Definition engines (c : t) : gset Engine :=
  fold_left
    (fun engines pkg =>
       if decide (PackageSettings.Engine pkg ∈ engines) then engines
       else {[ PackageSettings.Engine pkg ]} ∪ engines)
    (Packages c) ∅.

(** line 89 *)
Definition usesMultipleEngines (c : t) : bool :=
  (1 <? size (engines c))%nat.

(** lines 90-94: the loop over the global overrides *)
Fixpoint checkEngines (uses : bool) (orides : list Override.t) : result unit :=
  match orides with
  | [] => Ok tt
  | oride :: rest =>
      if uses && String.eqb (Override.Engine oride) EmptyString
      then Err errEngineRequired
      else checkEngines uses rest
  end.

(** [func (c *GenerateSettings) ValidateGlobalOverrides() error],
    lines 81-96; the method reads its receiver and assigns nothing. *)
Definition ValidateGlobalOverrides (c : t) : result unit :=
  checkEngines (usesMultipleEngines c) (Overrides c).

End GenerateSettings.

(** ** Loops over a slice that call a method on every element *)

(** [for i := range l { if err := l[i].body(); err != nil { return err } }]:
    the elements are visited in index order and mutated in place; the first
    error (or panic) stops the loop and leaves the later elements as they
    were. *)
Fixpoint forEach {S : Type} (body : M S unit) (l : list S) (log : list string)
  : World (list S) * result unit :=
  match l with
  | [] => (mkWorld [] log, Ok tt)
  | x :: rest =>
      match body (mkWorld x log) with
      | (w, Ok _) =>
          let '(w', r) := forEach body rest (stderr w) in
          (mkWorld (obj w :: obj w') (stderr w'), r)
      | (w, Err e) => (mkWorld (obj w :: rest) (stderr w), Err e)
      | (w, Panic) => (mkWorld (obj w :: rest) (stderr w), Panic)
      end
  end.

(** The same loop over a slice-valued field of the receiver. *)
Definition range {S E : Type} (field : S -> list E) (set_field : list E -> S -> S)
    (body : M E unit) : M S unit :=
  fun w =>
    let '(w', r) := forEach body (field (obj w)) (stderr w) in
    (mkWorld (set_field (obj w') (obj w)) (stderr w'), r).

(** a call whose result is returned when it is an error *)
Definition try {S : Type} (r : result unit) : M S unit := fun w => (w, r).

(** lines 220-233: the body of the loop over [config.Packages] *)
Definition parsePackage : M PackageSettings.t unit :=
  p ← get;
  if String.eqb (PackageSettings.Path p) EmptyString then fail ErrNoPackagePath
  else
    range PackageSettings.Overrides PackageSettings.set_Overrides Override.Parse;;
    p1 ← get;
    (if String.eqb (PackageSettings.Name p1) EmptyString
     then modify (PackageSettings.set_Name (Filepath.Base (PackageSettings.Path p1)))
     else mret tt);;
    p2 ← get;
    (if String.eqb (PackageSettings.Engine p2) EmptyString
     then modify (PackageSettings.set_Engine EnginePostgreSQL)
     else mret tt).

(** lines 202-235: what [ParseConfig] does with the decoded [config] *)
Definition validateConfig : M GenerateSettings.t unit :=
  config ← get;
  if String.eqb (GenerateSettings.Version config) EmptyString then fail ErrMissingVersion
  else if negb (String.eqb (GenerateSettings.Version config) "1") then fail ErrUnknownVersion
  else if (Z.of_nat (length (GenerateSettings.Packages config)) =? 0) then fail ErrNoPackages
  else
    try (GenerateSettings.ValidateGlobalOverrides config);;
    range GenerateSettings.Overrides GenerateSettings.set_Overrides Override.Parse;;
    range GenerateSettings.Packages GenerateSettings.set_Packages parsePackage.

Section Decoder.

(** The strict JSON decoder ([encoding/json] with [DisallowUnknownFields])
    is outside this package: it is a function from the reader to the
    (possibly partly filled) settings and an optional error. *)
Context {Reader : Type}.
Variable Decode : Reader -> GenerateSettings.t * option error.

(** [func ParseConfig(rd io.Reader) (GenerateSettings, error)],
    lines 195-236.  The returned settings are the final value of the
    local variable [config]; [log] is what the standard error stream
    holds before the call. *)
Definition ParseConfig (rd : Reader) (log : list string)
  : World GenerateSettings.t * result unit :=
  match Decode rd with
  | (config, Some err) => (mkWorld config log, Err err)
  | (config, None) => validateConfig (mkWorld config log)
  end.

End Decoder.

Module CombinedSettings.
Record t : Type := mk {
  Global : GenerateSettings.t;
  Package : PackageSettings.t;
  Overrides : list Override.t
}.
End CombinedSettings.

(** [func Combine(gen GenerateSettings, pkg PackageSettings) CombinedSettings],
    lines 244-250; [append(a, b...)] is the concatenation of the two slices. *)
Definition Combine (gen : GenerateSettings.t) (pkg : PackageSettings.t)
  : CombinedSettings.t :=
  CombinedSettings.mk gen pkg
    (GenerateSettings.Overrides gen ++ PackageSettings.Overrides pkg).

(** ** Values and notions used to state the properties *)

(** The zero value of [Override]: what the decoder leaves when an override
    object names no field. *)
Definition zeroOverride : Override.t :=
  Override.mk EmptyString EmptyString EmptyString EmptyString false EmptyString
    EmptyString (pg.mkFQN EmptyString EmptyString EmptyString)
    EmptyString EmptyString false.

(** An override decoded from [{"db_type": dbtype, "go_type": gotype}]. *)
Definition typeOverride (dbtype gotype : string) : Override.t :=
  Override.mk gotype dbtype EmptyString EmptyString false EmptyString
    EmptyString (pg.mkFQN EmptyString EmptyString EmptyString)
    EmptyString EmptyString false.

(** An override decoded from [{"column": column, "go_type": gotype}]. *)
Definition columnOverride (column gotype : string) : Override.t :=
  Override.mk gotype EmptyString EmptyString EmptyString false column
    EmptyString (pg.mkFQN EmptyString EmptyString EmptyString)
    EmptyString EmptyString false.

(** An override decoded from [{"postgres_type": alias, "go_type": gotype}]. *)
Definition aliasOverride (alias gotype : string) : Override.t :=
  Override.mk gotype EmptyString alias EmptyString false EmptyString
    EmptyString (pg.mkFQN EmptyString EmptyString EmptyString)
    EmptyString EmptyString false.

(** The override [o] with an [engine] tag. *)
Definition withEngine (engine : Engine) (o : Override.t) : Override.t :=
  Override.mk (Override.GoType o) (Override.DBType o)
    (Override.Deprecated_PostgresType o) engine (Override.Null o)
    (Override.Column o) (Override.ColumnName o) (Override.Table o)
    (Override.GoTypeName o) (Override.GoPackage o) (Override.GoBasicType o).

(** The override [o] with [alias] in its deprecated [postgres_type] field. *)
Definition withAlias (alias : string) (o : Override.t) : Override.t :=
  Override.mk (Override.GoType o) (Override.DBType o) alias
    (Override.Engine o) (Override.Null o)
    (Override.Column o) (Override.ColumnName o) (Override.Table o)
    (Override.GoTypeName o) (Override.GoPackage o) (Override.GoBasicType o).

(** The override [o] as if the user had written the value of the
    deprecated [postgres_type] under [db_type] in the first place. *)
Definition writtenAsDBType (o : Override.t) : Override.t :=
  Override.mk (Override.GoType o) (Override.Deprecated_PostgresType o)
    EmptyString (Override.Engine o) (Override.Null o)
    (Override.Column o) (Override.ColumnName o) (Override.Table o)
    (Override.GoTypeName o) (Override.GoPackage o) (Override.GoBasicType o).

(** A package decoded from [{"name": .., "engine": .., "path": ..,
    "overrides": ..}]. *)
Definition package (name : string) (engine : Engine) (path : string)
    (overrides : list Override.t) : PackageSettings.t :=
  PackageSettings.mk name engine path EmptyString EmptyString false false false
    overrides.

(** A decoder for a document that is already in memory and well formed. *)
Definition decoded (c : GenerateSettings.t) : GenerateSettings.t * option error :=
  (c, None).

(** The steps of [Override.Parse] before the validation of [go_type]. *)
Definition beforeGoType : M Override.t unit :=
  Override.validateDeprecated;;
  Override.validateCombination;;
  Override.validateColumn.

(** The steps of [Override.Parse] after the migration of [postgres_type]. *)
Definition afterMigration : M Override.t unit :=
  Override.validateCombination;;
  Override.validateColumn;;
  Override.validateGoType.

(** Lines 166-176 on their own: the name after the last slash, without a
    leading [go-] and a trailing [-go]; [None] if a slice is out of range. *)
Definition qualifiedName (gotype : string) (lastSlash : Z) : option string :=
  typename ← GoString.slice_from gotype (lastSlash + 1);
  typename ←
    (if GoStrings.HasPrefix typename "go-"
     then GoString.slice_from typename (GoString.len "go-")
     else Some typename);
  if GoStrings.HasSuffix typename "-go"
  then GoString.slice_to typename (GoString.len typename - GoString.len "-go")
  else Some typename.

(** Lines 136-178 on their own: the value of [typename] at line 179. *)
Definition typeNameStep (gotype : string) : M Override.t string :=
  let lastDot := GoStrings.LastIndex gotype "." in
  let lastSlash := GoStrings.LastIndex gotype "/" in
  if (lastDot =? -1) && (lastSlash =? -1) then
    if negb (Override.found_basic gotype) then fail (errNotBasicType gotype)
    else modify (Override.set_GoBasicType true);; mret gotype
  else
    if lastDot =? -1 then fail (errGoTypeFormat gotype)
    else if lastSlash =? -1 then fail (errGoTypeFormat gotype)
    else
      typename ← checked (qualifiedName gotype lastSlash);
      pkg ← checked (GoString.slice_to gotype lastDot);
      modify (Override.set_GoPackage pkg);;
      mret typename.

(** Lines 180-184 on their own. *)
Definition pointerStep (gotype : string) : M Override.t unit :=
  isPointer ← checked (Override.isPointer gotype);
  if (isPointer : bool) then
    o1 ← get;
    pkg ← checked (GoString.slice_from (Override.GoPackage o1) 1);
    modify (Override.set_GoPackage pkg);;
    o2 ← get;
    modify (Override.set_GoTypeName ("*" +:+ Override.GoTypeName o2))
  else mret tt.

(** A step that reads neither the deprecated field nor the error stream,
    and writes to neither. *)
Definition framed (m : M Override.t unit) : Prop :=
  forall (o : Override.t) (log log' : list string) (alias : string),
    m (mkWorld (withAlias alias o) log') =
    let '(w, r) := m (mkWorld o log) in
    (mkWorld (withAlias alias (obj w)) log', r).

(** Lines 167-176 as a function: a leading [go-], then a trailing [-go],
    is removed from the name after the last slash. *)
Definition trimAffixes (typename : string) : string :=
  let t1 := if GoStrings.HasPrefix typename "go-"
            then GoString.drop 3 typename else typename in
  if GoStrings.HasSuffix t1 "-go"
  then GoString.take (String.length t1 - 3) t1 else t1.

(** The package path without its pointer sigil, and the sigil of the name. *)
Definition unstar (s : string) : string :=
  match s with
  | String a s' => if Ascii.eqb a "*" then s' else s
  | EmptyString => EmptyString
  end.
Definition sigil (s : string) : string :=
  match s with
  | String a _ => if Ascii.eqb a "*" then "*" else EmptyString
  | EmptyString => EmptyString
  end.

(** Line 228-230 and lines 231-233: the two defaults of a package. *)
Definition defaultName (p : PackageSettings.t) : PackageSettings.t :=
  if String.eqb (PackageSettings.Name p) EmptyString
  then PackageSettings.set_Name (Filepath.Base (PackageSettings.Path p)) p
  else p.
Definition defaultEngine (p : PackageSettings.t) : PackageSettings.t :=
  if String.eqb (PackageSettings.Engine p) EmptyString
  then PackageSettings.set_Engine EnginePostgreSQL p
  else p.

(** The same package before and after a successful validation: the path
    is kept and is not empty, an empty name has become the last element
    of the path, and an empty engine has become the default engine. *)
Definition defaulted (p p' : PackageSettings.t) : Prop :=
  PackageSettings.Path p <> EmptyString
  /\ PackageSettings.Path p' = PackageSettings.Path p
  /\ PackageSettings.Name p'
     = (if String.eqb (PackageSettings.Name p) EmptyString
        then Filepath.Base (PackageSettings.Path p)
        else PackageSettings.Name p)
  /\ PackageSettings.Engine p'
     = (if String.eqb (PackageSettings.Engine p) EmptyString
        then EnginePostgreSQL
        else PackageSettings.Engine p).

(** The steps of [Override.Parse] after the check of the combination. *)
Definition afterCombination : M Override.t unit :=
  Override.validateColumn;;
  Override.validateGoType.

(** The format string of an error made with [fmt.Errorf]. *)
Definition errorFormat (e : error) : string :=
  match e with
  | Errorf format _ => format
  | _ => EmptyString
  end.

(** [sub] occurs in [s]. *)
Fixpoint contains (sub s : string) : bool :=
  String.prefix sub s ||
  match s with
  | EmptyString => false
  | String _ s' => contains sub s'
  end.

(** The number of line feeds in a text. *)
Fixpoint lines (s : string) : nat :=
  match s with
  | EmptyString => O
  | String a s' => ((if Ascii.eqb a "010" then 1 else 0) + lines s')%nat
  end.

(** *** The final segment of a path *)

(** A path that holds separators only (the empty path among them). *)
Fixpoint onlySeparators (path : string) : bool :=
  match path with
  | EmptyString => true
  | String a rest => Ascii.eqb a Filepath.Separator && onlySeparators rest
  end.

(** The last segment that is not empty, if there is one. *)
Fixpoint lastNonEmpty (segs : list string) : option string :=
  match segs with
  | [] => None
  | seg :: rest =>
      match lastNonEmpty rest with
      | Some s => Some s
      | None => if Override.nonempty seg then Some seg else None
      end
  end.

(** The final segment of a path, as the specification has it: the path is
    split at its separators and the last segment that is not empty is
    taken; [None] when the path has no such segment. *)
Definition finalSegment (path : string) : option string :=
  lastNonEmpty (GoStrings.Split path Filepath.Separator).

(** The name that line 229 gives to a package without a name, in the
    words of [filepath.Base]: the final segment of the path, and the
    separator itself when the path has none. *)
Definition nameOfPath (path : string) : string :=
  match finalSegment path with
  | Some seg => seg
  | None => String Filepath.Separator EmptyString
  end.

(** ** Notions used to state further properties *)

(** The fields of an override that the document gives and that
    normalization only reads. *)
Definition written (o : Override.t) : string * Engine * bool * string * string :=
  (Override.GoType o, Override.Engine o, Override.Null o, Override.Column o,
   Override.Deprecated_PostgresType o).

(** The value of [db_type] after the migration of lines 101-107. *)
Definition migratedDBType (o : Override.t) : string :=
  if Override.nonempty (Override.Deprecated_PostgresType o)
     && negb (Override.nonempty (Override.DBType o))
  then Override.Deprecated_PostgresType o
  else Override.DBType o.

(** The names of the typed basic types of [types.Typ]: the entries that
    the loop of lines 142-153 does not skip. *)
Definition typedBasicNames : list string :=
  map GoTypes.Name
    (List.filter
       (fun typ =>
          negb (GoTypes.Info typ =? 0)
          && (Z.land (GoTypes.Info typ) GoTypes.IsUntyped =? 0))
       GoTypes.Typ).

(** What [Override.Parse] asks of an override, read off its four steps:
    [postgres_type] and [db_type] are not both set (line 103); exactly one
    of [column] and the migrated [db_type] is set (lines 110-115); a
    [column] has two, three or four segments (lines 120-132); and
    [go_type] is a typed basic type without dot and slash, or has both a
    dot and a slash (lines 139-165). *)
Definition acceptable (o : Override.t) : Prop :=
  ~ (Override.Deprecated_PostgresType o <> EmptyString
     /\ Override.DBType o <> EmptyString)
  /\ (Override.Column o = EmptyString <->
      Override.Deprecated_PostgresType o <> EmptyString
      \/ Override.DBType o <> EmptyString)
  /\ (Override.Column o <> EmptyString ->
      (2 <= length (GoStrings.Split (Override.Column o) ".") <= 4)%nat)
  /\ ((GoString.mem "." (Override.GoType o) = false
       /\ GoString.mem "/" (Override.GoType o) = false
       /\ Override.found_basic (Override.GoType o) = true)
      \/ (GoString.mem "." (Override.GoType o) = true
          /\ GoString.mem "/" (Override.GoType o) = true)).

(** The errors that [Override.Parse] can return for the override [o]:
    lines 104, 112, 114, 131, 155 and 161/164, with the fields they quote. *)
Definition parseErrors (o : Override.t) : list error :=
  [ errDBTypeWithPostgresType;
    errColumnAndDBType (Override.Column o) (migratedDBType o);
    errNoColumnOrDBType;
    errColumnFormat (Override.Column o);
    errNotBasicType (Override.GoType o);
    errGoTypeFormat (Override.GoType o) ].

(** The overrides of a document: the global ones and those of its
    packages. *)
Definition allOverrides (c : GenerateSettings.t) : list Override.t :=
  GenerateSettings.Overrides c
  ++ concat (map PackageSettings.Overrides (GenerateSettings.Packages c)).

(** An override before and after validation: what the document wrote is
    kept. *)
Definition keptOverride (o o' : Override.t) : Prop := written o' = written o.

(** A package before and after validation. *)
Definition keptPackage (p p' : PackageSettings.t) : Prop :=
  PackageSettings.Path p' = PackageSettings.Path p
  /\ PackageSettings.Schema p' = PackageSettings.Schema p
  /\ PackageSettings.Queries p' = PackageSettings.Queries p
  /\ PackageSettings.EmitInterface p' = PackageSettings.EmitInterface p
  /\ PackageSettings.EmitJSONTags p' = PackageSettings.EmitJSONTags p
  /\ PackageSettings.EmitPreparedQueries p'
     = PackageSettings.EmitPreparedQueries p
  /\ (PackageSettings.Name p <> EmptyString ->
      PackageSettings.Name p' = PackageSettings.Name p)
  /\ (PackageSettings.Engine p <> EmptyString ->
      PackageSettings.Engine p' = PackageSettings.Engine p)
  /\ Forall2 keptOverride (PackageSettings.Overrides p)
       (PackageSettings.Overrides p').

(** An override as a successful normalization leaves it: exactly one of
    [column] and [db_type] is set, [go_type] is not empty, and a [go_type]
    without a dot is marked as a basic type, with itself as its name. *)
Definition normalized (o : Override.t) : Prop :=
  (Override.Column o = EmptyString <-> Override.DBType o <> EmptyString)
  /\ Override.GoType o <> EmptyString
  /\ (GoString.mem "." (Override.GoType o) = false ->
      Override.GoBasicType o = true
      /\ Override.GoTypeName o = Override.GoType o).

(** A package as a successful validation leaves it. *)
Definition complete (p : PackageSettings.t) : Prop :=
  PackageSettings.Name p <> EmptyString
  /\ PackageSettings.Engine p <> EmptyString
  /\ PackageSettings.Path p <> EmptyString.

(** The number of overrides of a list that set the deprecated
    [postgres_type]. *)
Definition aliased (ovs : list Override.t) : nat :=
  length
    (List.filter
       (fun o => Override.nonempty (Override.Deprecated_PostgresType o)) ovs).

(** * Properties *)

(** ** Byte strings *)

Section StringFacts.
Import GoString GoStrings.

Lemma nonempty_true (s : string) : Override.nonempty s = true <-> s <> EmptyString.
Proof.
  unfold Override.nonempty. rewrite negb_true_iff. apply String.eqb_neq.
Qed.

Lemma nonempty_false (s : string) : Override.nonempty s = false <-> s = EmptyString.
Proof.
  unfold Override.nonempty. rewrite negb_false_iff. apply String.eqb_eq.
Qed.

Lemma len_nonneg (s : string) : 0 <= len s.
Proof. unfold len. lia. Qed.

Lemma len_cons (a : ascii) (s : string) : len (String a s) = 1 + len s.
Proof. unfold len. simpl String.length. lia. Qed.

Lemma string_length_app (s t : string) :
  String.length (s +:+ t) = (String.length s + String.length t)%nat.
Proof. induction s as [|a s IH]; simpl; [reflexivity | now rewrite IH]. Qed.

Lemma take_app (s t : string) : take (String.length s) (s +:+ t) = s.
Proof. induction s as [|a s IH]; simpl; [reflexivity | now rewrite IH]. Qed.

Lemma string_app_assoc (s t u : string) : (s +:+ t) +:+ u = s +:+ (t +:+ u).
Proof.
  induction s as [|a s IH]; [reflexivity|].
  change (String a ((s +:+ t) +:+ u) = String a (s +:+ (t +:+ u))).
  now rewrite IH.
Qed.

Lemma drop_app_cons (s t : string) (c : ascii) :
  drop (S (String.length s)) (s +:+ String c t) = t.
Proof.
  induction s as [|a s IH]; [now destruct t | exact IH].
Qed.

Lemma take_all (s : string) : take (String.length s) s = s.
Proof. induction s as [|a s IH]; simpl; [reflexivity | now rewrite IH]. Qed.

Lemma drop_length (n : nat) (s : string) :
  String.length (drop n s) = (String.length s - n)%nat.
Proof.
  revert s. induction n as [|n IH]; intros [|a s]; simpl; auto.
Qed.

Lemma mem_app (c : ascii) (s t : string) :
  mem c (s +:+ t) = mem c s || mem c t.
Proof.
  induction s as [|a s IH]; simpl; [reflexivity|].
  rewrite IH. now rewrite orb_assoc.
Qed.

(** [LastIndex] answers [-1] exactly when the byte does not occur. *)
Lemma LastIndex_at_range (i : Z) (s : string) (c : ascii) :
  0 <= i ->
  (mem c s = false /\ LastIndex_at i s c = -1)
  \/ (mem c s = true /\ i <= LastIndex_at i s c < i + len s).
Proof.
  revert i. induction s as [|a s IH]; intros i Hi; simpl.
  - left. split; reflexivity.
  - rewrite len_cons. pose proof (len_nonneg s) as Hlen.
    destruct (IH (i + 1) ltac:(lia)) as [[Hm Hr] | [Hm Hr]].
    + rewrite Hm, Hr, orb_false_r. simpl.
      destruct (Ascii.eqb a c); [right | left]; split; auto; lia.
    + rewrite Hm, orb_true_r. right. split; [reflexivity|].
      destruct (Z.eqb_spec (LastIndex_at (i + 1) s c) (-1)); lia.
Qed.

Lemma LastIndex_range (s : string) (c : ascii) :
  -1 <= LastIndex s c < len s.
Proof.
  unfold LastIndex.
  destruct (LastIndex_at_range 0 s c ltac:(lia)) as [[_ H]|[_ H]];
    pose proof (len_nonneg s); lia.
Qed.

Lemma LastIndex_absent (s : string) (c : ascii) :
  LastIndex s c = -1 <-> mem c s = false.
Proof.
  unfold LastIndex.
  destruct (LastIndex_at_range 0 s c ltac:(lia)) as [[Hm H]|[Hm H]];
    rewrite Hm; split; intros; try congruence; try lia.
Qed.

(** The last occurrence is where the byte is followed by none of its kind. *)
Lemma LastIndex_at_app (i : Z) (pre rest : string) (c : ascii) :
  0 <= i -> mem c rest = false ->
  LastIndex_at i (pre +:+ String c rest) c = i + len pre.
Proof.
  revert i. induction pre as [|a pre IH]; intros i Hi Hrest.
  - change (EmptyString +:+ String c rest) with (String c rest).
    simpl.
    destruct (LastIndex_at_range (i + 1) rest c ltac:(lia)) as [[_ H]|[Hm _]];
      [|congruence].
    rewrite H. simpl. rewrite Ascii.eqb_refl. unfold len. simpl. lia.
  - change (String a pre +:+ String c rest) with (String a (pre +:+ String c rest)).
    simpl. rewrite (IH (i + 1)) by (auto; lia).
    rewrite len_cons. pose proof (len_nonneg pre).
    destruct (Z.eqb_spec (i + 1 + len pre) (-1)); lia.
Qed.

Lemma LastIndex_app (pre rest : string) (c : ascii) :
  mem c rest = false -> LastIndex (pre +:+ String c rest) c = len pre.
Proof.
  intros H. unfold LastIndex. rewrite LastIndex_at_app by (auto; lia). lia.
Qed.

Lemma slice_from_ok (s : string) (lo : Z) :
  0 <= lo <= len s -> slice_from s lo = Some (drop (Z.to_nat lo) s).
Proof.
  intros H. unfold slice_from, slice.
  replace ((0 <=? lo) && (lo <=? len s) && (len s <=? len s)) with true
    by (symmetry; rewrite !andb_true_iff, !Z.leb_le; lia).
  f_equal.
  replace (Z.to_nat (len s - lo)) with (String.length (drop (Z.to_nat lo) s)).
  - apply take_all.
  - rewrite drop_length. unfold len. lia.
Qed.

Lemma slice_to_ok (s : string) (hi : Z) :
  0 <= hi <= len s -> slice_to s hi = Some (take (Z.to_nat hi) s).
Proof.
  intros H. unfold slice_to, slice.
  replace ((0 <=? 0) && (0 <=? hi) && (hi <=? len s)) with true
    by (symmetry; rewrite !andb_true_iff, !Z.leb_le; lia).
  rewrite Z.sub_0_r. reflexivity.
Qed.

Lemma index_cons (a : ascii) (s : string) : index (String a s) 0 = Some a.
Proof.
  unfold index. rewrite len_cons. pose proof (len_nonneg s).
  replace ((0 <=? 0) && (0 <? 1 + len s)) with true; [reflexivity|].
  symmetry. rewrite andb_true_iff, Z.leb_le, Z.ltb_lt. lia.
Qed.

Lemma prefix_length (p s : string) :
  String.prefix p s = true -> (String.length p <= String.length s)%nat.
Proof.
  revert s. induction p as [|a p IH]; intros [|b s]; simpl; intros H;
    try lia; try discriminate.
  destruct (ascii_dec a b); [|discriminate].
  apply IH in H. lia.
Qed.

Lemma HasPrefix_len (s p : string) : HasPrefix s p = true -> len p <= len s.
Proof. intros H. apply prefix_length in H. unfold len. lia. Qed.

Lemma HasSuffix_len (s p : string) : HasSuffix s p = true -> len p <= len s.
Proof.
  unfold HasSuffix. rewrite andb_true_iff, Z.leb_le. intros [H _]. exact H.
Qed.

Lemma take_length (n : nat) (s : string) :
  String.length (take n s) = Nat.min n (String.length s).
Proof.
  revert s. induction n as [|n IH]; intros [|a s]; simpl; auto.
Qed.

(** The separator is found at index 0 only if it is the first byte. *)
Lemma LastIndex_zero (a : ascii) (s : string) (c : ascii) :
  LastIndex (String a s) c = 0 -> a = c.
Proof.
  unfold LastIndex. cbn [LastIndex_at]. change (0 + 1) with 1.
  destruct (LastIndex_at_range 1 s c ltac:(lia)) as [[_ H]|[_ H]].
  - rewrite H. cbn [Z.eqb Pos.eqb].
    destruct (Ascii.eqb_spec a c); [auto | lia].
  - destruct (Z.eqb_spec (LastIndex_at 1 s c) (-1)); lia.
Qed.

Lemma isPointer_cons (a : ascii) (s : string) :
  Override.isPointer (String a s) = Some (Ascii.eqb a "*").
Proof. unfold Override.isPointer. rewrite index_cons. reflexivity. Qed.

(** The three slices of lines 166-176 are always in range. *)
Lemma qualifiedName_ok (gotype : string) (lastSlash : Z) :
  -1 <= lastSlash < len gotype ->
  qualifiedName gotype lastSlash
  = Some (trimAffixes (drop (Z.to_nat (lastSlash + 1)) gotype)).
Proof.
  intros H. unfold qualifiedName, trimAffixes.
  rewrite slice_from_ok by lia. cbn [mbind option_bind].
  set (t0 := drop (Z.to_nat (lastSlash + 1)) gotype).
  assert (Hgo : len "go-" = 3) by reflexivity.
  assert (Hog : len "-go" = 3) by reflexivity.
  rewrite Hgo, Hog.
  destruct (HasPrefix t0 "go-") eqn:Hp.
  - apply HasPrefix_len in Hp. rewrite Hgo in Hp.
    rewrite slice_from_ok by lia. cbn [mbind option_bind].
    change (Z.to_nat 3) with 3%nat.
    destruct (HasSuffix (drop 3 t0) "-go") eqn:Hs; [|reflexivity].
    apply HasSuffix_len in Hs. rewrite Hog in Hs.
    pose proof (len_nonneg (drop 3 t0)).
    rewrite slice_to_ok by lia. do 2 f_equal. unfold len. lia.
  - cbn [mbind option_bind].
    destruct (HasSuffix t0 "-go") eqn:Hs; [|reflexivity].
    apply HasSuffix_len in Hs. rewrite Hog in Hs.
    rewrite slice_to_ok by lia. do 2 f_equal. unfold len. lia.
Qed.

(** A built-in type name is not empty and does not start with a star. *)
Lemma found_basic_first (s : string) :
  Override.found_basic s = true ->
  exists a s', s = String a s' /\ Ascii.eqb a "*" = false.
Proof.
  unfold Override.found_basic.
  cbv -[String.eqb].
  repeat match goal with
         | |- context [String.eqb s ?x] =>
             destruct (String.eqb_spec s x) as [->|_]; [eauto|]
         end.
  discriminate.
Qed.

End StringFacts.

(** ** Running the monad *)

Ltac run_monad :=
  cbv [mbind mret M_mbind M_mret M_bind M_ret get modify fail checked eprint try].

(** Projections of updated records. *)
Ltac fields :=
  cbn [obj stderr fst snd
       Override.GoType Override.DBType Override.Deprecated_PostgresType
       Override.Engine Override.Null Override.Column Override.ColumnName
       Override.Table Override.GoTypeName Override.GoPackage
       Override.GoBasicType
       Override.set_DBType Override.set_ColumnName Override.set_Table
       Override.set_GoTypeName Override.set_GoPackage Override.set_GoBasicType
       withAlias withEngine writtenAsDBType] in *.

Section ParseSteps.
Import Override.

Lemma validateDeprecated_run (o : Override.t) (log : list string) :
  validateDeprecated (mkWorld o log) =
  if nonempty (Deprecated_PostgresType o) then
    if nonempty (DBType o)
    then (mkWorld o (log ++ [warnDeprecatedPostgresType]),
          Err errDBTypeWithPostgresType)
    else (mkWorld (set_DBType (Deprecated_PostgresType o) o)
                  (log ++ [warnDeprecatedPostgresType]), Ok tt)
  else (mkWorld o log, Ok tt).
Proof.
  unfold validateDeprecated. run_monad. simpl.
  destruct (nonempty (Deprecated_PostgresType o)); [|reflexivity].
  destruct (nonempty (DBType o)); reflexivity.
Qed.

Lemma validateCombination_run (o : Override.t) (log : list string) :
  validateCombination (mkWorld o log) =
  (mkWorld o log,
   if nonempty (Column o) && nonempty (DBType o)
   then Err (errColumnAndDBType (Column o) (DBType o))
   else if negb (nonempty (Column o)) && negb (nonempty (DBType o))
        then Err errNoColumnOrDBType
        else Ok tt).
Proof.
  unfold validateCombination. run_monad. simpl.
  destruct (nonempty (Column o)), (nonempty (DBType o)); reflexivity.
Qed.

Lemma validateColumn_run (o : Override.t) (log : list string) :
  validateColumn (mkWorld o log) =
  if nonempty (Column o) then
    match GoStrings.Split (Column o) "." with
    | [p0; p1] =>
        (mkWorld (set_Table (pg.mkFQN EmptyString "public" p0)
                            (set_ColumnName p1 o)) log, Ok tt)
    | [p0; p1; p2] =>
        (mkWorld (set_Table (pg.mkFQN EmptyString p0 p1)
                            (set_ColumnName p2 o)) log, Ok tt)
    | [p0; p1; p2; p3] =>
        (mkWorld (set_Table (pg.mkFQN p0 p1 p2) (set_ColumnName p3 o)) log,
         Ok tt)
    | _ => (mkWorld o log, Err (errColumnFormat (Column o)))
    end
  else (mkWorld o log, Ok tt).
Proof.
  unfold validateColumn. run_monad. cbn [obj stderr].
  destruct (nonempty (Column o)); [|reflexivity].
  destruct (GoStrings.Split (Column o) ".") as [|p0 [|p1 [|p2 [|p3 [|p4 ps]]]]];
    reflexivity.
Qed.

(** [validateGoType] is its two halves in sequence. *)
Lemma validateGoType_steps (w : World Override.t) :
  validateGoType w =
  (typename ← typeNameStep (GoType (obj w));
   modify (set_GoTypeName typename);;
   pointerStep (GoType (obj w))) w.
Proof.
  unfold validateGoType, typeNameStep, pointerStep, qualifiedName.
  run_monad. cbn [obj stderr].
  generalize (GoStrings.LastIndex (GoType (obj w)) "."),
    (GoStrings.LastIndex (GoType (obj w)) "/"),
    (found_basic (GoType (obj w))), (isPointer (GoType (obj w))).
  intros lastDot lastSlash found ptr.
  destruct ((lastDot =? -1) && (lastSlash =? -1)).
  - destruct found; reflexivity.
  - destruct (lastDot =? -1); [reflexivity|].
    destruct (lastSlash =? -1); [reflexivity|].
    destruct (GoString.slice_from (GoType (obj w)) (lastSlash + 1)) as [t0|];
      [|reflexivity].
    cbn [mbind option_bind].
    destruct (GoStrings.HasPrefix t0 "go-").
    + destruct (GoString.slice_from t0 (GoString.len "go-")) as [t1|];
        [|reflexivity].
      cbn [mbind option_bind].
      destruct (GoStrings.HasSuffix t1 "-go"); reflexivity.
    + cbn [mbind option_bind].
      destruct (GoStrings.HasSuffix t0 "-go"); reflexivity.
Qed.

Lemma typeNameStep_run (gt : string) (o : Override.t) (log : list string) :
  typeNameStep gt (mkWorld o log) =
  if (GoStrings.LastIndex gt "." =? -1) && (GoStrings.LastIndex gt "/" =? -1)
  then
    if found_basic gt then (mkWorld (set_GoBasicType true o) log, Ok gt)
    else (mkWorld o log, Err (errNotBasicType gt))
  else if GoStrings.LastIndex gt "." =? -1
  then (mkWorld o log, Err (errGoTypeFormat gt))
  else if GoStrings.LastIndex gt "/" =? -1
  then (mkWorld o log, Err (errGoTypeFormat gt))
  else
    match qualifiedName gt (GoStrings.LastIndex gt "/") with
    | None => (mkWorld o log, Panic)
    | Some typename =>
        match GoString.slice_to gt (GoStrings.LastIndex gt ".") with
        | None => (mkWorld o log, Panic)
        | Some pkg => (mkWorld (set_GoPackage pkg o) log, Ok typename)
        end
    end.
Proof.
  unfold typeNameStep. run_monad. cbn [obj stderr].
  generalize (GoStrings.LastIndex gt "."), (GoStrings.LastIndex gt "/").
  intros lastDot lastSlash.
  destruct ((lastDot =? -1) && (lastSlash =? -1)).
  - destruct (found_basic gt); reflexivity.
  - destruct (lastDot =? -1); [reflexivity|].
    destruct (lastSlash =? -1); [reflexivity|].
    destruct (qualifiedName gt lastSlash); [|reflexivity].
    destruct (GoString.slice_to gt lastDot); reflexivity.
Qed.

Lemma pointerStep_run (gt : string) (o : Override.t) (log : list string) :
  pointerStep gt (mkWorld o log) =
  match isPointer gt with
  | None => (mkWorld o log, Panic)
  | Some false => (mkWorld o log, Ok tt)
  | Some true =>
      match GoString.slice_from (GoPackage o) 1 with
      | None => (mkWorld o log, Panic)
      | Some pkg =>
          (mkWorld (set_GoTypeName ("*" +:+ GoTypeName o) (set_GoPackage pkg o))
                   log, Ok tt)
      end
  end.
Proof.
  unfold pointerStep. run_monad. cbn [obj stderr].
  destruct (isPointer gt) as [[|]|]; try reflexivity.
  cbn [obj stderr].
  destruct (GoString.slice_from (GoPackage o) 1); reflexivity.
Qed.

(** The name has neither a dot nor a slash: it must be a built-in type. *)
Lemma validateGoType_basic (o : Override.t) (log : list string) :
  GoStrings.LastIndex (GoType o) "." = -1 ->
  GoStrings.LastIndex (GoType o) "/" = -1 ->
  validateGoType (mkWorld o log) =
  if found_basic (GoType o)
  then pointerStep (GoType o)
         (mkWorld (set_GoTypeName (GoType o) (set_GoBasicType true o)) log)
  else (mkWorld o log, Err (errNotBasicType (GoType o))).
Proof.
  intros Hd Hs. rewrite validateGoType_steps.
  unfold mbind, M_mbind, M_bind at 1. cbn [obj].
  rewrite typeNameStep_run, Hd, Hs. cbn [Z.eqb andb Pos.eqb].
  destruct (found_basic (GoType o)); reflexivity.
Qed.

(** The name has only one of the dot and the slash. *)
Lemma validateGoType_malformed (o : Override.t) (log : list string) :
  (GoStrings.LastIndex (GoType o) "." = -1
   /\ GoStrings.LastIndex (GoType o) "/" <> -1)
  \/ (GoStrings.LastIndex (GoType o) "." <> -1
      /\ GoStrings.LastIndex (GoType o) "/" = -1) ->
  validateGoType (mkWorld o log) =
  (mkWorld o log, Err (errGoTypeFormat (GoType o))).
Proof.
  intros H. rewrite validateGoType_steps.
  unfold mbind, M_mbind, M_bind at 1. cbn [obj].
  rewrite typeNameStep_run.
  destruct (Z.eqb_spec (GoStrings.LastIndex (GoType o) ".") (-1)),
    (Z.eqb_spec (GoStrings.LastIndex (GoType o) "/") (-1));
    cbn [andb]; try reflexivity; lia.
Qed.

(** The name has both a dot and a slash. *)
Lemma validateGoType_qualified (o : Override.t) (log : list string) :
  GoStrings.LastIndex (GoType o) "." <> -1 ->
  GoStrings.LastIndex (GoType o) "/" <> -1 ->
  validateGoType (mkWorld o log) =
  pointerStep (GoType o)
    (mkWorld
       (set_GoTypeName
          (trimAffixes
             (GoString.drop
                (Z.to_nat (GoStrings.LastIndex (GoType o) "/" + 1)) (GoType o)))
          (set_GoPackage
             (GoString.take (Z.to_nat (GoStrings.LastIndex (GoType o) "."))
                (GoType o)) o))
       log).
Proof.
  intros Hd Hs. rewrite validateGoType_steps.
  unfold mbind, M_mbind, M_bind at 1. cbn [obj].
  rewrite typeNameStep_run.
  pose proof (LastIndex_range (GoType o) ".") as Rd.
  pose proof (LastIndex_range (GoType o) "/") as Rs.
  destruct (Z.eqb_spec (GoStrings.LastIndex (GoType o) ".") (-1)); [lia|].
  destruct (Z.eqb_spec (GoStrings.LastIndex (GoType o) "/") (-1)); [lia|].
  cbn [andb].
  rewrite qualifiedName_ok by lia. rewrite slice_to_ok by lia.
  reflexivity.
Qed.

(** *** What the steps leave alone *)

Lemma framed_seq (m1 m2 : M Override.t unit) :
  framed m1 -> framed m2 -> framed (m1;; m2).
Proof.
  intros H1 H2 o log log' alias. run_monad.
  rewrite (H1 o log log' alias).
  destruct (m1 (mkWorld o log)) as [[o1 log1] [[]| |]]; cbn [obj stderr]; auto.
Qed.

Lemma validateCombination_framed : framed validateCombination.
Proof.
  intros o log log' alias. rewrite !validateCombination_run.
  destruct o; reflexivity.
Qed.

Lemma validateColumn_framed : framed validateColumn.
Proof.
  intros o log log' alias. rewrite !validateColumn_run.
  destruct o as [gt dbt dep eng nul col cn tb gtn gp gb]. fields.
  destruct (nonempty col); [|reflexivity].
  destruct (GoStrings.Split col ".") as [|p0 [|p1 [|p2 [|p3 [|p4 ps]]]]];
    reflexivity.
Qed.

Lemma pointerStep_framed (gt : string) : framed (pointerStep gt).
Proof.
  intros o log log' alias. rewrite !pointerStep_run.
  destruct o as [gt0 dbt dep eng nul col cn tb gtn gp gb]. fields.
  destruct (isPointer gt) as [[|]|]; try reflexivity.
  destruct (GoString.slice_from gp 1); reflexivity.
Qed.

Lemma validateGoType_framed : framed validateGoType.
Proof.
  intros o log log' alias.
  rewrite !validateGoType_steps. run_monad.
  destruct o as [gt dbt dep eng nul col cn tb gtn gp gb]. fields.
  rewrite !typeNameStep_run.
  destruct ((GoStrings.LastIndex gt "." =? -1)
            && (GoStrings.LastIndex gt "/" =? -1)).
  - destruct (found_basic gt); [|reflexivity]. fields.
    apply (pointerStep_framed gt
             (mk gt dbt dep eng nul col cn tb gt gp true) log log' alias).
  - destruct (GoStrings.LastIndex gt "." =? -1); [reflexivity|].
    destruct (GoStrings.LastIndex gt "/" =? -1); [reflexivity|].
    destruct (qualifiedName gt (GoStrings.LastIndex gt "/")) as [tn|];
      [|reflexivity].
    destruct (GoString.slice_to gt (GoStrings.LastIndex gt ".")) as [pk|];
      [|reflexivity].
    fields.
    apply (pointerStep_framed gt
             (mk gt dbt dep eng nul col cn tb tn pk gb) log log' alias).
Qed.

Lemma afterMigration_framed : framed afterMigration.
Proof.
  unfold afterMigration.
  auto using framed_seq, validateCombination_framed, validateColumn_framed,
    validateGoType_framed.
Qed.

(** *** No step panics *)

Lemma pointerStep_no_panic (gt : string) (o : Override.t) (log : list string) :
  match isPointer gt with
  | Some true => 1 <= GoString.len (GoPackage o)
  | Some false => True
  | None => False
  end ->
  (pointerStep gt (mkWorld o log)).2 <> Panic.
Proof.
  rewrite pointerStep_run.
  destruct (isPointer gt) as [[|]|]; cbn [snd]; try discriminate.
  - intros H. rewrite slice_from_ok by lia. discriminate.
  - intros [].
Qed.

Lemma validateGoType_no_panic (o : Override.t) (log : list string) :
  (validateGoType (mkWorld o log)).2 <> Panic.
Proof.
  pose proof (LastIndex_range (GoType o) ".") as Rd.
  pose proof (LastIndex_range (GoType o) "/") as Rs.
  destruct (Z.eq_dec (GoStrings.LastIndex (GoType o) ".") (-1)) as [Hd|Hd],
    (Z.eq_dec (GoStrings.LastIndex (GoType o) "/") (-1)) as [Hs|Hs].
  - rewrite validateGoType_basic by assumption.
    destruct (found_basic (GoType o)) eqn:Hf; [|discriminate].
    apply found_basic_first in Hf as (a & s' & Hgt & Ha).
    apply pointerStep_no_panic. rewrite Hgt, isPointer_cons, Ha. exact I.
  - rewrite validateGoType_malformed by auto. discriminate.
  - rewrite validateGoType_malformed by auto. discriminate.
  - rewrite validateGoType_qualified by assumption.
    apply pointerStep_no_panic. fields.
    destruct (GoType o) as [|a s'] eqn:Hgt.
    + change (GoString.len EmptyString) with 0 in Rd. lia.
    + rewrite isPointer_cons.
      destruct (Ascii.eqb_spec a "*") as [->|]; [|exact I].
      assert (GoStrings.LastIndex (String "*" s') "." <> 0)
        by (intros H0; apply LastIndex_zero in H0; discriminate).
      unfold GoString.len in *. rewrite take_length. lia.
Qed.

(** *** What [validateGoType] returns and what it assigns *)

Lemma pointerStep_keeps (gt : string) (o : Override.t) (log : list string) :
  exists tn pk,
    (pointerStep gt (mkWorld o log)).1 =
    mkWorld (set_GoTypeName tn (set_GoPackage pk o)) log
    /\ ((pointerStep gt (mkWorld o log)).2 = Ok tt
        \/ (pointerStep gt (mkWorld o log)).2 = Panic).
Proof.
  rewrite pointerStep_run. destruct o as [g d dep e n c cn tb gtn gp gb].
  destruct (isPointer gt) as [[|]|]; fields; eauto.
  destruct (GoString.slice_from gp 1); fields; eauto.
Qed.

Lemma validateGoType_result (o : Override.t) (log : list string) :
  (validateGoType (mkWorld o log)).2 = Ok tt
  \/ (validateGoType (mkWorld o log)).2 = Err (errNotBasicType (GoType o))
  \/ (validateGoType (mkWorld o log)).2 = Err (errGoTypeFormat (GoType o)).
Proof.
  pose proof (validateGoType_no_panic o log) as Hnp. revert Hnp.
  destruct (Z.eq_dec (GoStrings.LastIndex (GoType o) ".") (-1)) as [Hd|Hd],
    (Z.eq_dec (GoStrings.LastIndex (GoType o) "/") (-1)) as [Hs|Hs].
  - rewrite validateGoType_basic by assumption.
    destruct (found_basic (GoType o)); [|auto].
    intros Hnp.
    destruct (pointerStep_keeps (GoType o)
                (set_GoTypeName (GoType o) (set_GoBasicType true o)) log)
      as (tn & pk & _ & [H|H]); [auto | contradiction].
  - rewrite validateGoType_malformed by auto. auto.
  - rewrite validateGoType_malformed by auto. auto.
  - rewrite validateGoType_qualified by assumption. intros Hnp.
    match goal with
    | |- context [pointerStep ?g (mkWorld ?x ?l)] =>
        destruct (pointerStep_keeps g x l) as (tn & pk & _ & [H|H])
    end; [auto | contradiction].
Qed.

(** [validateGoType] assigns the three fields of the type reference only
    and writes nothing to the error stream. *)
Lemma validateGoType_keeps (o : Override.t) (log : list string) :
  exists tn pk gb,
    (validateGoType (mkWorld o log)).1 =
    mkWorld (set_GoTypeName tn (set_GoPackage pk (set_GoBasicType gb o))) log.
Proof.
  destruct (Z.eq_dec (GoStrings.LastIndex (GoType o) ".") (-1)) as [Hd|Hd],
    (Z.eq_dec (GoStrings.LastIndex (GoType o) "/") (-1)) as [Hs|Hs].
  - rewrite validateGoType_basic by assumption.
    destruct (found_basic (GoType o)).
    + destruct (pointerStep_keeps (GoType o)
                  (set_GoTypeName (GoType o) (set_GoBasicType true o)) log)
        as (tn & pk & H & _).
      rewrite H. exists tn, pk, true. destruct o; reflexivity.
    + exists (GoTypeName o), (GoPackage o), (GoBasicType o).
      destruct o; reflexivity.
  - rewrite validateGoType_malformed by auto.
    exists (GoTypeName o), (GoPackage o), (GoBasicType o).
    destruct o; reflexivity.
  - rewrite validateGoType_malformed by auto.
    exists (GoTypeName o), (GoPackage o), (GoBasicType o).
    destruct o; reflexivity.
  - rewrite validateGoType_qualified by assumption.
    match goal with
    | |- context [pointerStep ?g (mkWorld ?x ?l)] =>
        destruct (pointerStep_keeps g x l) as (tn & pk & H & _)
    end.
    rewrite H. exists tn, pk, (GoBasicType o). destruct o; reflexivity.
Qed.

(** *** [Parse] as its steps *)

Lemma Parse_after (w : World Override.t) :
  Parse w =
  match validateDeprecated w with
  | (w1, Ok _) => afterMigration w1
  | (w1, Err e) => (w1, Err e)
  | (w1, Panic) => (w1, Panic)
  end.
Proof. reflexivity. Qed.

Lemma Parse_before (w : World Override.t) :
  Parse w =
  match beforeGoType w with
  | (w1, Ok _) => validateGoType w1
  | (w1, Err e) => (w1, Err e)
  | (w1, Panic) => (w1, Panic)
  end.
Proof.
  unfold Parse, beforeGoType. run_monad.
  destruct (validateDeprecated w) as [w1 [[]| |]]; try reflexivity.
  destruct (validateCombination w1) as [w2 [[]| |]]; reflexivity.
Qed.

(** The steps before the type reference leave its three fields alone,
    and return or fail without a panic. *)
Lemma beforeGoType_keeps (o : Override.t) (log : list string) :
  let w1 := (beforeGoType (mkWorld o log)).1 in
  GoType (obj w1) = GoType o
  /\ GoPackage (obj w1) = GoPackage o
  /\ GoBasicType (obj w1) = GoBasicType o
  /\ GoTypeName (obj w1) = GoTypeName o
  /\ (beforeGoType (mkWorld o log)).2 <> Panic.
Proof.
  unfold beforeGoType. run_monad.
  rewrite validateDeprecated_run.
  destruct o as [g d dep e n c cn tb gtn gp gb]. fields.
  destruct (nonempty dep); [destruct (nonempty d)|]; fields;
    try (repeat split; try reflexivity; discriminate);
    rewrite validateCombination_run; fields;
    match goal with
    | |- context [nonempty c && nonempty ?x] =>
        destruct (nonempty c), (nonempty x)
    end; cbn [andb negb]; fields;
    try (repeat split; try reflexivity; discriminate);
    rewrite validateColumn_run; fields;
    match goal with
    | |- context [nonempty c] => destruct (nonempty c)
    end;
    try (repeat split; try reflexivity; discriminate);
    destruct (GoStrings.Split c ".") as [|p0 [|p1 [|p2 [|p3 [|p4 ps]]]]];
    fields; repeat split; try reflexivity; discriminate.
Qed.

Lemma afterMigration_run (o : Override.t) (log : list string) :
  afterMigration (mkWorld o log) =
  if nonempty (Column o) && nonempty (DBType o)
  then (mkWorld o log, Err (errColumnAndDBType (Column o) (DBType o)))
  else if negb (nonempty (Column o)) && negb (nonempty (DBType o))
       then (mkWorld o log, Err errNoColumnOrDBType)
       else afterCombination (mkWorld o log).
Proof.
  unfold afterMigration, afterCombination.
  unfold mbind at 1, M_mbind at 1, M_bind at 1.
  rewrite validateCombination_run.
  destruct (nonempty (Column o)), (nonempty (DBType o)); reflexivity.
Qed.

Lemma afterCombination_run (w : World Override.t) :
  afterCombination w =
  match validateColumn w with
  | (w1, Ok _) => validateGoType w1
  | (w1, Err e) => (w1, Err e)
  | (w1, Panic) => (w1, Panic)
  end.
Proof. reflexivity. Qed.

Lemma afterCombination_result (o : Override.t) (log : list string) :
  (afterCombination (mkWorld o log)).2 = Ok tt
  \/ (afterCombination (mkWorld o log)).2 = Err (errColumnFormat (Column o))
  \/ (afterCombination (mkWorld o log)).2 = Err (errNotBasicType (GoType o))
  \/ (afterCombination (mkWorld o log)).2 = Err (errGoTypeFormat (GoType o)).
Proof.
  rewrite afterCombination_run, validateColumn_run.
  destruct (nonempty (Column o));
    [destruct (GoStrings.Split (Column o) ".")
       as [|p0 [|p1 [|p2 [|p3 [|p4 ps]]]]]|];
    cbn [snd]; auto.
  all: match goal with
    | |- context [validateGoType (mkWorld ?x ?l)] =>
        destruct (validateGoType_result x l) as [H|[H|H]];
        rewrite H; destruct o; fields; auto
    end.
Qed.

End ParseSteps.

(** Errors with different format strings are different errors. *)
Ltac distinct_formats :=
  let H := fresh in
  intros H; apply (f_equal errorFormat) in H; vm_compute in H; discriminate H.

(** ** The settings combiner *)

(** C9: [Combine] returns a view whose merged overrides are the global
    overrides followed by the overrides of the package, each group in its
    own order (an override keeps its index in the first group, and is
    shifted by the length of the first group in the second), so that the
    merged length is the sum of the two lengths; the two inputs are
    returned as they are in [Global] and [Package], and [Combine] is a
    total function that validates nothing and returns no error. *)
Theorem Combine_global_then_package
    (gen : GenerateSettings.t) (pkg : PackageSettings.t) :
  CombinedSettings.Overrides (Combine gen pkg)
  = GenerateSettings.Overrides gen ++ PackageSettings.Overrides pkg
  /\ length (CombinedSettings.Overrides (Combine gen pkg))
     = (length (GenerateSettings.Overrides gen)
        + length (PackageSettings.Overrides pkg))%nat
  /\ (forall (i : nat) (o : Override.t),
        GenerateSettings.Overrides gen !! i = Some o ->
        CombinedSettings.Overrides (Combine gen pkg) !! i = Some o)
  /\ (forall (j : nat) (o : Override.t),
        PackageSettings.Overrides pkg !! j = Some o ->
        CombinedSettings.Overrides (Combine gen pkg)
          !! (length (GenerateSettings.Overrides gen) + j)%nat = Some o)
  /\ CombinedSettings.Global (Combine gen pkg) = gen
  /\ CombinedSettings.Package (Combine gen pkg) = pkg.
Proof.
  unfold Combine. cbn [CombinedSettings.Overrides CombinedSettings.Global
                       CombinedSettings.Package].
  repeat split.
  - apply List.length_app.
  - intros i o H. apply lookup_app_l_Some. exact H.
  - intros j o H. rewrite lookup_app_r by lia.
    replace (length (GenerateSettings.Overrides gen) + j
             - length (GenerateSettings.Overrides gen))%nat with j by lia.
    exact H.
Qed.


(** ** The override normalizer *)

Section Normalizer.
Import Override.

Lemma Parse_no_alias (o : Override.t) (log : list string) :
  Deprecated_PostgresType o = EmptyString ->
  Parse (mkWorld o log) = afterMigration (mkWorld o log).
Proof.
  intros H. rewrite Parse_after, validateDeprecated_run.
  apply nonempty_false in H. rewrite H. reflexivity.
Qed.

Lemma Parse_alias (o : Override.t) (log : list string) :
  Deprecated_PostgresType o <> EmptyString ->
  DBType o = EmptyString ->
  Parse (mkWorld o log) =
  afterMigration
    (mkWorld (set_DBType (Deprecated_PostgresType o) o)
             (log ++ [warnDeprecatedPostgresType])).
Proof.
  intros Hd Hb. rewrite Parse_after, validateDeprecated_run.
  apply nonempty_true in Hd. apply nonempty_false in Hb.
  rewrite Hd, Hb. reflexivity.
Qed.

Lemma afterCombination_keeps_DBType (o : Override.t) (log : list string) :
  DBType (obj (afterCombination (mkWorld o log)).1) = DBType o.
Proof.
  rewrite afterCombination_run, validateColumn_run.
  destruct (nonempty (Column o));
    [destruct (GoStrings.Split (Column o) ".")
       as [|p0 [|p1 [|p2 [|p3 [|p4 ps]]]]]|];
    try reflexivity.
  all: match goal with
       | |- context [validateGoType (mkWorld ?x ?l)] =>
           destruct (validateGoType_keeps x l) as (tn & pk & gb & H);
           rewrite H; destruct o; reflexivity
       end.
Qed.

Lemma afterMigration_keeps_DBType (o : Override.t) (log : list string) :
  DBType (obj (afterMigration (mkWorld o log)).1) = DBType o.
Proof.
  rewrite afterMigration_run.
  destruct (nonempty (Column o) && nonempty (DBType o)); [reflexivity|].
  destruct (negb (nonempty (Column o)) && negb (nonempty (DBType o)));
    [reflexivity|].
  apply afterCombination_keeps_DBType.
Qed.

(** C4: after the migration of the deprecated alias (which is assumed to
    have passed: [postgres_type] and [db_type] are not both set), with
    [dbtype] the value of [db_type] that the migration leaves,
    normalization fails with the conflicting-fields error of line 112
    when [column] and [db_type] are both set, and with the
    incomplete-override error of line 114 when neither is set; when
    exactly one of the two is set, normalization returns neither of these
    errors (nor the conflict error of the migration). *)
Theorem Parse_column_xor_db_type (o : Override.t) (log : list string) :
  ~ (Deprecated_PostgresType o <> EmptyString /\ DBType o <> EmptyString) ->
  let dbtype :=
    if nonempty (Deprecated_PostgresType o)
    then Deprecated_PostgresType o else DBType o in
  (Column o <> EmptyString /\ dbtype <> EmptyString ->
   (Parse (mkWorld o log)).2 = Err (errColumnAndDBType (Column o) dbtype))
  /\ (Column o = EmptyString /\ dbtype = EmptyString ->
      (Parse (mkWorld o log)).2 = Err errNoColumnOrDBType)
  /\ ((Column o = EmptyString <-> dbtype <> EmptyString) ->
      (forall c d : string,
          (Parse (mkWorld o log)).2 <> Err (errColumnAndDBType c d))
      /\ (Parse (mkWorld o log)).2 <> Err errNoColumnOrDBType
      /\ (Parse (mkWorld o log)).2 <> Err errDBTypeWithPostgresType).
Proof.
  intros Hmig dbtype.
  assert (Hrun : exists log',
             Parse (mkWorld o log)
             = afterMigration (mkWorld (set_DBType dbtype o) log')).
  { subst dbtype.
    destruct (nonempty (Deprecated_PostgresType o)) eqn:Hd.
    - apply nonempty_true in Hd.
      destruct (String.eqb_spec (DBType o) EmptyString) as [Hb|Hb];
        [|tauto].
      eexists. apply Parse_alias; assumption.
    - apply nonempty_false in Hd. exists log.
      rewrite Parse_no_alias by assumption. destruct o; reflexivity. }
  destruct Hrun as [log' Hrun]. rewrite Hrun, afterMigration_run.
  replace (Column (set_DBType dbtype o)) with (Column o)
    by (destruct o; reflexivity).
  replace (DBType (set_DBType dbtype o)) with dbtype
    by (destruct o; reflexivity).
  clearbody dbtype.
  repeat split.
  - intros [Hc Hb]. apply nonempty_true in Hc, Hb. rewrite Hc, Hb.
    reflexivity.
  - intros [Hc Hb]. apply nonempty_false in Hc, Hb. rewrite Hc, Hb.
    reflexivity.
  - intros c d. revert H.
    rewrite <- nonempty_false, <- nonempty_true.
    destruct (nonempty (Column o)), (nonempty dbtype); cbn [andb negb];
      intros [H1 H2]; try (specialize (H1 eq_refl)); try (specialize (H2 eq_refl));
      try discriminate.
    all: destruct (afterCombination_result (set_DBType dbtype o) log')
      as [E|[E|[E|E]]]; rewrite E; try discriminate; distinct_formats.
  - revert H.
    rewrite <- nonempty_false, <- nonempty_true.
    destruct (nonempty (Column o)), (nonempty dbtype); cbn [andb negb];
      intros [H1 H2]; try (specialize (H1 eq_refl)); try (specialize (H2 eq_refl));
      try discriminate.
    all: destruct (afterCombination_result (set_DBType dbtype o) log')
      as [E|[E|[E|E]]]; rewrite E; try discriminate; distinct_formats.
  - revert H.
    rewrite <- nonempty_false, <- nonempty_true.
    destruct (nonempty (Column o)), (nonempty dbtype); cbn [andb negb];
      intros [H1 H2]; try (specialize (H1 eq_refl)); try (specialize (H2 eq_refl));
      try discriminate.
    all: destruct (afterCombination_result (set_DBType dbtype o) log')
      as [E|[E|[E|E]]]; rewrite E; try discriminate; distinct_formats.
Qed.

Lemma Parse_column_xor_db_type_witness :
  (Parse (mkWorld (mk "string" "uuid" EmptyString EmptyString false
                      "accounts.id" EmptyString
                      (pg.mkFQN EmptyString EmptyString EmptyString)
                      EmptyString EmptyString false) [])).2
  = Err (errColumnAndDBType "accounts.id" "uuid")
  /\ (Parse (mkWorld zeroOverride [])).2 = Err errNoColumnOrDBType
  /\ (Parse (mkWorld (typeOverride "uuid" "string") [])).2
     <> Err errNoColumnOrDBType.
Proof.
  split; [|split].
  - apply (Parse_column_xor_db_type
             (mk "string" "uuid" EmptyString EmptyString false
                 "accounts.id" EmptyString
                 (pg.mkFQN EmptyString EmptyString EmptyString)
                 EmptyString EmptyString false) []).
    + intros [H _]. exact (H eq_refl).
    + split; discriminate.
  - apply (Parse_column_xor_db_type zeroOverride []).
    + intros [H _]. exact (H eq_refl).
    + split; reflexivity.
  - apply (Parse_column_xor_db_type (typeOverride "uuid" "string") []).
    + intros [H _]. exact (H eq_refl).
    + split; [discriminate | reflexivity].
Defined.

(** C6: for an override whose deprecated alias [postgres_type] is not
    empty: if [db_type] is set too, normalization fails with the conflict
    error of line 104 (after the warning was written); otherwise the value
    of the alias is copied to [db_type], exactly one warning is appended to
    the standard error stream, and normalization goes on to return what it
    returns for the same override written with [db_type] in the first
    place (the same result, and the same fields but for the alias
    itself): the warning prevents nothing.  The warning is a single
    line. *)
Theorem Parse_deprecated_postgres_type (o : Override.t) (log : list string) :
  Deprecated_PostgresType o <> EmptyString ->
  (DBType o <> EmptyString ->
   Parse (mkWorld o log)
   = (mkWorld o (log ++ [warnDeprecatedPostgresType]),
      Err errDBTypeWithPostgresType))
  /\ (DBType o = EmptyString ->
      Parse (mkWorld o log)
      = (mkWorld
           (withAlias (Deprecated_PostgresType o)
              (obj (Parse (mkWorld (writtenAsDBType o) log)).1))
           (log ++ [warnDeprecatedPostgresType]),
         (Parse (mkWorld (writtenAsDBType o) log)).2)
      /\ DBType (obj (Parse (mkWorld o log)).1) = Deprecated_PostgresType o
      /\ stderr (Parse (mkWorld o log)).1
         = log ++ [warnDeprecatedPostgresType])
  /\ lines warnDeprecatedPostgresType = 1%nat
  /\ GoStrings.HasSuffix warnDeprecatedPostgresType lf = true.
Proof.
  intros Hd. split; [|split; [|split; reflexivity]].
  - intros Hb. rewrite Parse_after, validateDeprecated_run.
    apply nonempty_true in Hd, Hb. rewrite Hd, Hb. reflexivity.
  - intros Hb.
    assert (E : Parse (mkWorld o log)
                = (mkWorld
                     (withAlias (Deprecated_PostgresType o)
                        (obj (Parse (mkWorld (writtenAsDBType o) log)).1))
                     (log ++ [warnDeprecatedPostgresType]),
                   (Parse (mkWorld (writtenAsDBType o) log)).2)).
    { rewrite (Parse_alias o log Hd Hb).
      rewrite (Parse_no_alias (writtenAsDBType o) log)
        by (destruct o; reflexivity).
      replace (set_DBType (Deprecated_PostgresType o) o)
        with (withAlias (Deprecated_PostgresType o) (writtenAsDBType o))
        by (destruct o; reflexivity).
      rewrite (afterMigration_framed (writtenAsDBType o) log).
      destruct (afterMigration (mkWorld (writtenAsDBType o) log));
        reflexivity. }
    rewrite E. cbn [fst snd obj stderr]. repeat split.
    rewrite (Parse_no_alias (writtenAsDBType o) log)
      by (destruct o; reflexivity).
    transitivity
      (DBType (obj (afterMigration (mkWorld (writtenAsDBType o) log)).1)).
    + destruct (obj (afterMigration (mkWorld (writtenAsDBType o) log)).1);
        reflexivity.
    + rewrite afterMigration_keeps_DBType. destruct o; reflexivity.
Qed.

Lemma Parse_deprecated_postgres_type_witness :
  Parse (mkWorld (aliasOverride "uuid" "string") [])
  = (mkWorld (set_GoBasicType true
                (set_GoTypeName "string"
                   (set_DBType "uuid" (aliasOverride "uuid" "string"))))
             [warnDeprecatedPostgresType],
     Ok tt).
Proof.
  destruct (Parse_deprecated_postgres_type (aliasOverride "uuid" "string") [])
    as (_ & H & _); [discriminate|].
  destruct (H eq_refl) as (E & _). rewrite E. vm_compute. reflexivity.
Defined.

(** C8: [Override.Parse] never panics, whatever the override: the index
    expression [o.GoType[0]] of line 180 and the slices are always in
    range.  Line 180 is reached only when lines 136-178 have returned
    normally, and then [go_type] is not empty (the index is in range); a
    normalization that succeeds has a [go_type] that is not empty.  For
    the empty [go_type] and for the lone pointer sigil, normalization
    returns an error, which is the not-a-basic-type error of line 155
    whenever the earlier steps have passed. *)
Theorem Parse_never_panics (o : Override.t) (log : list string) :
  (Parse (mkWorld o log)).2 <> Panic
  /\ (forall (w : World Override.t) (typename : string),
        typeNameStep (GoType o) (mkWorld o log) = (w, Ok typename) ->
        GoType o <> EmptyString /\ isPointer (GoType o) <> None)
  /\ ((Parse (mkWorld o log)).2 = Ok tt -> GoType o <> EmptyString)
  /\ (GoType o = EmptyString \/ GoType o = "*" ->
      (exists e : error, (Parse (mkWorld o log)).2 = Err e)
      /\ ((beforeGoType (mkWorld o log)).2 = Ok tt ->
          (Parse (mkWorld o log)).2 = Err (errNotBasicType (GoType o)))).
Proof.
  assert (Hbasic : GoType o = EmptyString \/ GoType o = "*" ->
                   forall o1 log1, GoType o1 = GoType o ->
                   (validateGoType (mkWorld o1 log1)).2
                   = Err (errNotBasicType (GoType o))).
  { intros Hgt o1 log1 E.
    rewrite validateGoType_basic; rewrite E;
      destruct Hgt as [-> | ->]; reflexivity. }
  assert (Hnp : (Parse (mkWorld o log)).2 <> Panic).
  { rewrite Parse_before.
    destruct (beforeGoType_keeps o log) as (_ & _ & _ & _ & Hb).
    destruct (beforeGoType (mkWorld o log)) as [[o1 log1] [[]| |]];
      cbn [snd] in *; try discriminate; [|contradiction].
    apply validateGoType_no_panic. }
  split; [exact Hnp|]. split; [|split].
  - intros w typename. rewrite typeNameStep_run.
    pose proof (LastIndex_range (GoType o) ".") as Rd.
    destruct ((GoStrings.LastIndex (GoType o) "." =? -1)
              && (GoStrings.LastIndex (GoType o) "/" =? -1)).
    + destruct (found_basic (GoType o)) eqn:Hf; [|discriminate].
      apply found_basic_first in Hf as (a & s' & -> & _). intros _.
      rewrite isPointer_cons. split; discriminate.
    + destruct (Z.eqb_spec (GoStrings.LastIndex (GoType o) ".") (-1));
        [discriminate|].
      intros _. destruct (GoType o) as [|a s'].
      * change (GoString.len EmptyString) with 0 in Rd. lia.
      * rewrite isPointer_cons. split; discriminate.
  - intros Hok Hgt. revert Hok. rewrite Parse_before.
    destruct (beforeGoType_keeps o log) as (Hg & _).
    destruct (beforeGoType (mkWorld o log)) as [[o1 log1] [[]| |]];
      cbn [snd fst obj] in *; try discriminate.
    rewrite (Hbasic (or_introl Hgt) o1 log1 Hg). discriminate.
  - intros Hgt.
    destruct (beforeGoType_keeps o log) as (Hg & _).
    rewrite Parse_before.
    destruct (beforeGoType (mkWorld o log)) as [[o1 log1] [[]| |]] eqn:Eb;
      cbn [snd fst obj] in *.
    + rewrite (Hbasic Hgt o1 log1 Hg). eauto.
    + split; [eauto | discriminate].
    + exfalso. apply Hnp. rewrite Parse_before, Eb. reflexivity.
Qed.

(** *** The type reference *)

Lemma Parse_basic_run (o : Override.t) (log : list string) :
  (beforeGoType (mkWorld o log)).2 = Ok tt ->
  GoStrings.LastIndex (GoType o) "." = -1 ->
  GoStrings.LastIndex (GoType o) "/" = -1 ->
  found_basic (GoType o) = true ->
  (Parse (mkWorld o log)).2 = Ok tt
  /\ isPointer (GoType o) = Some false
  /\ GoBasicType (obj (Parse (mkWorld o log)).1) = true
  /\ GoPackage (obj (Parse (mkWorld o log)).1) = GoPackage o
  /\ GoTypeName (obj (Parse (mkWorld o log)).1) = GoType o.
Proof.
  intros Hb Hd Hs Hf. rewrite Parse_before.
  destruct (beforeGoType_keeps o log) as (Hg & Hp & _).
  destruct (beforeGoType (mkWorld o log)) as [[o1 log1] [[]| |]];
    cbn [snd fst obj] in *; try discriminate.
  rewrite validateGoType_basic by (rewrite Hg; assumption).
  rewrite Hg, Hf, pointerStep_run.
  destruct (found_basic_first _ Hf) as (a & s' & E & Ha).
  rewrite E, isPointer_cons, Ha. rewrite <- Hp.
  destruct o1; repeat split.
Qed.

Lemma Parse_qualified_run (o : Override.t) (log : list string) :
  (beforeGoType (mkWorld o log)).2 = Ok tt ->
  GoStrings.LastIndex (GoType o) "." <> -1 ->
  GoStrings.LastIndex (GoType o) "/" <> -1 ->
  (Parse (mkWorld o log)).2 = Ok tt
  /\ GoBasicType (obj (Parse (mkWorld o log)).1) = GoBasicType o
  /\ GoPackage (obj (Parse (mkWorld o log)).1)
     = unstar (GoString.take (Z.to_nat (GoStrings.LastIndex (GoType o) "."))
                 (GoType o))
  /\ GoTypeName (obj (Parse (mkWorld o log)).1)
     = sigil (GoType o)
       +:+ trimAffixes
             (GoString.drop (Z.to_nat (GoStrings.LastIndex (GoType o) "/" + 1))
                (GoType o)).
Proof.
  intros Hb Hd Hs. rewrite Parse_before.
  destruct (beforeGoType_keeps o log) as (Hg & _ & Hbt & _).
  destruct (beforeGoType (mkWorld o log)) as [[o1 log1] [[]| |]];
    cbn [snd fst obj] in *; try discriminate.
  rewrite validateGoType_qualified by (rewrite Hg; assumption).
  rewrite Hg, pointerStep_run. rewrite <- Hbt.
  pose proof (LastIndex_range (GoType o) ".") as Rd.
  destruct (GoType o) as [|a s'] eqn:Hgt.
  { change (GoString.len EmptyString) with 0 in Rd. lia. }
  rewrite isPointer_cons. cbn [sigil].
  destruct (Z.to_nat (GoStrings.LastIndex (String a s') ".")) as [|n] eqn:En.
  - assert (a = "."%char) by (apply (LastIndex_zero a s'); lia). subst a.
    destruct o1; repeat split.
  - cbn [GoString.take unstar].
    destruct (Ascii.eqb a "*") eqn:Ea.
    + replace (GoPackage
                 (set_GoTypeName
                    (trimAffixes
                       (GoString.drop
                          (Z.to_nat (GoStrings.LastIndex (String a s') "/" + 1))
                          (String a s')))
                    (set_GoPackage (String a (GoString.take n s')) o1)))
        with (String a (GoString.take n s')) by (destruct o1; reflexivity).
      rewrite slice_from_ok
        by (rewrite len_cons; pose proof (len_nonneg (GoString.take n s')); lia).
      destruct o1; repeat split.
    + destruct o1; repeat split.
Qed.

(** C1 (amended): for an override that passes the steps before the type
    reference and whose fields [GoPackage] and [GoBasicType] are unset
    (as the decoder leaves them), [go_type] ["string"] is accepted as a
    built-in scalar, with an empty package path and the type name
    ["string"]; ["github.com/segmentio/ksuid.KSUID"] gives the package
    path ["github.com/segmentio/ksuid"] and the type name
    ["ksuid.KSUID"] (everything after the last slash: the name keeps its
    package qualifier), not built-in and not a pointer; the same string
    with a leading star is a pointer, with the type name ["*ksuid.KSUID"]
    and the same package path (the star is stripped from the package path
    and put once before the name). *)
Theorem Parse_go_type_examples (o : Override.t) (log : list string) :
  (beforeGoType (mkWorld o log)).2 = Ok tt ->
  GoPackage o = EmptyString ->
  GoBasicType o = false ->
  (GoType o = "string" ->
   (Parse (mkWorld o log)).2 = Ok tt
   /\ isPointer (GoType o) = Some false
   /\ GoBasicType (obj (Parse (mkWorld o log)).1) = true
   /\ GoPackage (obj (Parse (mkWorld o log)).1) = EmptyString
   /\ GoTypeName (obj (Parse (mkWorld o log)).1) = "string")
  /\ (GoType o = "github.com/segmentio/ksuid.KSUID" ->
      (Parse (mkWorld o log)).2 = Ok tt
      /\ isPointer (GoType o) = Some false
      /\ GoBasicType (obj (Parse (mkWorld o log)).1) = false
      /\ GoPackage (obj (Parse (mkWorld o log)).1)
         = "github.com/segmentio/ksuid"
      /\ GoTypeName (obj (Parse (mkWorld o log)).1) = "ksuid.KSUID")
  /\ (GoType o = "*github.com/segmentio/ksuid.KSUID" ->
      (Parse (mkWorld o log)).2 = Ok tt
      /\ isPointer (GoType o) = Some true
      /\ GoBasicType (obj (Parse (mkWorld o log)).1) = false
      /\ GoPackage (obj (Parse (mkWorld o log)).1)
         = "github.com/segmentio/ksuid"
      /\ GoTypeName (obj (Parse (mkWorld o log)).1) = "*ksuid.KSUID").
Proof.
  intros Hb Hp Hbt. split; [|split]; intros Hgt.
  - destruct (Parse_basic_run o log Hb) as (H1 & H2 & H3 & H4 & H5);
      try (rewrite Hgt; vm_compute; reflexivity).
    rewrite H1, H2, H3, H4, H5, Hp, Hgt. repeat split.
  - destruct (Parse_qualified_run o log Hb) as (H1 & H2 & H3 & H4);
      try (rewrite Hgt; vm_compute; discriminate).
    rewrite H1, H2, H3, H4, Hbt, Hgt. vm_compute. repeat split.
  - destruct (Parse_qualified_run o log Hb) as (H1 & H2 & H3 & H4);
      try (rewrite Hgt; vm_compute; discriminate).
    rewrite H1, H2, H3, H4, Hbt, Hgt. vm_compute. repeat split.
Qed.

Lemma Parse_go_type_examples_witness :
  (Parse (mkWorld (typeOverride "uuid" "string") [])).2 = Ok tt
  /\ GoTypeName
       (obj (Parse (mkWorld
                      (typeOverride "uuid" "github.com/segmentio/ksuid.KSUID")
                      [])).1)
     = "ksuid.KSUID"
  /\ GoTypeName
       (obj (Parse (mkWorld
                      (typeOverride "uuid" "*github.com/segmentio/ksuid.KSUID")
                      [])).1)
     = "*ksuid.KSUID".
Proof.
  destruct (Parse_go_type_examples (typeOverride "uuid" "string") [])
    as ((H1 & _) & _); try (vm_compute; reflexivity).
  destruct (Parse_go_type_examples
              (typeOverride "uuid" "github.com/segmentio/ksuid.KSUID") [])
    as (_ & H2 & _); try (vm_compute; reflexivity).
  destruct (Parse_go_type_examples
              (typeOverride "uuid" "*github.com/segmentio/ksuid.KSUID") [])
    as (_ & _ & H3); try (vm_compute; reflexivity).
  destruct (H2 eq_refl) as (_ & _ & _ & _ & H2').
  destruct (H3 eq_refl) as (_ & _ & _ & _ & H3').
  exact (conj H1 (conj H2' H3')).
Defined.

(** C1 as stated fails: for ["github.com/segmentio/ksuid.KSUID"] the
    normalizer succeeds and the type name is not ["KSUID"]; it is
    ["ksuid.KSUID"].  With the leading star it is not ["*KSUID"]. *)
Lemma Parse_go_type_name_is_not_bare :
  (Parse (mkWorld (typeOverride "uuid" "github.com/segmentio/ksuid.KSUID")
                  [])).2 = Ok tt
  /\ GoTypeName
       (obj (Parse (mkWorld
                      (typeOverride "uuid" "github.com/segmentio/ksuid.KSUID")
                      [])).1)
     <> "KSUID"
  /\ GoTypeName
       (obj (Parse (mkWorld
                      (typeOverride "uuid" "*github.com/segmentio/ksuid.KSUID")
                      [])).1)
     <> "*KSUID".
Proof. vm_compute. repeat split; discriminate. Qed.

(** C10 (amended): a [go_type] whose last dot comes before its last slash
    ([pre.mid/post], with no dot in [mid] or [post] and no slash in
    [post]) is accepted without error by every override that passes the
    earlier steps.  The package path is everything before the last dot,
    without the leading star if there is one; the type name is everything
    after the last slash, without a leading [go-] and a trailing [-go],
    and with a star before it when the string starts with a star. *)
Theorem Parse_dot_before_slash
    (o : Override.t) (log : list string) (pre mid post : string) :
  (beforeGoType (mkWorld o log)).2 = Ok tt ->
  GoType o = pre +:+ "." +:+ mid +:+ "/" +:+ post ->
  GoString.mem "." mid = false ->
  GoString.mem "." post = false ->
  GoString.mem "/" post = false ->
  (Parse (mkWorld o log)).2 = Ok tt
  /\ GoPackage (obj (Parse (mkWorld o log)).1) = unstar pre
  /\ GoTypeName (obj (Parse (mkWorld o log)).1)
     = sigil (GoType o) +:+ trimAffixes post.
Proof.
  intros Hb Hgt Hmid Hpost Hslash.
  change (pre +:+ "." +:+ mid +:+ "/" +:+ post)
    with (pre +:+ String "." (mid +:+ String "/" post)) in Hgt.
  assert (Hd : GoStrings.LastIndex (GoType o) "." = GoString.len pre).
  { rewrite Hgt. apply LastIndex_app.
    rewrite mem_app. cbn [GoString.mem]. rewrite Hmid, Hpost. reflexivity. }
  assert (Hgt' : GoType o = (pre +:+ String "." mid) +:+ String "/" post).
  { rewrite Hgt, string_app_assoc. reflexivity. }
  assert (Hs : GoStrings.LastIndex (GoType o) "/"
               = GoString.len (pre +:+ String "." mid)).
  { rewrite Hgt'. apply LastIndex_app. exact Hslash. }
  pose proof (len_nonneg pre). pose proof (len_nonneg (pre +:+ String "." mid)).
  destruct (Parse_qualified_run o log Hb) as (H1 & _ & H3 & H4); [lia | lia |].
  rewrite H1, H3, H4. repeat split.
  - rewrite Hd. unfold GoString.len. rewrite Nat2Z.id.
    rewrite Hgt, take_app. reflexivity.
  - rewrite Hs. unfold GoString.len.
    replace (Z.to_nat (Z.of_nat (String.length (pre +:+ String "." mid)) + 1))
      with (S (String.length (pre +:+ String "." mid))) by lia.
    rewrite Hgt' at 2. rewrite drop_app_cons. reflexivity.
Qed.

Lemma Parse_dot_before_slash_witness :
  (Parse (mkWorld (typeOverride "uuid" "a.b/c") [])).2 = Ok tt
  /\ GoPackage (obj (Parse (mkWorld (typeOverride "uuid" "a.b/c") [])).1) = "a"
  /\ GoTypeName (obj (Parse (mkWorld (typeOverride "uuid" "a.b/c") [])).1)
     = sigil "a.b/c" +:+ trimAffixes "c".
Proof.
  exact (Parse_dot_before_slash (typeOverride "uuid" "a.b/c") [] "a" "b" "c"
           eq_refl eq_refl eq_refl eq_refl eq_refl).
Defined.

(** C10 as stated fails: in ["a.b/go-c"] the last dot comes before the last
    slash and everything after the last slash is ["go-c"], but the type
    name is ["c"]; in ["*a.b/c"] everything before the last dot is ["*a"]
    and everything after the last slash is ["c"], but the package path is
    ["a"] and the type name is ["*c"]. *)
Lemma Parse_dot_before_slash_is_normalized :
  (Parse (mkWorld (typeOverride "uuid" "a.b/go-c") [])).2 = Ok tt
  /\ "a.b/go-c" = "a" +:+ "." +:+ "b" +:+ "/" +:+ "go-c"
  /\ GoString.mem "/" "go-c" = false
  /\ GoTypeName (obj (Parse (mkWorld (typeOverride "uuid" "a.b/go-c") [])).1)
     <> "go-c"
  /\ (Parse (mkWorld (typeOverride "uuid" "*a.b/c") [])).2 = Ok tt
  /\ "*a.b/c" = "*a" +:+ "." +:+ "b" +:+ "/" +:+ "c"
  /\ GoPackage (obj (Parse (mkWorld (typeOverride "uuid" "*a.b/c") [])).1)
     <> "*a"
  /\ GoTypeName (obj (Parse (mkWorld (typeOverride "uuid" "*a.b/c") [])).1)
     <> "c".
Proof. vm_compute. repeat split; discriminate. Qed.

(** *** The column specifier *)

Lemma Split_no_separator (seg : string) (sep : ascii) :
  GoString.mem sep seg = false -> GoStrings.Split seg sep = [seg].
Proof.
  induction seg as [|a seg IH]; [reflexivity|].
  cbn [GoString.mem GoStrings.Split]. intros H.
  apply orb_false_iff in H as [Ha Hm]. rewrite Ha, (IH Hm). reflexivity.
Qed.

Lemma Split_segment (seg rest : string) (sep : ascii) :
  GoString.mem sep seg = false ->
  GoStrings.Split (seg +:+ String sep rest) sep
  = seg :: GoStrings.Split rest sep.
Proof.
  induction seg as [|a seg IH]; intros H.
  - change (EmptyString +:+ String sep rest) with (String sep rest).
    cbn [GoStrings.Split]. rewrite Ascii.eqb_refl. reflexivity.
  - change (String a seg +:+ String sep rest)
      with (String a (seg +:+ String sep rest)).
    cbn [GoString.mem] in H. apply orb_false_iff in H as [Ha Hm].
    cbn [GoStrings.Split]. rewrite Ha, (IH Hm). reflexivity.
Qed.

(** [Split] gives back the segments that [Join] put together. *)
Lemma Split_Join (segs : list string) (sep : ascii) :
  segs <> [] ->
  Forall (fun seg => GoString.mem sep seg = false) segs ->
  GoStrings.Split (GoStrings.Join segs sep) sep = segs.
Proof.
  induction segs as [|seg [|seg' segs] IH]; intros Hne Hall.
  - contradiction.
  - apply Split_no_separator. now inversion Hall.
  - change (GoStrings.Join (seg :: seg' :: segs) sep)
      with (seg +:+ String sep (GoStrings.Join (seg' :: segs) sep)).
    inversion Hall as [|? ? Hseg Hrest]; subst.
    rewrite Split_segment by assumption.
    rewrite IH by (auto; discriminate). reflexivity.
Qed.

(** The column specifier is classified by its number of segments: with two
    the schema is [public], with three the schema comes first, with four
    the catalog comes first; the table is the last segment but one and the
    column is the last one.  Any other number of segments is the format
    error of line 131.  (The override has a [column] and no [db_type], so
    that the column specifier is reached.) *)
Lemma Parse_column_by_segments (o : Override.t) (log : list string) :
  Column o <> EmptyString ->
  Deprecated_PostgresType o = EmptyString ->
  DBType o = EmptyString ->
  match GoStrings.Split (Column o) "." with
  | [table; column] =>
      Table (obj (Parse (mkWorld o log)).1)
      = pg.mkFQN EmptyString "public" table
      /\ ColumnName (obj (Parse (mkWorld o log)).1) = column
  | [schema; table; column] =>
      Table (obj (Parse (mkWorld o log)).1)
      = pg.mkFQN EmptyString schema table
      /\ ColumnName (obj (Parse (mkWorld o log)).1) = column
  | [catalog; schema; table; column] =>
      Table (obj (Parse (mkWorld o log)).1) = pg.mkFQN catalog schema table
      /\ ColumnName (obj (Parse (mkWorld o log)).1) = column
  | _ =>
      Parse (mkWorld o log) = (mkWorld o log, Err (errColumnFormat (Column o)))
  end.
Proof.
  intros Hc Hd Hb.
  rewrite (Parse_no_alias o log Hd), afterMigration_run.
  apply nonempty_true in Hc. apply nonempty_false in Hb.
  rewrite Hc, Hb. cbn [andb negb].
  rewrite afterCombination_run, validateColumn_run, Hc.
  destruct (GoStrings.Split (Column o) ".")
    as [|p0 [|p1 [|p2 [|p3 [|p4 ps]]]]]; try reflexivity.
  all: match goal with
       | |- context [validateGoType (mkWorld ?x ?l)] =>
           destruct (validateGoType_keeps x l) as (tn & pk & gb & H);
           rewrite H; destruct o; split; reflexivity
       end.
Qed.

(** C2 (the code at the failing input): a specifier of one segment, ["id"],
    is rejected with the error of line 131, whose format string gives the
    expected shape as [[catalog.][schema.]colname.tablename]: the column
    before the table.  The parser itself reads the table before the column:
    ["accounts.id"] is the table ["accounts"] of schema ["public"] and the
    column ["id"].  The message does not name the shape
    [[catalog.][schema.]table.column] that the parser accepts. *)
Theorem Parse_column_format_message :
  Parse (mkWorld (columnOverride "id" "string") [])
  = (mkWorld (columnOverride "id" "string") [],
     Err (Errorf fmtColumnFormat ["id"]))
  /\ (Parse (mkWorld (columnOverride "a.b.c.d.e" "string") [])).2
     = Err (Errorf fmtColumnFormat ["a.b.c.d.e"])
  /\ contains "[catalog.][schema.]colname.tablename" fmtColumnFormat = true
  /\ contains "table.column" fmtColumnFormat = false
  /\ contains "tablename.colname" fmtColumnFormat = false
  /\ Table (obj (Parse (mkWorld (columnOverride "accounts.id" "string") [])).1)
     = pg.mkFQN EmptyString "public" "accounts"
  /\ ColumnName
       (obj (Parse (mkWorld (columnOverride "accounts.id" "string") [])).1)
     = "id".
Proof. vm_compute. repeat split. Qed.

End Normalizer.

(** ** The settings validator *)

Section Validator.
Import GenerateSettings.

Lemma size_gt_1 (X : gset Engine) :
  (1 < size X)%nat <-> exists x y : Engine, x ∈ X /\ y ∈ X /\ x <> y.
Proof.
  split.
  - intros H.
    destruct (size_pos_elem_of X) as [x Hx]; [lia|].
    assert (Hrest : (0 < size (X ∖ {[x]}))%nat).
    { rewrite size_difference by set_solver. rewrite size_singleton. lia. }
    destruct (size_pos_elem_of _ Hrest) as [y Hy].
    exists x, y. set_solver.
  - intros (x & y & Hx & Hy & Hne).
    destruct (size X) as [|[|n]] eqn:E; [| |lia].
    + apply size_empty_inv in E. set_solver.
    + exfalso. apply Hne. exact (size_singleton_inv X x y E Hx Hy).
Qed.

Lemma engines_fold (ps : list PackageSettings.t) (acc : gset Engine) :
  fold_left
    (fun engines pkg =>
       if decide (PackageSettings.Engine pkg ∈ engines) then engines
       else {[ PackageSettings.Engine pkg ]} ∪ engines)
    ps acc
  = acc ∪ list_to_set (PackageSettings.Engine <$> ps).
Proof.
  revert acc. induction ps as [|p ps IH]; intros acc; cbn [fold_left].
  - set_solver.
  - rewrite IH. destruct (decide (PackageSettings.Engine p ∈ acc)); set_solver.
Qed.

(** The map [engines] holds the engine tags of the packages as they are
    written, the empty tag among them. *)
Lemma engines_spec (c : GenerateSettings.t) :
  engines c = list_to_set (PackageSettings.Engine <$> Packages c).
Proof. unfold engines. rewrite engines_fold. set_solver. Qed.

Lemma usesMultipleEngines_spec (c : GenerateSettings.t) :
  usesMultipleEngines c = true <->
  exists p q : PackageSettings.t,
    p ∈ Packages c /\ q ∈ Packages c
    /\ PackageSettings.Engine p <> PackageSettings.Engine q.
Proof.
  unfold usesMultipleEngines. rewrite Nat.ltb_lt, size_gt_1, engines_spec.
  split.
  - intros (x & y & Hx & Hy & Hne).
    apply elem_of_list_to_set, list_elem_of_fmap in Hx as (p & -> & Hp).
    apply elem_of_list_to_set, list_elem_of_fmap in Hy as (q & -> & Hq).
    eauto.
  - intros (p & q & Hp & Hq & Hne).
    exists (PackageSettings.Engine p), (PackageSettings.Engine q).
    repeat split; [| |exact Hne];
      apply elem_of_list_to_set, list_elem_of_fmap; eauto.
Qed.

Lemma checkEngines_missing (orides : list Override.t) :
  (exists o : Override.t, o ∈ orides /\ Override.Engine o = EmptyString) ->
  checkEngines true orides = Err errEngineRequired.
Proof.
  induction orides as [|o' orides IH]; intros (o & Ho & He).
  - inversion Ho.
  - cbn [checkEngines andb].
    destruct (String.eqb_spec (Override.Engine o') EmptyString) as [|Hne];
      [reflexivity|].
    apply IH. exists o. split; [|exact He].
    apply elem_of_cons in Ho as [->|Ho]; [contradiction | exact Ho].
Qed.

Lemma checkEngines_explicit (uses : bool) (orides : list Override.t) :
  uses = false
  \/ (forall o : Override.t, o ∈ orides -> Override.Engine o <> EmptyString) ->
  checkEngines uses orides = Ok tt.
Proof.
  induction orides as [|o' orides IH]; intros H; [reflexivity|].
  cbn [checkEngines].
  replace (uses && String.eqb (Override.Engine o') EmptyString) with false.
  - apply IH. destruct H as [H|H]; [auto|].
    right. intros o Ho. apply H. now apply list_elem_of_further.
  - symmetry. destruct H as [->|H]; [reflexivity|].
    apply andb_false_iff. right. apply String.eqb_neq, H, list_elem_of_here.
Qed.

Lemma validateConfig_engines (c : GenerateSettings.t) (log : list string) :
  Version c = "1" ->
  Packages c <> [] ->
  forall e : error,
    ValidateGlobalOverrides c = Err e ->
    validateConfig (mkWorld c log) = (mkWorld c log, Err e).
Proof.
  intros Hv Hp e He. unfold validateConfig. run_monad. cbn [obj stderr].
  rewrite Hv. cbn [String.eqb Ascii.eqb Bool.eqb negb].
  destruct (Packages c) as [|p ps] eqn:Ep; [contradiction|].
  cbn [length Z.of_nat Z.eqb]. rewrite He. reflexivity.
Qed.

(** C3: the set [engines] holds the engine tags of the packages as the
    document gives them (an unset tag is the empty string, and nothing has
    been defaulted yet when [ParseConfig] calls the check); it has more
    than one member exactly when two packages differ in their tags.  When
    it has, the check fails with the engine-required error of line 92 as
    soon as one global override has an empty engine tag, and so does
    [ParseConfig] for a document of version ["1"]; when every global
    override has an engine tag the check returns no error. *)
Theorem ValidateGlobalOverrides_multiple_engines (c : GenerateSettings.t) :
  engines c = list_to_set (PackageSettings.Engine <$> Packages c)
  /\ (usesMultipleEngines c = true <-> (1 < size (engines c))%nat)
  /\ ((1 < size (engines c))%nat <->
      exists p q : PackageSettings.t,
        p ∈ Packages c /\ q ∈ Packages c
        /\ PackageSettings.Engine p <> PackageSettings.Engine q)
  /\ ((1 < size (engines c))%nat ->
      (exists o : Override.t,
          o ∈ Overrides c /\ Override.Engine o = EmptyString) ->
      ValidateGlobalOverrides c = Err errEngineRequired
      /\ forall (Reader : Type)
           (Decode : Reader -> GenerateSettings.t * option error)
           (rd : Reader) (log : list string),
          Decode rd = (c, None) ->
          Version c = "1" ->
          ParseConfig Decode rd log = (mkWorld c log, Err errEngineRequired))
  /\ ((forall o : Override.t,
          o ∈ Overrides c -> Override.Engine o <> EmptyString) ->
      ValidateGlobalOverrides c = Ok tt).
Proof.
  assert (Hu : usesMultipleEngines c = true <-> (1 < size (engines c))%nat)
    by (unfold usesMultipleEngines; apply Nat.ltb_lt).
  split; [apply engines_spec|]. split; [exact Hu|]. split; [|split].
  - rewrite <- Hu. apply usesMultipleEngines_spec.
  - intros Hsize Hex.
    assert (He : ValidateGlobalOverrides c = Err errEngineRequired).
    { unfold ValidateGlobalOverrides. apply Hu in Hsize. rewrite Hsize.
      apply checkEngines_missing, Hex. }
    split; [exact He|].
    intros Reader Decode rd log Hdec Hv. unfold ParseConfig. rewrite Hdec.
    apply validateConfig_engines; [exact Hv | | exact He].
    intros Hnil. unfold engines in Hsize. rewrite Hnil in Hsize.
    cbn [fold_left] in Hsize. rewrite size_empty in Hsize. lia.
  - intros Hall. unfold ValidateGlobalOverrides.
    apply checkEngines_explicit. right. exact Hall.
Qed.

(** Two packages with different engines and a global override without an
    engine tag; the same with an engine tag; and a package without an
    engine tag beside one with the default engine: the tags differ before
    any defaulting. *)
Lemma ValidateGlobalOverrides_multiple_engines_witness :
  ParseConfig decoded
    (mk "1" [package "a" "mysql" "a" []; package "b" "postgresql" "b" []]
        [typeOverride "uuid" "string"] ∅) []
  = (mkWorld
       (mk "1" [package "a" "mysql" "a" []; package "b" "postgresql" "b" []]
           [typeOverride "uuid" "string"] ∅) [],
     Err errEngineRequired)
  /\ ValidateGlobalOverrides
       (mk "1" [package "a" "mysql" "a" []; package "b" "postgresql" "b" []]
           [withEngine "postgresql" (typeOverride "uuid" "string")] ∅)
     = Ok tt
  /\ (ParseConfig decoded
        (mk "1" [package "a" EmptyString "a" [];
                 package "b" "postgresql" "b" []]
            [typeOverride "uuid" "string"] ∅) []).2
     = Err errEngineRequired.
Proof.
  split; [|split].
  - destruct (ValidateGlobalOverrides_multiple_engines
                (mk "1" [package "a" "mysql" "a" [];
                         package "b" "postgresql" "b" []]
                    [typeOverride "uuid" "string"] ∅))
      as (_ & _ & _ & H & _).
    destruct H as [_ H].
    + vm_compute. lia.
    + exists (typeOverride "uuid" "string").
      split; [apply list_elem_of_here | reflexivity].
    + apply (H _ decoded); reflexivity.
  - destruct (ValidateGlobalOverrides_multiple_engines
                (mk "1" [package "a" "mysql" "a" [];
                         package "b" "postgresql" "b" []]
                    [withEngine "postgresql" (typeOverride "uuid" "string")]
                    ∅))
      as (_ & _ & _ & _ & H).
    apply H. intros o Ho.
    apply list_elem_of_singleton in Ho as ->. discriminate.
  - destruct (ValidateGlobalOverrides_multiple_engines
                (mk "1" [package "a" EmptyString "a" [];
                         package "b" "postgresql" "b" []]
                    [typeOverride "uuid" "string"] ∅))
      as (_ & _ & _ & H & _).
    destruct H as [_ H].
    + vm_compute. lia.
    + exists (typeOverride "uuid" "string").
      split; [apply list_elem_of_here | reflexivity].
    + rewrite (H _ decoded _ [] eq_refl eq_refl). reflexivity.
Defined.

(** *** Loops *)

Lemma forEach_first_error {S : Type} (body : M S unit) (pre : list S) (x : S)
    (post : list S) (log : list string) (wpre : World (list S))
    (wx : World S) (e : error) :
  forEach body pre log = (wpre, Ok tt) ->
  body (mkWorld x (stderr wpre)) = (wx, Err e) ->
  forEach body (pre ++ x :: post) log
  = (mkWorld (obj wpre ++ obj wx :: post) (stderr wx), Err e).
Proof.
  revert log wpre. induction pre as [|a pre IH]; intros log wpre.
  - cbn [forEach app]. intros H; inversion H; subst; clear H.
    cbn [stderr obj app]. intros Hx. rewrite Hx. reflexivity.
  - cbn [forEach app].
    destruct (body (mkWorld a log)) as [w [[]| |]] eqn:E; try discriminate.
    destruct (forEach body pre (stderr w)) as [w' r] eqn:E'.
    intros H; inversion H; subst; clear H. cbn [stderr obj].
    intros Hx. rewrite (IH _ _ E' Hx). reflexivity.
Qed.

Lemma forEach_ok {S : Type} (body : M S unit) (l : list S)
    (log : list string) (w : World (list S)) :
  forEach body l log = (w, Ok tt) ->
  Forall2
    (fun x x' : S =>
       exists log1 log2 : list string,
         body (mkWorld x log1) = (mkWorld x' log2, Ok tt))
    l (obj w).
Proof.
  revert log w. induction l as [|a l IH]; intros log w.
  - cbn [forEach]. intros H; inversion H; subst. constructor.
  - cbn [forEach].
    destruct (body (mkWorld a log)) as [[a' log'] [[]| |]] eqn:E;
      try discriminate.
    destruct (forEach body l (stderr (mkWorld a' log'))) as [w' r] eqn:E'.
    intros H; inversion H; subst; clear H. cbn [obj].
    constructor; [eauto | exact (IH _ _ E')].
Qed.

(** *** The steps of [ParseConfig] *)

Lemma parsePackage_run (p : PackageSettings.t) (log : list string) :
  parsePackage (mkWorld p log) =
  if String.eqb (PackageSettings.Path p) EmptyString
  then (mkWorld p log, Err ErrNoPackagePath)
  else
    match forEach Override.Parse (PackageSettings.Overrides p) log with
    | (w, Ok _) =>
        (mkWorld
           (defaultEngine
              (defaultName (PackageSettings.set_Overrides (obj w) p)))
           (stderr w), Ok tt)
    | (w, Err e) =>
        (mkWorld (PackageSettings.set_Overrides (obj w) p) (stderr w), Err e)
    | (w, Panic) =>
        (mkWorld (PackageSettings.set_Overrides (obj w) p) (stderr w), Panic)
    end.
Proof.
  unfold parsePackage, range, defaultEngine, defaultName. run_monad.
  cbn [obj stderr].
  destruct (String.eqb (PackageSettings.Path p) EmptyString); [reflexivity|].
  cbn [obj stderr].
  destruct (forEach Override.Parse (PackageSettings.Overrides p) log)
    as [w [[]| |]]; try reflexivity.
  cbn [obj stderr].
  destruct (String.eqb
              (PackageSettings.Name (PackageSettings.set_Overrides (obj w) p))
              EmptyString); cbn [obj stderr];
    match goal with
    | |- context [String.eqb (PackageSettings.Engine ?x) EmptyString] =>
        destruct (String.eqb (PackageSettings.Engine x) EmptyString)
    end; reflexivity.
Qed.

Lemma parsePackage_defaulted (p p' : PackageSettings.t)
    (log log' : list string) :
  parsePackage (mkWorld p log) = (mkWorld p' log', Ok tt) -> defaulted p p'.
Proof.
  rewrite parsePackage_run.
  destruct (String.eqb_spec (PackageSettings.Path p) EmptyString) as [|Hp];
    [discriminate|].
  destruct (forEach Override.Parse (PackageSettings.Overrides p) log)
    as [w [[]| |]]; try discriminate.
  intros H; inversion H; subst; clear H.
  unfold defaulted, defaultEngine, defaultName.
  destruct p as [name engine path schema queries ei ej ep ovs].
  cbn [PackageSettings.Name PackageSettings.Engine PackageSettings.Path
       PackageSettings.set_Overrides PackageSettings.set_Name
       PackageSettings.set_Engine] in *.
  destruct (String.eqb name EmptyString);
    cbn [PackageSettings.Name PackageSettings.Engine PackageSettings.Path
         PackageSettings.set_Overrides PackageSettings.set_Name
         PackageSettings.set_Engine];
    destruct (String.eqb engine EmptyString);
    cbn [PackageSettings.Name PackageSettings.Engine PackageSettings.Path
         PackageSettings.set_Overrides PackageSettings.set_Name
         PackageSettings.set_Engine];
    repeat split; assumption.
Qed.

Lemma validateConfig_run (c : GenerateSettings.t) (log : list string) :
  validateConfig (mkWorld c log) =
  if String.eqb (Version c) EmptyString
  then (mkWorld c log, Err ErrMissingVersion)
  else if negb (String.eqb (Version c) "1")
  then (mkWorld c log, Err ErrUnknownVersion)
  else if Z.of_nat (length (Packages c)) =? 0
  then (mkWorld c log, Err ErrNoPackages)
  else
    match ValidateGlobalOverrides c with
    | Ok _ =>
        match forEach Override.Parse (Overrides c) log with
        | (w1, Ok _) =>
            let '(w2, r) := forEach parsePackage (Packages c) (stderr w1) in
            (mkWorld (set_Packages (obj w2) (set_Overrides (obj w1) c))
                     (stderr w2), r)
        | (w1, Err e) =>
            (mkWorld (set_Overrides (obj w1) c) (stderr w1), Err e)
        | (w1, Panic) =>
            (mkWorld (set_Overrides (obj w1) c) (stderr w1), Panic)
        end
    | Err e => (mkWorld c log, Err e)
    | Panic => (mkWorld c log, Panic)
    end.
Proof.
  unfold validateConfig, range. run_monad. cbn [obj stderr].
  destruct (String.eqb (Version c) EmptyString); [reflexivity|].
  destruct (negb (String.eqb (Version c) "1")); [reflexivity|].
  destruct (Z.of_nat (length (Packages c)) =? 0); [reflexivity|].
  cbn [obj stderr].
  destruct (ValidateGlobalOverrides c) as [[]| |]; try reflexivity.
  cbn [obj stderr].
  destruct (forEach Override.Parse (Overrides c) log) as [w1 [[]| |]];
    reflexivity.
Qed.

Lemma packages_nonempty (c : GenerateSettings.t) :
  Packages c <> [] -> (Z.of_nat (length (Packages c)) =? 0) = false.
Proof.
  destruct (Packages c); [contradiction|]. intros _. reflexivity.
Qed.

(** [ParseConfig] returns the error of the first package that fails, with
    the packages before it validated and those after it untouched. *)
Lemma ParseConfig_failing_package {Reader : Type}
    (Decode : Reader -> GenerateSettings.t * option error) (rd : Reader)
    (log : list string) (config : GenerateSettings.t)
    (w1 : World (list Override.t))
    (pre : list PackageSettings.t) (p : PackageSettings.t)
    (post : list PackageSettings.t) (wpre : World (list PackageSettings.t))
    (wp : World PackageSettings.t) (e : error) :
  Decode rd = (config, None) ->
  Version config = "1" ->
  ValidateGlobalOverrides config = Ok tt ->
  forEach Override.Parse (Overrides config) log = (w1, Ok tt) ->
  Packages config = pre ++ p :: post ->
  forEach parsePackage pre (stderr w1) = (wpre, Ok tt) ->
  parsePackage (mkWorld p (stderr wpre)) = (wp, Err e) ->
  ParseConfig Decode rd log
  = (mkWorld
       (set_Packages (obj wpre ++ obj wp :: post)
          (set_Overrides (obj w1) config))
       (stderr wp), Err e).
Proof.
  intros Hdec Hv Hg H1 Hp Hpre Hfail.
  unfold ParseConfig. rewrite Hdec, validateConfig_run, Hv.
  rewrite packages_nonempty by (rewrite Hp; now destruct pre).
  cbn [String.eqb Ascii.eqb Bool.eqb negb].
  rewrite Hg, H1, Hp.
  rewrite (forEach_first_error _ _ _ _ _ _ _ _ Hpre Hfail). reflexivity.
Qed.

(** C5: for a decoded document the checks run in a fixed order and the
    first error is returned, with the settings as they are at that point:
    an empty version is [ErrMissingVersion]; a version that is not ["1"]
    is [ErrUnknownVersion]; an empty list of packages is [ErrNoPackages];
    then the engine check of the global overrides; then the global
    overrides are normalized in their order, the first failure being
    returned; then the packages are validated in document order, the
    first failure being returned; and when nothing fails the validated
    settings are returned with no error. *)
Theorem ParseConfig_order {Reader : Type}
    (Decode : Reader -> GenerateSettings.t * option error) (rd : Reader)
    (log : list string) (config : GenerateSettings.t) :
  Decode rd = (config, None) ->
  (Version config = EmptyString ->
   ParseConfig Decode rd log = (mkWorld config log, Err ErrMissingVersion))
  /\ (Version config <> EmptyString -> Version config <> "1" ->
      ParseConfig Decode rd log = (mkWorld config log, Err ErrUnknownVersion))
  /\ (Version config = "1" -> Packages config = [] ->
      ParseConfig Decode rd log = (mkWorld config log, Err ErrNoPackages))
  /\ (Version config = "1" -> Packages config <> [] ->
      forall e : error,
        ValidateGlobalOverrides config = Err e ->
        ParseConfig Decode rd log = (mkWorld config log, Err e))
  /\ (Version config = "1" -> Packages config <> [] ->
      ValidateGlobalOverrides config = Ok tt ->
      forall (pre : list Override.t) (o : Override.t) (post : list Override.t)
             (wpre : World (list Override.t)) (wo : World Override.t)
             (e : error),
        Overrides config = pre ++ o :: post ->
        forEach Override.Parse pre log = (wpre, Ok tt) ->
        Override.Parse (mkWorld o (stderr wpre)) = (wo, Err e) ->
        ParseConfig Decode rd log
        = (mkWorld (set_Overrides (obj wpre ++ obj wo :: post) config)
                   (stderr wo), Err e))
  /\ (Version config = "1" ->
      ValidateGlobalOverrides config = Ok tt ->
      forall w1 : World (list Override.t),
        forEach Override.Parse (Overrides config) log = (w1, Ok tt) ->
        forall (pre : list PackageSettings.t) (p : PackageSettings.t)
               (post : list PackageSettings.t)
               (wpre : World (list PackageSettings.t))
               (wp : World PackageSettings.t) (e : error),
          Packages config = pre ++ p :: post ->
          forEach parsePackage pre (stderr w1) = (wpre, Ok tt) ->
          parsePackage (mkWorld p (stderr wpre)) = (wp, Err e) ->
          ParseConfig Decode rd log
          = (mkWorld
               (set_Packages (obj wpre ++ obj wp :: post)
                  (set_Overrides (obj w1) config))
               (stderr wp), Err e))
  /\ (Version config = "1" -> Packages config <> [] ->
      ValidateGlobalOverrides config = Ok tt ->
      forall (w1 : World (list Override.t))
             (w2 : World (list PackageSettings.t)),
        forEach Override.Parse (Overrides config) log = (w1, Ok tt) ->
        forEach parsePackage (Packages config) (stderr w1) = (w2, Ok tt) ->
        ParseConfig Decode rd log
        = (mkWorld (set_Packages (obj w2) (set_Overrides (obj w1) config))
                   (stderr w2), Ok tt)).
Proof.
  intros Hdec.
  assert (Hpkg := ParseConfig_failing_package Decode rd log config).
  unfold ParseConfig in *. rewrite Hdec, validateConfig_run.
  repeat split.
  - intros ->. reflexivity.
  - intros H0 H1. apply String.eqb_neq in H0, H1. rewrite H0, H1. reflexivity.
  - intros -> ->. reflexivity.
  - intros -> Hp e He. rewrite (packages_nonempty _ Hp), He. reflexivity.
  - intros -> Hp Hv pre o post wpre wo e Ho Hpre Hfail.
    rewrite (packages_nonempty _ Hp), Hv, Ho.
    rewrite (forEach_first_error _ _ _ _ _ _ _ _ Hpre Hfail). reflexivity.
  - intros Hv Hg w1 H1 pre p post wpre wp e Hp Hpre Hfail.
    rewrite <- (Hpkg w1 pre p post wpre wp e Hdec Hv Hg H1 Hp Hpre Hfail).
    rewrite Hdec, validateConfig_run. reflexivity.
  - intros -> Hp Hv w1 w2 H1 H2.
    rewrite (packages_nonempty _ Hp), Hv, H1, H2. reflexivity.
Qed.

Lemma ParseConfig_order_witness :
  ParseConfig decoded (mk EmptyString [] [] ∅) []
  = (mkWorld (mk EmptyString [] [] ∅) [], Err ErrMissingVersion)
  /\ ParseConfig decoded (mk "2" [] [] ∅) []
     = (mkWorld (mk "2" [] [] ∅) [], Err ErrUnknownVersion)
  /\ ParseConfig decoded (mk "1" [] [zeroOverride] ∅) []
     = (mkWorld (mk "1" [] [zeroOverride] ∅) [], Err ErrNoPackages).
Proof.
  destruct (ParseConfig_order decoded (mk EmptyString [] [] ∅) []
              (mk EmptyString [] [] ∅) eq_refl) as (H1 & _).
  destruct (ParseConfig_order decoded (mk "2" [] [] ∅) []
              (mk "2" [] [] ∅) eq_refl) as (_ & H2 & _).
  destruct (ParseConfig_order decoded (mk "1" [] [zeroOverride] ∅) []
              (mk "1" [] [zeroOverride] ∅) eq_refl) as (_ & _ & H3 & _).
  split; [exact (H1 eq_refl)|]. split; [|exact (H3 eq_refl eq_refl)].
  apply H2; discriminate.
Defined.


(** *** The last element of a path *)

Lemma stripTrailing_segment (seg : string) :
  seg <> EmptyString ->
  GoString.mem "/" seg = false ->
  Filepath.stripTrailing seg = seg.
Proof.
  induction seg as [|a seg IH]; [contradiction|]. intros _ Hm.
  cbn [GoString.mem] in Hm. apply orb_false_iff in Hm as [Ha Hm].
  cbn [Filepath.stripTrailing].
  destruct seg as [|b seg].
  - cbn [Filepath.stripTrailing]. unfold Filepath.Separator. rewrite Ha.
    reflexivity.
  - rewrite IH by (auto; discriminate). reflexivity.
Qed.

Lemma stripTrailing_app (s t : string) :
  Filepath.stripTrailing t <> EmptyString ->
  Filepath.stripTrailing (s +:+ t) = s +:+ Filepath.stripTrailing t.
Proof.
  intros Ht. induction s as [|a s IH]; [reflexivity|].
  change (String a s +:+ t) with (String a (s +:+ t)).
  change (String a s +:+ Filepath.stripTrailing t)
    with (String a (s +:+ Filepath.stripTrailing t)).
  cbn [Filepath.stripTrailing]. rewrite IH.
  destruct (s +:+ Filepath.stripTrailing t) as [|b u] eqn:E; [|reflexivity].
  destruct s; [|discriminate].
  change (EmptyString +:+ Filepath.stripTrailing t)
    with (Filepath.stripTrailing t) in E.
  contradiction.
Qed.

Lemma Base_nonempty (path : string) :
  path <> EmptyString ->
  Filepath.Base path =
  let path := Filepath.stripTrailing path in
  let i := GoStrings.LastIndex path Filepath.Separator in
  let path :=
    if 0 <=? i then GoString.drop (Z.to_nat (i + 1)) path else path in
  match path with
  | EmptyString => String Filepath.Separator EmptyString
  | _ => path
  end.
Proof. destruct path; [contradiction | reflexivity]. Qed.

(** The base of [dir/seg] is [seg], and the base of a path without a
    slash is the path. *)
Lemma Base_last_segment (dir seg : string) :
  seg <> EmptyString ->
  GoString.mem "/" seg = false ->
  Filepath.Base (dir +:+ "/" +:+ seg) = seg
  /\ Filepath.Base seg = seg.
Proof.
  intros Hne Hm. pose proof (stripTrailing_segment seg Hne Hm) as Hs.
  split.
  - change (dir +:+ "/" +:+ seg) with (dir +:+ String "/" seg).
    assert (Hst : Filepath.stripTrailing (dir +:+ String "/" seg)
                  = dir +:+ String "/" seg).
    { rewrite stripTrailing_app.
      - cbn [Filepath.stripTrailing]. rewrite Hs.
        destruct seg; [contradiction | reflexivity].
      - cbn [Filepath.stripTrailing]. rewrite Hs.
        destruct seg; [contradiction | discriminate]. }
    rewrite Base_nonempty by (destruct dir; discriminate).
    cbv zeta. rewrite Hst. unfold Filepath.Separator.
    rewrite (LastIndex_app dir seg "/" Hm).
    pose proof (len_nonneg dir) as Hlen.
    destruct (Z.leb_spec 0 (GoString.len dir)); [|lia].
    unfold GoString.len.
    replace (Z.to_nat (Z.of_nat (String.length dir) + 1))
      with (S (String.length dir)) by lia.
    rewrite drop_app_cons. destruct seg; [contradiction | reflexivity].
  - rewrite Base_nonempty by assumption.
    cbv zeta. rewrite Hs. unfold Filepath.Separator.
    apply LastIndex_absent in Hm. rewrite Hm. cbn [Z.leb Z.compare].
    destruct seg; [contradiction | reflexivity].
Qed.

Lemma stripTrailing_separators (path : string) :
  onlySeparators path = true -> Filepath.stripTrailing path = EmptyString.
Proof.
  induction path as [|a path IH]; [reflexivity|].
  cbn [onlySeparators Filepath.stripTrailing]. intros H.
  apply andb_true_iff in H as [Ha Hp]. rewrite (IH Hp), Ha. reflexivity.
Qed.

Lemma stripTrailing_trailing (path slashes : string) :
  onlySeparators slashes = true ->
  Filepath.stripTrailing (path +:+ slashes) = Filepath.stripTrailing path.
Proof.
  intros H. induction path as [|a path IH].
  - change (EmptyString +:+ slashes) with slashes.
    rewrite stripTrailing_separators by assumption. reflexivity.
  - change (String a path +:+ slashes) with (String a (path +:+ slashes)).
    cbn [Filepath.stripTrailing]. rewrite IH. reflexivity.
Qed.

(** A path of separators only has the separator as its base. *)
Lemma Base_separators (path : string) :
  path <> EmptyString -> onlySeparators path = true ->
  Filepath.Base path = String Filepath.Separator EmptyString.
Proof.
  intros Hne H. rewrite Base_nonempty by assumption. cbv zeta.
  rewrite stripTrailing_separators by assumption. reflexivity.
Qed.

(** Trailing separators do not count. *)
Lemma Base_trailing (path slashes : string) :
  path <> EmptyString -> onlySeparators slashes = true ->
  Filepath.Base (path +:+ slashes) = Filepath.Base path.
Proof.
  intros Hne H.
  rewrite !Base_nonempty; [| assumption | destruct path; [contradiction | discriminate]].
  cbv zeta. rewrite stripTrailing_trailing by assumption. reflexivity.
Qed.

Lemma Split_cons_shape (s : string) (sep : ascii) :
  exists seg rest, GoStrings.Split s sep = seg :: rest.
Proof.
  destruct s as [|a s]; cbn [GoStrings.Split]; [eauto|].
  destruct (Ascii.eqb a sep); [eauto|].
  destruct (GoStrings.Split s sep); eauto.
Qed.

(** The segments of [x/y] are those of [x] followed by those of [y]. *)
Lemma Split_app (x y : string) (sep : ascii) :
  GoStrings.Split (x +:+ String sep y) sep = GoStrings.Split x sep ++ GoStrings.Split y sep.
Proof.
  induction x as [|a x IH].
  - change (EmptyString +:+ String sep y) with (String sep y).
    cbn [GoStrings.Split]. rewrite Ascii.eqb_refl. reflexivity.
  - change (String a x +:+ String sep y) with (String a (x +:+ String sep y)).
    cbn [GoStrings.Split]. rewrite IH.
    destruct (Ascii.eqb a sep); [reflexivity|].
    destruct (Split_cons_shape x sep) as (seg & rest & E). rewrite E.
    reflexivity.
Qed.

Lemma lastNonEmpty_app (l1 l2 : list string) :
  lastNonEmpty (l1 ++ l2)
  = match lastNonEmpty l2 with
    | Some s => Some s
    | None => lastNonEmpty l1
    end.
Proof.
  induction l1 as [|seg l1 IH]; cbn [app lastNonEmpty].
  - destruct (lastNonEmpty l2); reflexivity.
  - rewrite IH. destruct (lastNonEmpty l2); reflexivity.
Qed.

Lemma finalSegment_separators (path : string) :
  onlySeparators path = true -> finalSegment path = None.
Proof.
  unfold finalSegment. induction path as [|a path IH]; [reflexivity|].
  cbn [onlySeparators GoStrings.Split]. intros H.
  apply andb_true_iff in H as [Ha Hp]. rewrite Ha.
  cbn [lastNonEmpty]. rewrite (IH Hp). reflexivity.
Qed.

Lemma finalSegment_trailing (seg slashes : string) :
  seg <> EmptyString -> GoString.mem "/" seg = false ->
  onlySeparators slashes = true ->
  finalSegment (seg +:+ slashes) = Some seg.
Proof.
  intros Hne Hm Hs. unfold finalSegment, Filepath.Separator in *.
  apply nonempty_true in Hne.
  destruct slashes as [|a slashes].
  - assert (E : seg +:+ EmptyString = seg).
    { clear. induction seg as [|c seg IH]; [reflexivity|].
      change (String c seg +:+ EmptyString) with (String c (seg +:+ EmptyString)).
      now rewrite IH. }
    rewrite E, Split_no_separator by assumption.
    cbn [lastNonEmpty]. rewrite Hne. reflexivity.
  - cbn [onlySeparators] in Hs. apply andb_true_iff in Hs as [Ha Hs].
    apply Ascii.eqb_eq in Ha. subst a.
    rewrite Split_segment by assumption. cbn [lastNonEmpty].
    pose proof (finalSegment_separators slashes Hs) as Hf.
    unfold finalSegment, Filepath.Separator in Hf. rewrite Hf, Hne.
    reflexivity.
Qed.

(** A path is made of separators only, or it ends with a segment that is
    not empty, followed by separators only and preceded by nothing or by
    a separator. *)
Lemma path_shape (path : string) :
  onlySeparators path = true
  \/ exists pre seg slashes : string,
       path = pre +:+ seg +:+ slashes
       /\ seg <> EmptyString
       /\ GoString.mem "/" seg = false
       /\ onlySeparators slashes = true
       /\ (pre = EmptyString \/ exists dir : string, pre = dir +:+ "/").
Proof.
  induction path as [|a path IH]; [left; reflexivity|].
  destruct (Ascii.eqb a "/") eqn:Ha.
  - destruct IH as [H|(pre & seg & slashes & E & Hne & Hm & Hs & Hpre)].
    + left. cbn [onlySeparators]. unfold Filepath.Separator.
      rewrite Ha, H. reflexivity.
    + right. exists (String a pre), seg, slashes.
      split; [rewrite E; reflexivity|]. repeat split; auto.
      right. apply Ascii.eqb_eq in Ha. subst a.
      destruct Hpre as [->|(dir & ->)].
      * exists EmptyString. reflexivity.
      * exists (String "/" dir). reflexivity.
  - destruct IH as [H|(pre & seg & slashes & E & Hne & Hm & Hs & Hpre)].
    + right. exists EmptyString, (String a EmptyString), path.
      repeat split; auto; try discriminate.
      cbn [GoString.mem]. rewrite Ha. reflexivity.
    + right. destruct Hpre as [->|(dir & ->)].
      * exists EmptyString, (String a seg), slashes.
        split; [rewrite E; reflexivity|]. repeat split; auto; try discriminate.
        cbn [GoString.mem]. rewrite Ha, Hm. reflexivity.
      * exists (String a dir +:+ "/"), seg, slashes.
        split; [rewrite E; reflexivity|]. repeat split; auto.
        right. exists (String a dir). reflexivity.
Qed.

(** [filepath.Base] of a path that is not empty is its final segment, or
    the separator when it has none. *)
Lemma Base_nameOfPath (path : string) :
  path <> EmptyString -> Filepath.Base path = nameOfPath path.
Proof.
  intros Hne. unfold nameOfPath.
  destruct (path_shape path) as [H|(pre & seg & slashes & E & Hseg & Hm & Hs & Hpre)].
  - rewrite finalSegment_separators by assumption.
    apply Base_separators; assumption.
  - subst path. destruct (Base_last_segment EmptyString seg Hseg Hm) as [_ Hb].
    destruct Hpre as [->|(dir & ->)].
    + change (EmptyString +:+ seg +:+ slashes) with (seg +:+ slashes).
      rewrite finalSegment_trailing by assumption.
      rewrite Base_trailing by assumption. exact Hb.
    + destruct (Base_last_segment dir seg Hseg Hm) as [Hb' _].
      replace ((dir +:+ "/") +:+ seg +:+ slashes)
        with ((dir +:+ "/" +:+ seg) +:+ slashes)
        by (rewrite !string_app_assoc; reflexivity).
      rewrite Base_trailing; [| destruct dir; discriminate | assumption].
      rewrite Hb'.
      replace ((dir +:+ "/" +:+ seg) +:+ slashes)
        with (dir +:+ String "/" (seg +:+ slashes))
        by (rewrite !string_app_assoc; reflexivity).
      unfold finalSegment, Filepath.Separator. rewrite Split_app.
      rewrite lastNonEmpty_app.
      pose proof (finalSegment_trailing seg slashes Hseg Hm Hs) as Hf.
      unfold finalSegment, Filepath.Separator in Hf. rewrite Hf. reflexivity.
Qed.

(** C7 (amended): a package whose path is empty makes the validation of
    the package fail with [ErrNoPackagePath], and so [ParseConfig] fails
    when it reaches such a package (the earlier checks and the packages
    before it having passed).  When [ParseConfig] succeeds, every package
    of the document has a path that is not empty, which is kept; a package
    without a name has [filepath.Base] of its path as its name, and a
    package without an engine has the default engine, [postgresql].
    [filepath.Base] of a path that is not empty is the final segment of
    the path, that is the last segment that is not empty, the trailing
    separators being ignored: ["internal/gen"] and ["internal/gen/"] both
    give ["gen"]; and it is the separator ["/"] itself when the path holds
    separators only and so has no such segment. *)
Theorem ParseConfig_package_defaults {Reader : Type}
    (Decode : Reader -> GenerateSettings.t * option error) (rd : Reader)
    (log : list string) (config : GenerateSettings.t) :
  Decode rd = (config, None) ->
  (forall (p : PackageSettings.t) (log0 : list string),
      PackageSettings.Path p = EmptyString ->
      parsePackage (mkWorld p log0) = (mkWorld p log0, Err ErrNoPackagePath))
  /\ (Version config = "1" ->
      ValidateGlobalOverrides config = Ok tt ->
      forall w1 : World (list Override.t),
        forEach Override.Parse (Overrides config) log = (w1, Ok tt) ->
        forall (pre : list PackageSettings.t) (p : PackageSettings.t)
               (post : list PackageSettings.t)
               (wpre : World (list PackageSettings.t)),
          Packages config = pre ++ p :: post ->
          forEach parsePackage pre (stderr w1) = (wpre, Ok tt) ->
          PackageSettings.Path p = EmptyString ->
          (ParseConfig Decode rd log).2 = Err ErrNoPackagePath)
  /\ (forall w : World GenerateSettings.t,
        ParseConfig Decode rd log = (w, Ok tt) ->
        Forall2 defaulted (Packages config) (Packages (obj w)))
  /\ (forall dir seg : string,
        seg <> EmptyString ->
        GoString.mem "/" seg = false ->
        Filepath.Base (dir +:+ "/" +:+ seg) = seg /\ Filepath.Base seg = seg)
  /\ Filepath.Base "internal/gen" = "gen"
  /\ EnginePostgreSQL = "postgresql"
  /\ (forall path : string,
        path <> EmptyString -> Filepath.Base path = nameOfPath path)
  /\ (forall w : World GenerateSettings.t,
        ParseConfig Decode rd log = (w, Ok tt) ->
        Forall2
          (fun p p' : PackageSettings.t =>
             PackageSettings.Name p = EmptyString ->
             PackageSettings.Name p' = nameOfPath (PackageSettings.Path p))
          (Packages config) (Packages (obj w)))
  /\ (forall dir seg slashes : string,
        seg <> EmptyString ->
        GoString.mem "/" seg = false ->
        onlySeparators slashes = true ->
        nameOfPath (dir +:+ "/" +:+ seg +:+ slashes) = seg
        /\ nameOfPath (seg +:+ slashes) = seg)
  /\ (forall path : string,
        onlySeparators path = true -> nameOfPath path = "/")
  /\ Filepath.Base "internal/gen/" = "gen"
  /\ Filepath.Base "/" = "/".
Proof.
  intros Hdec.
  assert (Hempty : forall (p : PackageSettings.t) (log0 : list string),
             PackageSettings.Path p = EmptyString ->
             parsePackage (mkWorld p log0)
             = (mkWorld p log0, Err ErrNoPackagePath)).
  { intros p log0 Hp. rewrite parsePackage_run, Hp. reflexivity. }
  assert (Hdef : forall w : World GenerateSettings.t,
             ParseConfig Decode rd log = (w, Ok tt) ->
             Forall2 defaulted (Packages config) (Packages (obj w))).
  { intros w. unfold ParseConfig. rewrite Hdec, validateConfig_run.
    destruct (String.eqb (Version config) EmptyString); [discriminate|].
    destruct (negb (String.eqb (Version config) "1")); [discriminate|].
    destruct (Z.of_nat (length (Packages config)) =? 0); [discriminate|].
    destruct (ValidateGlobalOverrides config) as [[]| |]; try discriminate.
    destruct (forEach Override.Parse (Overrides config) log)
      as [w1 [[]| |]]; try discriminate.
    destruct (forEach parsePackage (Packages config) (stderr w1))
      as [w2 r] eqn:E2.
    intros H; inversion H; subst; clear H.
    cbn [obj]. destruct config; cbn [Packages set_Packages set_Overrides].
    cbn [Packages] in E2.
    eapply Forall2_impl; [exact (forEach_ok _ _ _ _ E2)|].
    intros p p' (l1 & l2 & Hpp). exact (parsePackage_defaulted _ _ _ _ Hpp). }
  split; [exact Hempty|].
  split.
  { intros Hv Hg w1 H1 pre p post wpre Hp Hpre Hpath.
    rewrite (ParseConfig_failing_package Decode rd log config w1 pre p post
               wpre _ _ Hdec Hv Hg H1 Hp Hpre (Hempty p _ Hpath)).
    reflexivity. }
  split; [exact Hdef|].
  split; [exact Base_last_segment|].
  split; [reflexivity|]. split; [reflexivity|].
  split; [exact Base_nameOfPath|].
  split.
  { intros w H. eapply Forall2_impl; [exact (Hdef w H)|].
    intros p p' (Hpath & _ & Hname & _) Hn.
    rewrite Hname, Hn. cbn [String.eqb]. apply Base_nameOfPath, Hpath. }
  split.
  { intros dir seg slashes Hseg Hm Hs.
    destruct (Base_last_segment dir seg Hseg Hm) as [Hb1 Hb2].
    split.
    - rewrite <- Base_nameOfPath by (destruct dir; discriminate).
      replace (dir +:+ "/" +:+ seg +:+ slashes)
        with ((dir +:+ "/" +:+ seg) +:+ slashes)
        by (rewrite !string_app_assoc; reflexivity).
      rewrite Base_trailing; [exact Hb1 | destruct dir; discriminate | exact Hs].
    - rewrite <- Base_nameOfPath
        by (destruct seg; [contradiction | discriminate]).
      rewrite Base_trailing by assumption. exact Hb2. }
  split.
  { intros path Hs. unfold nameOfPath.
    rewrite finalSegment_separators by assumption. reflexivity. }
  split; reflexivity.
Qed.

Lemma ParseConfig_package_defaults_witness :
  ParseConfig decoded
    (mk "1" [package EmptyString EmptyString "internal/gen" []] [] ∅) []
  = (mkWorld
       (mk "1" [package "gen" "postgresql" "internal/gen" []] [] ∅) [],
     Ok tt)
  /\ (ParseConfig decoded
        (mk "1" [package "a" "mysql" "a" [];
                 package "b" EmptyString EmptyString []] [] ∅) []).2
     = Err ErrNoPackagePath
  /\ Forall2 defaulted
       [package EmptyString EmptyString "internal/gen" []]
       [package "gen" "postgresql" "internal/gen" []].
Proof.
  assert (E : ParseConfig decoded
                (mk "1" [package EmptyString EmptyString "internal/gen" []]
                    [] ∅) []
              = (mkWorld
                   (mk "1" [package "gen" "postgresql" "internal/gen" []]
                       [] ∅) [],
                 Ok tt)) by (vm_compute; reflexivity).
  split; [exact E|]. split.
  - destruct (ParseConfig_package_defaults decoded
                (mk "1" [package "a" "mysql" "a" [];
                         package "b" EmptyString EmptyString []] [] ∅) []
                (mk "1" [package "a" "mysql" "a" [];
                         package "b" EmptyString EmptyString []] [] ∅)
                eq_refl) as (_ & H & _).
    exact (H eq_refl eq_refl (mkWorld [] []) eq_refl
             [package "a" "mysql" "a" []]
             (package "b" EmptyString EmptyString []) []
             (mkWorld [package "a" "mysql" "a" []] [])
             eq_refl eq_refl eq_refl).
  - destruct (ParseConfig_package_defaults decoded
                (mk "1" [package EmptyString EmptyString "internal/gen" []]
                    [] ∅) []
                (mk "1" [package EmptyString EmptyString "internal/gen" []]
                    [] ∅) eq_refl) as (_ & _ & H & _).
    exact (H _ E).
Defined.

(** C7 as stated fails: the document whose one package has the path ["/"]
    and no name passes validation, and the package gets the name ["/"].
    The path splits at its separators into two empty segments: the name
    is not its final segment, nor any segment of it, and the path has no
    segment that is not empty. *)
Lemma ParseConfig_package_name_is_no_segment :
  ParseConfig decoded
    (mk "1" [package EmptyString EmptyString "/" []] [] ∅) []
  = (mkWorld (mk "1" [package "/" "postgresql" "/" []] [] ∅) [], Ok tt)
  /\ GoStrings.Split "/" Filepath.Separator = [EmptyString; EmptyString]
  /\ ~ In "/"%string (GoStrings.Split "/" Filepath.Separator)
  /\ last (GoStrings.Split "/" Filepath.Separator) = Some EmptyString
  /\ finalSegment "/" = None
  /\ GoString.mem Filepath.Separator "/" = true.
Proof.
  vm_compute. repeat split.
  intros [H|[H|[]]]; discriminate.
Qed.

End Validator.

(** ** Further properties of the override normalizer *)

Section NormalizerLaws.
Import Override GoString GoStrings.

Lemma afterCombination_assigns (o : Override.t) (log : list string) :
  exists cn tb gb pk tn,
    (afterCombination (mkWorld o log)).1 =
    mkWorld
      (set_GoTypeName tn
         (set_GoPackage pk
            (set_GoBasicType gb (set_Table tb (set_ColumnName cn o)))))
      log.
Proof.
  rewrite afterCombination_run, validateColumn_run.
  destruct (nonempty (Column o));
    [destruct (Split (Column o) ".") as [|p0 [|p1 [|p2 [|p3 [|p4 ps]]]]]|];
    cbn [fst];
    try (exists (ColumnName o), (Table o), (GoBasicType o), (GoPackage o),
           (GoTypeName o); destruct o; reflexivity).
  all: match goal with
       | |- context [validateGoType (mkWorld ?x ?l)] =>
           destruct (validateGoType_keeps x l) as (tn & pk & gb & H);
           rewrite H
       end.
  - exists p1, (pg.mkFQN EmptyString "public" p0), gb, pk, tn. reflexivity.
  - exists p2, (pg.mkFQN EmptyString p0 p1), gb, pk, tn. reflexivity.
  - exists p3, (pg.mkFQN p0 p1 p2), gb, pk, tn. reflexivity.
  - exists (ColumnName o), (Table o), gb, pk, tn. destruct o; reflexivity.
Qed.

Lemma afterMigration_assigns (o : Override.t) (log : list string) :
  exists cn tb gb pk tn,
    (afterMigration (mkWorld o log)).1 =
    mkWorld
      (set_GoTypeName tn
         (set_GoPackage pk
            (set_GoBasicType gb (set_Table tb (set_ColumnName cn o)))))
      log.
Proof.
  rewrite afterMigration_run.
  destruct (nonempty (Column o) && nonempty (DBType o));
    [|destruct (negb (nonempty (Column o)) && negb (nonempty (DBType o)))];
    try apply afterCombination_assigns;
    exists (ColumnName o), (Table o), (GoBasicType o), (GoPackage o),
      (GoTypeName o); destruct o; reflexivity.
Qed.

(** [Parse] assigns the derived fields and, by the migration, [db_type];
    it appends to the error stream the warning of the migration only. *)
Lemma Parse_assigns (o : Override.t) (log : list string) :
  exists cn tb gb pk tn,
    (Parse (mkWorld o log)).1 =
    mkWorld
      (set_GoTypeName tn
         (set_GoPackage pk
            (set_GoBasicType gb
               (set_Table tb (set_ColumnName cn (set_DBType (migratedDBType o) o))))))
      (if nonempty (Deprecated_PostgresType o)
       then log ++ [warnDeprecatedPostgresType] else log).
Proof.
  rewrite Parse_after, validateDeprecated_run. unfold migratedDBType.
  destruct (nonempty (Deprecated_PostgresType o)) eqn:Hd;
    [destruct (nonempty (DBType o)) eqn:Hb|]; cbn [andb negb fst].
  - exists (ColumnName o), (Table o), (GoBasicType o), (GoPackage o),
      (GoTypeName o). destruct o; reflexivity.
  - apply afterMigration_assigns.
  - destruct (afterMigration_assigns o log) as (cn & tb & gb & pk & tn & H).
    rewrite H. exists cn, tb, gb, pk, tn. destruct o; reflexivity.
Qed.

(** X1: whatever its outcome, [Override.Parse] leaves the fields that the
    document gives as they are: [go_type], [engine], [null], [column] and
    the deprecated [postgres_type]; [db_type] changes only by the
    migration of line 106, which copies [postgres_type] into an empty
    [db_type]. *)
Theorem Parse_keeps_written_fields (o : Override.t) (log : list string) :
  GoType (obj (Parse (mkWorld o log)).1) = GoType o
  /\ Engine (obj (Parse (mkWorld o log)).1) = Engine o
  /\ Null (obj (Parse (mkWorld o log)).1) = Null o
  /\ Column (obj (Parse (mkWorld o log)).1) = Column o
  /\ Deprecated_PostgresType (obj (Parse (mkWorld o log)).1)
     = Deprecated_PostgresType o
  /\ DBType (obj (Parse (mkWorld o log)).1)
     = (if nonempty (Deprecated_PostgresType o) && negb (nonempty (DBType o))
        then Deprecated_PostgresType o
        else DBType o).
Proof.
  destruct (Parse_assigns o log) as (cn & tb & gb & pk & tn & H). rewrite H.
  destruct o; repeat split.
Qed.

(** *** When [Parse] accepts *)

Lemma validateGoType_qualified_ok (o : Override.t) (log : list string) :
  LastIndex (GoType o) "." <> -1 ->
  LastIndex (GoType o) "/" <> -1 ->
  (validateGoType (mkWorld o log)).2 = Ok tt.
Proof.
  intros Hd Hs. pose proof (validateGoType_no_panic o log) as Hnp. revert Hnp.
  rewrite validateGoType_qualified by assumption.
  match goal with
  | |- context [pointerStep ?g (mkWorld ?x ?l)] =>
      destruct (pointerStep_keeps g x l) as (tn & pk & _ & [H|H])
  end; [auto | contradiction].
Qed.

Lemma validateGoType_basic_ok (o : Override.t) (log : list string) :
  LastIndex (GoType o) "." = -1 ->
  LastIndex (GoType o) "/" = -1 ->
  found_basic (GoType o) = true ->
  validateGoType (mkWorld o log)
  = (mkWorld (set_GoTypeName (GoType o) (set_GoBasicType true o)) log, Ok tt).
Proof.
  intros Hd Hs Hf. rewrite validateGoType_basic by assumption.
  rewrite Hf, pointerStep_run.
  apply found_basic_first in Hf as (a & s' & -> & Ha).
  rewrite isPointer_cons, Ha. reflexivity.
Qed.

Lemma validateGoType_accepts (o : Override.t) (log : list string) :
  (validateGoType (mkWorld o log)).2 = Ok tt <->
  (mem "." (GoType o) = false /\ mem "/" (GoType o) = false
   /\ found_basic (GoType o) = true)
  \/ (mem "." (GoType o) = true /\ mem "/" (GoType o) = true).
Proof.
  rewrite <- !LastIndex_absent.
  assert (Hm : forall c, mem c (GoType o) = true <-> LastIndex (GoType o) c <> -1).
  { intros c. rewrite LastIndex_absent. destruct (mem c (GoType o)); split; auto; discriminate. }
  rewrite !Hm.
  destruct (Z.eq_dec (LastIndex (GoType o) ".") (-1)) as [Hd|Hd],
    (Z.eq_dec (LastIndex (GoType o) "/") (-1)) as [Hs|Hs].
  - destruct (found_basic (GoType o)) eqn:Hf.
    + rewrite validateGoType_basic_ok by assumption. cbn [snd]. tauto.
    + rewrite validateGoType_basic, Hf by assumption. cbn [snd].
      split; [discriminate|]. intros [(_ & _ & H)|(H & _)]; [discriminate | contradiction].
  - rewrite validateGoType_malformed by auto. cbn [snd].
    split; [discriminate|]. intros [(_ & H & _)|(H & _)]; contradiction.
  - rewrite validateGoType_malformed by auto. cbn [snd].
    split; [discriminate|]. intros [(H & _)|(_ & H)]; contradiction.
  - rewrite validateGoType_qualified_ok by assumption. tauto.
Qed.

Lemma beforeGoType_accepts (o : Override.t) (log : list string) :
  (beforeGoType (mkWorld o log)).2 = Ok tt <->
  ~ (Deprecated_PostgresType o <> EmptyString /\ DBType o <> EmptyString)
  /\ (Column o = EmptyString <->
      Deprecated_PostgresType o <> EmptyString \/ DBType o <> EmptyString)
  /\ (Column o <> EmptyString ->
      (2 <= length (Split (Column o) ".") <= 4)%nat).
Proof.
  unfold beforeGoType. run_monad. rewrite validateDeprecated_run.
  rewrite <- !nonempty_true, <- !nonempty_false.
  destruct o as [g d dep e n c cn tb gtn gp gb]. fields.
  destruct (nonempty dep) eqn:Hdep; [destruct (nonempty d) eqn:Hd|]; fields.
  - cbn [snd]. split; [discriminate|]. intros (H & _). exfalso. apply H; auto.
  - rewrite validateCombination_run. fields.
    assert (Hdep' : nonempty dep = true) by assumption.
    destruct (nonempty c) eqn:Hc; rewrite ?Hdep'; cbn [andb negb snd].
    + split; [discriminate|]. intros (_ & H & _).
      assert (true = false) by (apply H; auto). discriminate.
    + rewrite validateColumn_run. fields. rewrite Hc. cbn [snd].
      split; [|reflexivity]. intros _.
      repeat split; auto; try discriminate. intros [_ H]; discriminate.
  - rewrite validateCombination_run. fields.
    destruct (nonempty c) eqn:Hc, (nonempty d) eqn:Hd; cbn [andb negb snd].
    + split; [discriminate|]. intros (_ & H & _).
      assert (true = false) by (apply H; auto). discriminate.
    + rewrite validateColumn_run. fields. rewrite Hc.
      destruct (Split c ".") as [|p0 [|p1 [|p2 [|p3 [|p4 ps]]]]];
        cbn [snd length];
        (split;
         [ try discriminate; intros _; repeat split; auto; try discriminate;
           try (intros [H|H]; discriminate); try (intros [_ H]; discriminate);
           lia
         | try reflexivity; intros (_ & _ & H); specialize (H eq_refl); lia ]).
    + rewrite validateColumn_run. fields. rewrite Hc. cbn [snd].
      split; [|reflexivity]. intros _.
      repeat split; auto; try discriminate. intros [H _]; discriminate.
    + split; [discriminate|]. intros (_ & H & _).
      destruct H as [H _]. destruct (H eq_refl); discriminate.
Qed.

Lemma beforeGoType_ok (o : Override.t) (log : list string) :
  (Parse (mkWorld o log)).2 = Ok tt -> (beforeGoType (mkWorld o log)).2 = Ok tt.
Proof.
  rewrite Parse_before.
  destruct (beforeGoType (mkWorld o log)) as [w1 [[]| |]]; cbn [snd];
    [reflexivity | discriminate | discriminate].
Qed.

Lemma Parse_ok_gotype (o : Override.t) (log : list string) :
  (Parse (mkWorld o log)).2 = Ok tt ->
  (mem "." (GoType o) = false /\ mem "/" (GoType o) = false
   /\ found_basic (GoType o) = true)
  \/ (mem "." (GoType o) = true /\ mem "/" (GoType o) = true).
Proof.
  destruct (beforeGoType_keeps o log) as (Hg & _).
  rewrite Parse_before.
  destruct (beforeGoType (mkWorld o log)) as [[o1 log1] [[]| |]];
    cbn [snd fst obj] in *; try discriminate.
  rewrite validateGoType_accepts, Hg. auto.
Qed.

Lemma Parse_acceptable (o : Override.t) (log : list string) :
  (Parse (mkWorld o log)).2 = Ok tt <-> acceptable o.
Proof.
  unfold acceptable.
  pose proof (beforeGoType_accepts o log) as Hb.
  destruct (beforeGoType_keeps o log) as (Hg & _ & _ & _ & Hnp).
  rewrite Parse_before.
  destruct (beforeGoType (mkWorld o log)) as [[o1 log1] [[]| |]];
    cbn [snd fst obj] in *.
  - rewrite validateGoType_accepts, Hg.
    destruct Hb as [Hb _]. destruct (Hb eq_refl) as (H1 & H2 & H3).
    split.
    + intros H. split; [exact H1|]. split; [exact H2|]. split; [exact H3|exact H].
    + intros (_ & _ & _ & H). exact H.
  - split; [discriminate|]. intros (H1 & H2 & H3 & _).
    assert (E : Err e = Ok tt) by (apply Hb; auto). discriminate.
  - contradiction.
Qed.

(** X2: [Override.Parse] returns no error exactly when: [postgres_type]
    and [db_type] are not both set; [column] is empty exactly when one of
    [postgres_type] and [db_type] is set; a [column] that is set splits at
    its dots into two, three or four segments; and [go_type] either has
    neither dot nor slash and is the name of a typed basic type, or has
    both a dot and a slash.  Nothing else is checked, and the error stream
    plays no part. *)
Theorem Parse_accepts_iff (o : Override.t) (log : list string) :
  (Parse (mkWorld o log)).2 = Ok tt <->
  ~ (Deprecated_PostgresType o <> EmptyString /\ DBType o <> EmptyString)
  /\ (Column o = EmptyString <->
      Deprecated_PostgresType o <> EmptyString \/ DBType o <> EmptyString)
  /\ (Column o <> EmptyString ->
      (2 <= length (Split (Column o) ".") <= 4)%nat)
  /\ ((mem "." (GoType o) = false /\ mem "/" (GoType o) = false
       /\ found_basic (GoType o) = true)
      \/ (mem "." (GoType o) = true /\ mem "/" (GoType o) = true)).
Proof. exact (Parse_acceptable o log). Qed.

(** *** Normalizing twice *)

Lemma validateGoType_again (o : Override.t) (log log' : list string)
    (w : World Override.t) :
  validateGoType (mkWorld o log) = (w, Ok tt) ->
  validateGoType (mkWorld (obj w) log') = (mkWorld (obj w) log', Ok tt).
Proof.
  destruct o as [g d dep e n c cn tb gtn gp gb].
  destruct (Z.eq_dec (LastIndex g ".") (-1)) as [Hd|Hd],
    (Z.eq_dec (LastIndex g "/") (-1)) as [Hs|Hs].
  - destruct (found_basic g) eqn:Hf.
    + rewrite validateGoType_basic_ok by assumption. fields.
      intros H; inversion H; subst w; clear H. cbn [obj].
      rewrite validateGoType_basic_ok by assumption. reflexivity.
    + rewrite validateGoType_basic by assumption. fields. rewrite Hf.
      discriminate.
  - rewrite validateGoType_malformed by auto. discriminate.
  - rewrite validateGoType_malformed by auto. discriminate.
  - rewrite validateGoType_qualified by assumption. fields.
    rewrite pointerStep_run. fields.
    destruct (isPointer g) as [[|]|] eqn:Hp; try discriminate.
    + destruct (slice_from (take (Z.to_nat (LastIndex g ".")) g) 1)
        as [pkg|] eqn:Hsl; [|discriminate].
      intros H; inversion H; subst w; clear H. cbn [obj].
      rewrite validateGoType_qualified by assumption. fields.
      rewrite pointerStep_run, Hp. fields. rewrite Hsl. reflexivity.
    + intros H; inversion H; subst w; clear H. cbn [obj].
      rewrite validateGoType_qualified by assumption. fields.
      rewrite pointerStep_run, Hp. reflexivity.
Qed.

Lemma validateColumn_again (o : Override.t) (log log' : list string)
    (w : World Override.t) (tn pk : string) (gb : bool) :
  validateColumn (mkWorld o log) = (w, Ok tt) ->
  validateColumn
    (mkWorld (set_GoTypeName tn (set_GoPackage pk (set_GoBasicType gb (obj w))))
       log')
  = (mkWorld (set_GoTypeName tn (set_GoPackage pk (set_GoBasicType gb (obj w))))
       log', Ok tt).
Proof.
  destruct o as [g d dep e n c cn tb gtn gp gb0].
  rewrite validateColumn_run. fields.
  destruct (nonempty c) eqn:Hc.
  - destruct (Split c ".") as [|p0 [|p1 [|p2 [|p3 [|p4 ps]]]]] eqn:Hsp;
      try discriminate;
      intros H; inversion H; subst w; clear H; cbn [obj]; fields;
      rewrite validateColumn_run; fields; rewrite Hc, Hsp; reflexivity.
  - intros H; inversion H; subst w; clear H. cbn [obj]. fields.
    rewrite validateColumn_run. fields. rewrite Hc. reflexivity.
Qed.

Lemma afterCombination_again (o : Override.t) (log log' : list string)
    (w : World Override.t) :
  afterCombination (mkWorld o log) = (w, Ok tt) ->
  afterCombination (mkWorld (obj w) log') = (mkWorld (obj w) log', Ok tt).
Proof.
  rewrite afterCombination_run.
  destruct (validateColumn (mkWorld o log)) as [[o1 l1] [[]| |]] eqn:E1;
    try discriminate.
  intros H.
  destruct (validateGoType_keeps o1 l1) as (tn & pk & gb & Hk).
  rewrite H in Hk. cbn [fst] in Hk. subst w. cbn [obj].
  rewrite afterCombination_run.
  pose proof (validateColumn_again o log log' (mkWorld o1 l1) tn pk gb E1)
    as Hv.
  cbn [obj] in Hv. rewrite Hv.
  exact (validateGoType_again o1 l1 log' _ H).
Qed.

Lemma afterMigration_again (o : Override.t) (log log' : list string)
    (w : World Override.t) :
  afterMigration (mkWorld o log) = (w, Ok tt) ->
  afterMigration (mkWorld (obj w) log') = (mkWorld (obj w) log', Ok tt).
Proof.
  intros H.
  assert (Hc : Column (obj w) = Column o /\ DBType (obj w) = DBType o).
  { destruct (afterMigration_assigns o log) as (cn & tb & gb & pk & tn & Ha).
    rewrite H in Ha. cbn [fst] in Ha. subst w. destruct o; split; reflexivity. }
  destruct Hc as [Hc Hb]. revert H.
  rewrite !afterMigration_run, Hc, Hb.
  destruct (nonempty (Column o) && nonempty (DBType o)); [discriminate|].
  destruct (negb (nonempty (Column o)) && negb (nonempty (DBType o)));
    [discriminate|].
  apply afterCombination_again.
Qed.

Lemma Parse_again (o : Override.t) (log log' : list string)
    (w : World Override.t) :
  Deprecated_PostgresType o = EmptyString ->
  Parse (mkWorld o log) = (w, Ok tt) ->
  Parse (mkWorld (obj w) log') = (mkWorld (obj w) log', Ok tt).
Proof.
  intros Hd H.
  destruct (Parse_assigns o log) as (cn & tb & gb & pk & tn & Ha).
  rewrite H in Ha. cbn [fst] in Ha.
  assert (Hdep : Deprecated_PostgresType (obj w) = Deprecated_PostgresType o)
    by (subst w; destruct o; reflexivity).
  rewrite (Parse_no_alias (obj w) log') by congruence.
  rewrite (Parse_no_alias o log Hd) in H.
  exact (afterMigration_again o log log' w H).
Qed.

Lemma Parse_again_alias (o : Override.t) (log log' : list string)
    (w : World Override.t) :
  Deprecated_PostgresType o <> EmptyString ->
  Parse (mkWorld o log) = (w, Ok tt) ->
  Parse (mkWorld (obj w) log')
  = (mkWorld (obj w) (log' ++ [warnDeprecatedPostgresType]),
     Err errDBTypeWithPostgresType).
Proof.
  intros Hd H.
  destruct (Parse_assigns o log) as (cn & tb & gb & pk & tn & Ha).
  rewrite H in Ha. cbn [fst] in Ha.
  assert (Hdep : Deprecated_PostgresType (obj w) = Deprecated_PostgresType o)
    by (subst w; destruct o; reflexivity).
  assert (Hdb : DBType (obj w) = migratedDBType o)
    by (subst w; destruct o; reflexivity).
  clear Ha.
  rewrite Parse_after, validateDeprecated_run, Hdep, Hdb.
  apply nonempty_true in Hd. rewrite Hd.
  revert H. rewrite Parse_after, validateDeprecated_run, Hd.
  unfold migratedDBType. rewrite Hd.
  destruct (nonempty (DBType o)); [discriminate|]. cbn [andb negb].
  rewrite Hd. reflexivity.
Qed.

(** X3: normalizing an override that was normalized without error a second
    time changes nothing and succeeds again, unless the override came with
    the deprecated [postgres_type]: the migration has filled [db_type], so
    that the second run warns again and fails with the conflict error of
    line 104. *)
Theorem Parse_twice (o : Override.t) (log log' : list string)
    (w : World Override.t) :
  Parse (mkWorld o log) = (w, Ok tt) ->
  (Deprecated_PostgresType o = EmptyString ->
   Parse (mkWorld (obj w) log') = (mkWorld (obj w) log', Ok tt))
  /\ (Deprecated_PostgresType o <> EmptyString ->
      Parse (mkWorld (obj w) log')
      = (mkWorld (obj w) (log' ++ [warnDeprecatedPostgresType]),
         Err errDBTypeWithPostgresType)).
Proof.
  intros H. split; intros Hd.
  - exact (Parse_again o log log' w Hd H).
  - exact (Parse_again_alias o log log' w Hd H).
Qed.

Lemma Parse_twice_witness :
  Parse (mkWorld
           (obj (Parse (mkWorld
                          (typeOverride "uuid" "*github.com/segmentio/ksuid.KSUID")
                          [])).1) [])
  = (mkWorld
       (obj (Parse (mkWorld
                      (typeOverride "uuid" "*github.com/segmentio/ksuid.KSUID")
                      [])).1) [],
     Ok tt)
  /\ Parse (mkWorld (obj (Parse (mkWorld (aliasOverride "uuid" "string") [])).1)
              [])
     = (mkWorld (obj (Parse (mkWorld (aliasOverride "uuid" "string") [])).1)
          ([] ++ [warnDeprecatedPostgresType]),
        Err errDBTypeWithPostgresType).
Proof.
  destruct (Parse_twice
              (typeOverride "uuid" "*github.com/segmentio/ksuid.KSUID") [] []
              (Parse (mkWorld
                        (typeOverride "uuid" "*github.com/segmentio/ksuid.KSUID")
                        [])).1) as [H1 _]; [vm_compute; reflexivity|].
  destruct (Parse_twice (aliasOverride "uuid" "string") [] []
              (Parse (mkWorld (aliasOverride "uuid" "string") [])).1)
    as [_ H2]; [vm_compute; reflexivity|].
  split; [exact (H1 eq_refl) | apply H2; discriminate].
Defined.

(** *** The column specifier, read back *)

Lemma Split_not_nil (s : string) (sep : ascii) : Split s sep <> [].
Proof.
  destruct s as [|a s]; cbn [Split]; [discriminate|].
  destruct (Ascii.eqb a sep); [discriminate|].
  destruct (Split s sep); discriminate.
Qed.

(** [Join] puts back together what [Split] took apart. *)
Lemma Join_Split (s : string) (sep : ascii) : Join (Split s sep) sep = s.
Proof.
  induction s as [|a s IH]; [reflexivity|].
  cbn [Split]. pose proof (Split_not_nil s sep) as Hne.
  destruct (Ascii.eqb_spec a sep) as [->|Ha].
  - destruct (Split s sep) as [|seg rest]; [contradiction|].
    change (Join (EmptyString :: seg :: rest) sep)
      with (String sep (Join (seg :: rest) sep)).
    rewrite IH. reflexivity.
  - destruct (Split s sep) as [|seg [|seg' rest]]; [contradiction| |].
    + cbn [Join] in *. rewrite IH. reflexivity.
    + change (Join (String a seg :: seg' :: rest) sep)
        with (String a (Join (seg :: seg' :: rest) sep)).
      rewrite IH. reflexivity.
Qed.

(** No segment holds the separator. *)
Lemma Split_segments (s : string) (sep : ascii) :
  Forall (fun seg => mem sep seg = false) (Split s sep).
Proof.
  induction s as [|a s IH]; [repeat constructor|].
  cbn [Split]. destruct (Ascii.eqb a sep) eqn:Ha.
  - constructor; [reflexivity | exact IH].
  - destruct (Split s sep) as [|seg rest].
    + repeat constructor. cbn [mem]. rewrite Ha. reflexivity.
    + inversion IH as [|? ? Hseg Hrest]; subst.
      constructor; [|exact Hrest]. cbn [mem]. rewrite Ha, Hseg. reflexivity.
Qed.

(** X4: when [Override.Parse] accepts an override with a [column], the
    parts it has stored hold no dot, and joined by dots they give the
    [column] back: the table and the column name with the schema
    [public] for two segments, the schema, the table and the column name
    for three, and the catalog before them for four. *)
Theorem Parse_column_round_trip (o : Override.t) (log : list string)
    (w : World Override.t) :
  Parse (mkWorld o log) = (w, Ok tt) ->
  Column o <> EmptyString ->
  let table := Table (obj w) in
  let column := ColumnName (obj w) in
  mem "." (pg.Catalog table) = false
  /\ mem "." (pg.Schema table) = false
  /\ mem "." (pg.Rel table) = false
  /\ mem "." column = false
  /\ ((Column o = Join [pg.Rel table; column] "."
       /\ pg.Schema table = "public" /\ pg.Catalog table = EmptyString)
      \/ (Column o = Join [pg.Schema table; pg.Rel table; column] "."
          /\ pg.Catalog table = EmptyString)
      \/ Column o
         = Join [pg.Catalog table; pg.Schema table; pg.Rel table; column] ".").
Proof.
  intros H Hc.
  assert (Hok : (Parse (mkWorld o log)).2 = Ok tt) by (rewrite H; reflexivity).
  apply beforeGoType_ok in Hok.
  apply beforeGoType_accepts in Hok as (_ & Hx & _).
  assert (Hdep : Deprecated_PostgresType o = EmptyString).
  { destruct (String.eqb_spec (Deprecated_PostgresType o) EmptyString) as [|Hn];
      [assumption|]. exfalso. apply Hc, Hx. auto. }
  assert (Hdb : DBType o = EmptyString).
  { destruct (String.eqb_spec (DBType o) EmptyString) as [|Hn];
      [assumption|]. exfalso. apply Hc, Hx. auto. }
  pose proof (Parse_column_by_segments o log Hc Hdep Hdb) as Hseg.
  pose proof (Join_Split (Column o) ".") as Hj.
  pose proof (Split_segments (Column o) ".") as Hs.
  rewrite H in Hseg. cbn [fst] in Hseg.
  destruct (Split (Column o) ".") as [|p0 [|p1 [|p2 [|p3 [|p4 ps]]]]];
    try discriminate.
  - destruct Hseg as [-> ->].
    inversion Hs as [|? ? H0 Hs1]; subst. inversion Hs1 as [|? ? H1 _]; subst.
    cbn [pg.Catalog pg.Schema pg.Rel]. repeat split; auto.
  - destruct Hseg as [-> ->].
    inversion Hs as [|? ? H0 Hs1]; subst. inversion Hs1 as [|? ? H1 Hs2]; subst.
    inversion Hs2 as [|? ? H2 _]; subst.
    cbn [pg.Catalog pg.Schema pg.Rel]. repeat split; auto.
  - destruct Hseg as [-> ->].
    inversion Hs as [|? ? H0 Hs1]; subst. inversion Hs1 as [|? ? H1 Hs2]; subst.
    inversion Hs2 as [|? ? H2 Hs3]; subst. inversion Hs3 as [|? ? H3 _]; subst.
    cbn [pg.Catalog pg.Schema pg.Rel]. repeat split; auto.
Qed.

Lemma Parse_column_round_trip_witness :
  (Parse (mkWorld (columnOverride "audit.accounts.id" "string") [])).2 = Ok tt
  /\ Table (obj (Parse (mkWorld (columnOverride "audit.accounts.id" "string")
                          [])).1)
     = pg.mkFQN EmptyString "audit" "accounts"
  /\ Column (columnOverride "audit.accounts.id" "string")
     = Join ["audit"; "accounts"; "id"] ".".
Proof.
  destruct (Parse_column_round_trip
              (columnOverride "audit.accounts.id" "string") []
              (Parse (mkWorld (columnOverride "audit.accounts.id" "string")
                        [])).1)
    as (_ & _ & _ & _ & [(_ & H & _)|[(H & _)|H]]);
    try (vm_compute; reflexivity); try discriminate.
  repeat split; vm_compute; reflexivity.
Defined.

(** *** The built-in type names *)

Lemma found_basic_fold (typename : string) (typs : list GoTypes.Basic)
    (found : bool) :
  fold_left
    (fun found typ =>
       let info := GoTypes.Info typ in
       if info =? 0 then found
       else if negb (Z.land info GoTypes.IsUntyped =? 0) then found
       else if String.eqb typename (GoTypes.Name typ) then true
       else found)
    typs found
  = found
    || existsb (String.eqb typename)
         (map GoTypes.Name
            (List.filter
               (fun typ =>
                  negb (GoTypes.Info typ =? 0)
                  && (Z.land (GoTypes.Info typ) GoTypes.IsUntyped =? 0))
               typs)).
Proof.
  revert found. induction typs as [|typ typs IH]; intros found.
  - cbn [fold_left List.filter map existsb]. now rewrite orb_false_r.
  - cbn [fold_left List.filter]. rewrite IH. cbv zeta.
    destruct (GoTypes.Info typ =? 0); cbn [negb andb]; [reflexivity|].
    destruct (Z.land (GoTypes.Info typ) GoTypes.IsUntyped =? 0);
      cbn [negb]; [|reflexivity].
    cbn [map existsb].
    destruct (String.eqb typename (GoTypes.Name typ)), found; reflexivity.
Qed.

Lemma found_basic_names (typename : string) :
  found_basic typename = true <-> In typename typedBasicNames.
Proof.
  unfold found_basic, typedBasicNames. rewrite found_basic_fold.
  cbn [orb]. rewrite existsb_exists. split.
  - intros (x & Hin & Heq). apply String.eqb_eq in Heq. now subst.
  - intros Hin. exists typename. split; [exact Hin | apply String.eqb_refl].
Qed.

(** X5: a [go_type] without dot and slash is accepted exactly when it is
    one of the seventeen names of the typed basic types ([bool], the
    integer, float and complex types, [string]); it is then marked as a
    basic type, with itself as its type name and the package path left as
    it was.  Any other name ([byte], [rune], [error], an untyped constant
    type) is the not-a-basic-type error of line 155.  (The override is one
    that passes the steps before the type reference.) *)
Theorem Parse_basic_type_names (o : Override.t) (log : list string) :
  (beforeGoType (mkWorld o log)).2 = Ok tt ->
  mem "." (GoType o) = false ->
  mem "/" (GoType o) = false ->
  typedBasicNames
  = ["bool"; "int"; "int8"; "int16"; "int32"; "int64";
     "uint"; "uint8"; "uint16"; "uint32"; "uint64"; "uintptr";
     "float32"; "float64"; "complex64"; "complex128"; "string"]
  /\ (In (GoType o) typedBasicNames ->
      (Parse (mkWorld o log)).2 = Ok tt
      /\ GoBasicType (obj (Parse (mkWorld o log)).1) = true
      /\ GoTypeName (obj (Parse (mkWorld o log)).1) = GoType o
      /\ GoPackage (obj (Parse (mkWorld o log)).1) = GoPackage o)
  /\ (~ In (GoType o) typedBasicNames ->
      (Parse (mkWorld o log)).2 = Err (errNotBasicType (GoType o))).
Proof.
  intros Hb Hd Hs. split; [reflexivity|].
  apply LastIndex_absent in Hd, Hs.
  split; intros Hin.
  - apply found_basic_names in Hin.
    destruct (Parse_basic_run o log Hb Hd Hs Hin) as (H1 & _ & H3 & H4 & H5).
    auto.
  - assert (Hf : found_basic (GoType o) = false).
    { destruct (found_basic (GoType o)) eqn:Hf; [|reflexivity].
      apply found_basic_names in Hf. contradiction. }
    rewrite Parse_before.
    destruct (beforeGoType_keeps o log) as (Hg & _).
    destruct (beforeGoType (mkWorld o log)) as [[o1 log1] [[]| |]];
      cbn [snd fst obj] in *; try discriminate.
    rewrite validateGoType_basic by (rewrite Hg; assumption).
    rewrite Hg, Hf. reflexivity.
Qed.

Lemma Parse_basic_type_names_witness :
  (Parse (mkWorld (typeOverride "uuid" "int64") [])).2 = Ok tt
  /\ (Parse (mkWorld (typeOverride "uuid" "byte") [])).2
     = Err (errNotBasicType "byte").
Proof.
  destruct (Parse_basic_type_names (typeOverride "uuid" "int64") [])
    as (_ & H1 & _); try (vm_compute; reflexivity).
  destruct (Parse_basic_type_names (typeOverride "uuid" "byte") [])
    as (_ & _ & H2); try (vm_compute; reflexivity).
  split.
  - apply H1. vm_compute. tauto.
  - apply H2. vm_compute. intuition discriminate.
Defined.

(** *** The usual shape of a type reference *)

(** X6: for a [go_type] of the usual shape [dir/name.type] (no slash in
    [name] and [type], no dot in [type]) and an override that passes the
    earlier steps, [Override.Parse] returns no error; the package path is
    [dir/name] without a leading star; the type name is [name.type], the
    last element of the path included, without a leading [go-] and a
    trailing [-go], and with a star before it when [go_type] starts with
    one; the basic-type mark is left as it was. *)
Theorem Parse_import_path
    (o : Override.t) (log : list string) (dir name type : string) :
  (beforeGoType (mkWorld o log)).2 = Ok tt ->
  GoType o = dir +:+ "/" +:+ name +:+ "." +:+ type ->
  mem "/" name = false ->
  mem "/" type = false ->
  mem "." type = false ->
  (Parse (mkWorld o log)).2 = Ok tt
  /\ GoPackage (obj (Parse (mkWorld o log)).1) = unstar (dir +:+ "/" +:+ name)
  /\ GoTypeName (obj (Parse (mkWorld o log)).1)
     = sigil (GoType o) +:+ trimAffixes (name +:+ "." +:+ type)
  /\ GoBasicType (obj (Parse (mkWorld o log)).1) = GoBasicType o.
Proof.
  intros Hb Hgt Hname Htype Hdot.
  change (dir +:+ "/" +:+ name +:+ "." +:+ type)
    with (dir +:+ String "/" (name +:+ String "." type)) in Hgt.
  assert (Hs : LastIndex (GoType o) "/" = len dir).
  { rewrite Hgt. apply LastIndex_app.
    rewrite mem_app. cbn [mem]. rewrite Hname, Htype. reflexivity. }
  assert (Hgt' : GoType o = (dir +:+ String "/" name) +:+ String "." type).
  { rewrite Hgt, string_app_assoc. reflexivity. }
  assert (Hd : LastIndex (GoType o) "." = len (dir +:+ String "/" name)).
  { rewrite Hgt'. apply LastIndex_app. exact Hdot. }
  pose proof (len_nonneg dir). pose proof (len_nonneg (dir +:+ String "/" name)).
  destruct (Parse_qualified_run o log Hb) as (H1 & H2 & H3 & H4); [lia | lia |].
  rewrite H1, H2, H3, H4. repeat split.
  - rewrite Hd. unfold len. rewrite Nat2Z.id.
    rewrite Hgt', take_app. reflexivity.
  - rewrite Hs. unfold len.
    replace (Z.to_nat (Z.of_nat (String.length dir) + 1))
      with (S (String.length dir)) by lia.
    rewrite Hgt at 2. rewrite drop_app_cons. reflexivity.
Qed.

Lemma Parse_import_path_witness :
  (Parse (mkWorld (typeOverride "uuid" "*github.com/gofrs/go-uuid.UUID") [])).2
  = Ok tt
  /\ GoPackage
       (obj (Parse (mkWorld (typeOverride "uuid" "*github.com/gofrs/go-uuid.UUID")
                      [])).1)
     = "github.com/gofrs/go-uuid"
  /\ GoTypeName
       (obj (Parse (mkWorld (typeOverride "uuid" "*github.com/gofrs/go-uuid.UUID")
                      [])).1)
     = "*uuid.UUID".
Proof.
  destruct (Parse_import_path
              (typeOverride "uuid" "*github.com/gofrs/go-uuid.UUID") []
              "*github.com/gofrs" "go-uuid" "UUID")
    as (H1 & H2 & H3 & _); try (vm_compute; reflexivity).
  split; [exact H1|]. split; [rewrite H2 | rewrite H3]; vm_compute; reflexivity.
Defined.

(** *** A type reference with only one of the dot and the slash *)

(** X15: a [go_type] with a dot but no slash (a qualified name without an
    import path, such as [time.Time]) or with a slash but no dot is
    rejected with the format error of lines 161 and 164, by every override
    that passes the earlier steps, and the three fields of the type
    reference are left as they were. *)
Theorem Parse_one_separator (o : Override.t) (log : list string) :
  (beforeGoType (mkWorld o log)).2 = Ok tt ->
  mem "." (GoType o) <> mem "/" (GoType o) ->
  (Parse (mkWorld o log)).2 = Err (errGoTypeFormat (GoType o))
  /\ GoTypeName (obj (Parse (mkWorld o log)).1) = GoTypeName o
  /\ GoPackage (obj (Parse (mkWorld o log)).1) = GoPackage o
  /\ GoBasicType (obj (Parse (mkWorld o log)).1) = GoBasicType o.
Proof.
  intros Hb Hne. rewrite Parse_before.
  destruct (beforeGoType_keeps o log) as (Hg & Hp & Hbt & Htn & _).
  destruct (beforeGoType (mkWorld o log)) as [[o1 log1] [[]| |]];
    cbn [snd fst obj] in *; try discriminate.
  rewrite validateGoType_malformed; [rewrite Hg; cbn [fst snd obj]; auto|].
  rewrite Hg.
  pose proof (LastIndex_absent (GoType o) ".") as Hd.
  pose proof (LastIndex_absent (GoType o) "/") as Hs.
  destruct (mem "." (GoType o)), (mem "/" (GoType o));
    try contradiction; [right | left]; split.
  - intros E. apply Hd in E. discriminate.
  - apply Hs. reflexivity.
  - apply Hd. reflexivity.
  - intros E. apply Hs in E. discriminate.
Qed.

Lemma Parse_one_separator_witness :
  (Parse (mkWorld (typeOverride "timestamptz" "time.Time") [])).2
  = Err (errGoTypeFormat "time.Time")
  /\ (Parse (mkWorld (typeOverride "uuid" "database/sql") [])).2
     = Err (errGoTypeFormat "database/sql").
Proof.
  assert (N1 : mem "." "time.Time" <> mem "/" "time.Time")
    by (intros E; vm_compute in E; discriminate E).
  assert (N2 : mem "." "database/sql" <> mem "/" "database/sql")
    by (intros E; vm_compute in E; discriminate E).
  assert (B1 : (beforeGoType (mkWorld (typeOverride "timestamptz" "time.Time")
                                [])).2 = Ok tt) by (vm_compute; reflexivity).
  assert (B2 : (beforeGoType
                  (mkWorld (typeOverride "uuid" "database/sql") [])).2
               = Ok tt) by (vm_compute; reflexivity).
  destruct (Parse_one_separator (typeOverride "timestamptz" "time.Time") []
              B1 N1) as (H1 & _).
  destruct (Parse_one_separator (typeOverride "uuid" "database/sql") []
              B2 N2) as (H2 & _).
  exact (conj H1 H2).
Defined.

(** *** Where the affixes are removed *)

Lemma HasSuffix_cons (a : ascii) (s suffix : string) :
  (String.length suffix <= String.length s)%nat ->
  HasSuffix (String a s) suffix = HasSuffix s suffix.
Proof.
  intros H. unfold HasSuffix, len. cbn [String.length].
  replace (S (String.length s) - String.length suffix)%nat
    with (S (String.length s - String.length suffix)) by lia.
  cbn [drop].
  destruct (Z.leb_spec (Z.of_nat (String.length suffix))
              (Z.of_nat (S (String.length s))));
    destruct (Z.leb_spec (Z.of_nat (String.length suffix))
                (Z.of_nat (String.length s))); try lia.
  reflexivity.
Qed.

Lemma HasSuffix_app (pre s suffix : string) :
  (String.length suffix <= String.length s)%nat ->
  HasSuffix (pre +:+ s) suffix = HasSuffix s suffix.
Proof.
  intros H. induction pre as [|a pre IH]; [reflexivity|].
  change (String a pre +:+ s) with (String a (pre +:+ s)).
  rewrite HasSuffix_cons; [exact IH|].
  rewrite string_length_app. lia.
Qed.

(** Whether [pre.type] ends in [-go] is decided by [type]: the dot is not
    a byte of [-go]. *)
Lemma HasSuffix_after_dot (pre type : string) :
  HasSuffix (pre +:+ String "." type) "-go" = HasSuffix type "-go".
Proof.
  destruct type as [|c1 [|c2 [|c3 type]]].
  - induction pre as [|a pre IH]; [reflexivity|].
    change (String a pre +:+ ".") with (String a (pre +:+ ".")).
    destruct (le_lt_dec 3 (String.length (pre +:+ "."))) as [Hl|Hl].
    + rewrite HasSuffix_cons by exact Hl. exact IH.
    + rewrite string_length_app in Hl. cbn [String.length] in Hl.
      destruct pre as [|b [|c pre]]; cbn [String.length] in Hl; try lia.
      * reflexivity.
      * cbv -[Ascii.eqb].
        destruct (Ascii.eqb a "-"), (Ascii.eqb b "g"); reflexivity.
  - induction pre as [|a pre IH]; [reflexivity|].
    change (String a pre +:+ String "." (String c1 EmptyString))
      with (String a (pre +:+ String "." (String c1 EmptyString))).
    destruct (le_lt_dec 3
                (String.length (pre +:+ String "." (String c1 EmptyString))))
      as [Hl|Hl].
    + rewrite HasSuffix_cons by exact Hl. exact IH.
    + rewrite string_length_app in Hl. cbn [String.length] in Hl.
      destruct pre as [|b pre]; cbn [String.length] in Hl; try lia.
      cbv -[Ascii.eqb]. destruct (Ascii.eqb a "-"); reflexivity.
  - rewrite HasSuffix_app by (cbn [String.length]; lia). reflexivity.
  - rewrite HasSuffix_app by (cbn [String.length]; lia).
    apply HasSuffix_cons. cbn [String.length]. lia.
Qed.

(** Whether [name.type] starts with [go-] is decided by [name]. *)
Lemma HasPrefix_before_dot (name type : string) :
  HasPrefix (name +:+ String "." type) "go-" = HasPrefix name "go-".
Proof.
  unfold HasPrefix.
  destruct name as [|a [|b [|c name]]];
    cbv -[ascii_dec String.prefix]; cbn [String.prefix];
    repeat match goal with
           | |- context [ascii_dec ?x ?y] => destruct (ascii_dec x y)
           end; try reflexivity; try congruence.
  destruct name; reflexivity.
Qed.

Lemma drop_app_prefix (name rest : string) :
  HasPrefix name "go-" = true ->
  drop 3 (name +:+ rest) = drop 3 name +:+ rest.
Proof.
  intros H. apply HasPrefix_len in H. change (len "go-") with 3 in H.
  destruct name as [|a [|b [|c name]]]; unfold len in H;
    cbn [String.length] in H; try lia.
  reflexivity.
Qed.

Lemma take_app_plus (pre s : string) (n : nat) :
  take (String.length pre + n) (pre +:+ s) = pre +:+ take n s.
Proof.
  induction pre as [|a pre IH]; [reflexivity|].
  change (String a pre +:+ s) with (String a (pre +:+ s)).
  cbn [String.length Nat.add take]. rewrite IH. reflexivity.
Qed.

(** The two removals of lines 167-176 on a name of the shape [name.type]:
    the leading [go-] is taken off [name], the trailing [-go] off
    [type]. *)
Lemma trimAffixes_qualified (name type : string) :
  trimAffixes (name +:+ "." +:+ type)
  = (if HasPrefix name "go-" then drop 3 name else name)
    +:+ "."
    +:+ (if HasSuffix type "-go"
         then take (String.length type - 3) type else type).
Proof.
  change (name +:+ "." +:+ type) with (name +:+ String "." type).
  unfold trimAffixes. rewrite HasPrefix_before_dot.
  assert (Hsuf : forall pre : string,
             (if HasSuffix (pre +:+ String "." type) "-go"
              then take (String.length (pre +:+ String "." type) - 3)
                     (pre +:+ String "." type)
              else pre +:+ String "." type)
             = pre +:+ "."
               +:+ (if HasSuffix type "-go"
                    then take (String.length type - 3) type else type)).
  { intros pre. rewrite HasSuffix_after_dot.
    destruct (HasSuffix type "-go") eqn:Hs; [|reflexivity].
    apply HasSuffix_len in Hs. change (len "-go") with 3 in Hs.
    unfold len in Hs. rewrite string_length_app. cbn [String.length].
    replace (String.length pre + S (String.length type) - 3)%nat
      with (String.length pre + S (String.length type - 3))%nat by lia.
    rewrite take_app_plus. reflexivity. }
  destruct (HasPrefix name "go-") eqn:Hp.
  - rewrite (drop_app_prefix name (String "." type) Hp). apply Hsuf.
  - apply Hsuf.
Qed.

(** X16: in a [go_type] of the usual shape [dir/name.type], the leading
    [go-] of lines 167-173 is removed from [name], the last element of the
    import path, and the trailing [-go] of lines 174-176 from [type]: the
    suffix is looked for at the end of the whole [name.type], so that a
    last path element that ends in [-go] keeps it in the type name, and
    the package path keeps both affixes. *)
Theorem Parse_affixes
    (o : Override.t) (log : list string) (dir name type : string) :
  (beforeGoType (mkWorld o log)).2 = Ok tt ->
  GoType o = dir +:+ "/" +:+ name +:+ "." +:+ type ->
  mem "/" name = false ->
  mem "/" type = false ->
  mem "." type = false ->
  GoTypeName (obj (Parse (mkWorld o log)).1)
  = sigil (GoType o)
    +:+ (if HasPrefix name "go-" then drop 3 name else name)
    +:+ "."
    +:+ (if HasSuffix type "-go"
         then take (String.length type - 3) type else type)
  /\ GoPackage (obj (Parse (mkWorld o log)).1) = unstar (dir +:+ "/" +:+ name).
Proof.
  intros Hb Hgt Hname Htype Hdot.
  change (dir +:+ "/" +:+ name +:+ "." +:+ type)
    with (dir +:+ String "/" (name +:+ String "." type)) in Hgt.
  assert (Hs : LastIndex (GoType o) "/" = len dir).
  { rewrite Hgt. apply LastIndex_app.
    rewrite mem_app. cbn [mem]. rewrite Hname, Htype. reflexivity. }
  assert (Hgt' : GoType o = (dir +:+ String "/" name) +:+ String "." type).
  { rewrite Hgt, string_app_assoc. reflexivity. }
  assert (Hd : LastIndex (GoType o) "." = len (dir +:+ String "/" name)).
  { rewrite Hgt'. apply LastIndex_app. exact Hdot. }
  pose proof (len_nonneg dir). pose proof (len_nonneg (dir +:+ String "/" name)).
  destruct (Parse_qualified_run o log Hb) as (_ & _ & H3 & H4); [lia | lia |].
  assert (Htn : GoTypeName (obj (Parse (mkWorld o log)).1)
                = sigil (GoType o)
                  +:+ (if HasPrefix name "go-" then drop 3 name else name)
                  +:+ "."
                  +:+ (if HasSuffix type "-go"
                       then take (String.length type - 3) type else type)).
  { rewrite H4, Hs. unfold len.
    replace (Z.to_nat (Z.of_nat (String.length dir) + 1))
      with (S (String.length dir)) by lia.
    rewrite Hgt at 2. rewrite drop_app_cons.
    change (name +:+ String "." type) with (name +:+ "." +:+ type).
    rewrite trimAffixes_qualified. reflexivity. }
  split; [exact Htn|].
  rewrite H3, Hd. unfold len. rewrite Nat2Z.id.
  rewrite Hgt', take_app. reflexivity.
Qed.

Lemma Parse_affixes_witness :
  GoTypeName
    (obj (Parse (mkWorld (typeOverride "uuid" "github.com/x/go-uuid-go.UUID")
                   [])).1)
  = "uuid-go.UUID"
  /\ GoPackage
       (obj (Parse (mkWorld (typeOverride "uuid" "github.com/x/go-uuid-go.UUID")
                      [])).1)
     = "github.com/x/go-uuid-go".
Proof.
  destruct (Parse_affixes
              (typeOverride "uuid" "github.com/x/go-uuid-go.UUID") []
              "github.com/x" "go-uuid-go" "UUID")
    as (H1 & H2); try (vm_compute; reflexivity).
  split; [rewrite H1 | rewrite H2]; vm_compute; reflexivity.
Defined.

End NormalizerLaws.

(** ** Further properties of the settings validator *)

Section ValidatorLaws.
Import GenerateSettings.

(** *** Loops, whatever their outcome *)

Lemma forEach_no_panic {S : Type} (body : M S unit) :
  (forall (x : S) (log : list string), (body (mkWorld x log)).2 <> Panic) ->
  forall (l : list S) (log : list string), (forEach body l log).2 <> Panic.
Proof.
  intros Hbody l. induction l as [|x l IH]; intros log; cbn [forEach].
  - discriminate.
  - pose proof (Hbody x log) as Hx.
    destruct (body (mkWorld x log)) as [w [[]| |]]; cbn [snd] in *.
    + pose proof (IH (stderr w)) as Hl.
      destruct (forEach body l (stderr w)) as [w' r]. exact Hl.
    + discriminate.
    + contradiction.
Qed.

Lemma forEach_related {S : Type} (R : S -> S -> Prop) (body : M S unit) :
  (forall x : S, R x x) ->
  (forall (x : S) (log : list string), R x (obj (body (mkWorld x log)).1)) ->
  forall (l : list S) (log : list string),
    Forall2 R l (obj (forEach body l log).1).
Proof.
  intros Hrefl Hbody l. induction l as [|x l IH]; intros log; cbn [forEach].
  - constructor.
  - pose proof (Hbody x log) as Hx.
    destruct (body (mkWorld x log)) as [w [[]| |]]; cbn [fst obj] in *.
    + pose proof (IH (stderr w)) as Hl.
      destruct (forEach body l (stderr w)) as [w' r]. cbn [fst obj] in *.
      constructor; assumption.
    + constructor; [assumption|]. clear IH. induction l; constructor; auto.
    + constructor; [assumption|]. clear IH. induction l; constructor; auto.
Qed.

(** An error of the loop is the error of one of its elements. *)
Lemma forEach_error {S : Type} (body : M S unit) (l : list S)
    (log : list string) (e : error) :
  (forEach body l log).2 = Err e ->
  exists (x : S) (log0 : list string),
    x ∈ l /\ (body (mkWorld x log0)).2 = Err e.
Proof.
  revert log. induction l as [|x l IH]; intros log; cbn [forEach].
  - discriminate.
  - destruct (body (mkWorld x log)) as [w [[]| |]] eqn:E.
    + destruct (forEach body l (stderr w)) as [w' r] eqn:E'. cbn [snd].
      intros ->. destruct (IH (stderr w)) as (y & log0 & Hy & He).
      { rewrite E'. reflexivity. }
      exists y, log0. split; [now apply list_elem_of_further | exact He].
    + cbn [snd]. intros H; inversion H; subst.
      exists x, log. split; [apply list_elem_of_here | now rewrite E].
    + discriminate.
Qed.

(** *** No panic *)

Lemma Parse_no_panic (o : Override.t) (log : list string) :
  (Override.Parse (mkWorld o log)).2 <> Panic.
Proof.
  rewrite Parse_before.
  destruct (beforeGoType_keeps o log) as (_ & _ & _ & _ & Hb).
  destruct (beforeGoType (mkWorld o log)) as [[o1 log1] [[]| |]];
    cbn [snd] in *; try discriminate; [|contradiction].
  apply validateGoType_no_panic.
Qed.

Lemma checkEngines_result (uses : bool) (orides : list Override.t) :
  checkEngines uses orides = Ok tt
  \/ checkEngines uses orides = Err errEngineRequired.
Proof.
  induction orides as [|o orides IH]; cbn [checkEngines]; [auto|].
  destruct (uses && String.eqb (Override.Engine o) EmptyString); auto.
Qed.

Lemma parsePackage_no_panic (p : PackageSettings.t) (log : list string) :
  (parsePackage (mkWorld p log)).2 <> Panic.
Proof.
  rewrite parsePackage_run.
  destruct (String.eqb (PackageSettings.Path p) EmptyString); [discriminate|].
  pose proof (forEach_no_panic Override.Parse Parse_no_panic
                (PackageSettings.Overrides p) log) as H.
  destruct (forEach Override.Parse (PackageSettings.Overrides p) log)
    as [w [[]| |]]; cbn [snd] in *; try discriminate. contradiction.
Qed.

Lemma validateConfig_no_panic (c : GenerateSettings.t) (log : list string) :
  (validateConfig (mkWorld c log)).2 <> Panic.
Proof.
  rewrite validateConfig_run.
  destruct (String.eqb (Version c) EmptyString); [discriminate|].
  destruct (negb (String.eqb (Version c) "1")); [discriminate|].
  destruct (Z.of_nat (length (Packages c)) =? 0); [discriminate|].
  unfold ValidateGlobalOverrides.
  destruct (checkEngines_result (usesMultipleEngines c) (Overrides c))
    as [-> | ->]; [|discriminate].
  pose proof (forEach_no_panic Override.Parse Parse_no_panic (Overrides c) log)
    as H1.
  destruct (forEach Override.Parse (Overrides c) log) as [w1 [[]| |]];
    cbn [snd] in *; try discriminate; [|contradiction].
  pose proof (forEach_no_panic parsePackage parsePackage_no_panic
                (Packages c) (stderr w1)) as H2.
  destruct (forEach parsePackage (Packages c) (stderr w1)) as [w2 r].
  exact H2.
Qed.

(** X7: [ParseConfig] never panics, whatever the decoder returns: every
    index and slice expression that it reaches, in the overrides of the
    document and of its packages, is in range. *)
Theorem ParseConfig_never_panics {Reader : Type}
    (Decode : Reader -> GenerateSettings.t * option error) (rd : Reader)
    (log : list string) :
  (ParseConfig Decode rd log).2 <> Panic.
Proof.
  unfold ParseConfig. destruct (Decode rd) as [config [err|]].
  - discriminate.
  - apply validateConfig_no_panic.
Qed.

(** *** The errors *)

Lemma Parse_result (o : Override.t) (log : list string) :
  (Override.Parse (mkWorld o log)).2 = Ok tt
  \/ exists e : error,
       (Override.Parse (mkWorld o log)).2 = Err e /\ e ∈ parseErrors o.
Proof.
  unfold parseErrors, migratedDBType.
  rewrite Parse_after, validateDeprecated_run.
  assert (Hin : forall (o1 : Override.t) (log1 : list string),
             Override.Column o1 = Override.Column o ->
             Override.GoType o1 = Override.GoType o ->
             (afterMigration (mkWorld o1 log1)).2 = Ok tt
             \/ exists e : error,
                  (afterMigration (mkWorld o1 log1)).2 = Err e
                  /\ e ∈ [ errDBTypeWithPostgresType;
                           errColumnAndDBType (Override.Column o)
                             (Override.DBType o1);
                           errNoColumnOrDBType;
                           errColumnFormat (Override.Column o);
                           errNotBasicType (Override.GoType o);
                           errGoTypeFormat (Override.GoType o) ]).
  { intros o1 log1 Hc Hg. rewrite afterMigration_run, Hc.
    destruct (Override.nonempty (Override.Column o)
              && Override.nonempty (Override.DBType o1)).
    { right. eexists. split; [reflexivity|]. set_solver. }
    destruct (negb (Override.nonempty (Override.Column o))
              && negb (Override.nonempty (Override.DBType o1))).
    { right. eexists. split; [reflexivity|]. set_solver. }
    destruct (afterCombination_result o1 log1) as [E|[E|[E|E]]];
      rewrite E, ?Hc, ?Hg; [left; reflexivity| | |];
      right; eexists; (split; [reflexivity|]); set_solver. }
  destruct (Override.nonempty (Override.Deprecated_PostgresType o)) eqn:Hd;
    [destruct (Override.nonempty (Override.DBType o)) eqn:Hb|];
    cbn [andb negb snd].
  - right. eexists. split; [reflexivity|]. set_solver.
  - specialize (Hin (Override.set_DBType (Override.Deprecated_PostgresType o) o)
                  (log ++ [warnDeprecatedPostgresType])).
    replace (Override.DBType
               (Override.set_DBType (Override.Deprecated_PostgresType o) o))
      with (Override.Deprecated_PostgresType o) in Hin
      by (destruct o; reflexivity).
    apply Hin; destruct o; reflexivity.
  - apply Hin; reflexivity.
Qed.

(** X8: for a document that the decoder accepts, an error of
    [ParseConfig] is one of [ErrMissingVersion], [ErrUnknownVersion],
    [ErrNoPackages], [ErrNoPackagePath], the engine-required error of line
    92, or one of the six errors of [Override.Parse] for an override of the
    document, quoting that override's [column], [db_type] or [go_type].
    The package variable [ErrNoPackageName] of line 192 is never
    returned. *)
Theorem ParseConfig_errors {Reader : Type}
    (Decode : Reader -> GenerateSettings.t * option error) (rd : Reader)
    (log : list string) (config : GenerateSettings.t) (e : error) :
  Decode rd = (config, None) ->
  (ParseConfig Decode rd log).2 = Err e ->
  (e = ErrMissingVersion \/ e = ErrUnknownVersion \/ e = ErrNoPackages
   \/ e = ErrNoPackagePath \/ e = errEngineRequired
   \/ exists o : Override.t, o ∈ allOverrides config /\ e ∈ parseErrors o)
  /\ e <> ErrNoPackageName.
Proof.
  intros Hdec He.
  assert (Hparse : forall (ovs : list Override.t) (log0 : list string),
             (forEach Override.Parse ovs log0).2 = Err e ->
             exists o : Override.t, o ∈ ovs /\ e ∈ parseErrors o).
  { intros ovs log0 H. apply forEach_error in H as (o & log1 & Ho & H).
    exists o. split; [exact Ho|].
    destruct (Parse_result o log1) as [E|(e' & E & Hin)]; rewrite E in H;
      [discriminate|]. inversion H; subst. exact Hin. }
  assert (Hcases :
    e = ErrMissingVersion \/ e = ErrUnknownVersion \/ e = ErrNoPackages
    \/ e = ErrNoPackagePath \/ e = errEngineRequired
    \/ exists o : Override.t, o ∈ allOverrides config /\ e ∈ parseErrors o).
  { revert He. unfold ParseConfig. rewrite Hdec, validateConfig_run.
    destruct (String.eqb (Version config) EmptyString);
      [intros H; inversion H; auto|].
    destruct (negb (String.eqb (Version config) "1"));
      [intros H; inversion H; auto|].
    destruct (Z.of_nat (length (Packages config)) =? 0);
      [intros H; inversion H; auto|].
    unfold ValidateGlobalOverrides.
    destruct (checkEngines_result (usesMultipleEngines config)
                (Overrides config)) as [-> | ->];
      [|intros H; inversion H; auto 10].
    destruct (forEach Override.Parse (Overrides config) log)
      as [w1 [[]| |]] eqn:E1; cbn [snd]; try discriminate.
    - destruct (forEach parsePackage (Packages config) (stderr w1))
        as [w2 r] eqn:E2. cbn [snd]. intros ->.
      destruct (forEach_error parsePackage (Packages config) (stderr w1) e)
        as (p & log0 & Hp & H); [rewrite E2; reflexivity|].
      revert H. rewrite parsePackage_run.
      destruct (String.eqb (PackageSettings.Path p) EmptyString);
        [intros H; inversion H; auto 10|].
      destruct (forEach Override.Parse (PackageSettings.Overrides p) log0)
        as [w [[]| |]] eqn:E3; cbn [snd]; try discriminate.
      intros H; inversion H; subst e0.
      destruct (Hparse (PackageSettings.Overrides p) log0) as (o & Ho & Hin);
        [rewrite E3; reflexivity|].
      do 5 right. exists o. split; [|exact Hin].
      unfold allOverrides. apply elem_of_app. right.
      apply list_elem_of_In, in_concat.
      exists (PackageSettings.Overrides p). split.
      + apply in_map, list_elem_of_In, Hp.
      + apply list_elem_of_In, Ho.
    - intros H; inversion H; subst e0.
      destruct (Hparse (Overrides config) log) as (o & Ho & Hin);
        [rewrite E1; reflexivity|].
      do 5 right. exists o. split; [|exact Hin].
      unfold allOverrides. apply elem_of_app. left. exact Ho. }
  split; [exact Hcases|].
  destruct Hcases as [->|[->|[->|[->|[->|(o & _ & Hin)]]]]]; try discriminate.
  unfold parseErrors in Hin.
  repeat (apply elem_of_cons in Hin as [->|Hin]; [discriminate|]).
  inversion Hin.
Qed.

Lemma ParseConfig_errors_witness :
  (ParseConfig decoded
     (mk "1" [package EmptyString EmptyString EmptyString []] [] ∅) []).2
  = Err ErrNoPackagePath
  /\ (ErrNoPackagePath = ErrMissingVersion \/ ErrNoPackagePath = ErrUnknownVersion
      \/ ErrNoPackagePath = ErrNoPackages \/ ErrNoPackagePath = ErrNoPackagePath
      \/ ErrNoPackagePath = errEngineRequired
      \/ exists o : Override.t,
           o ∈ allOverrides
                 (mk "1" [package EmptyString EmptyString EmptyString []] [] ∅)
           /\ ErrNoPackagePath ∈ parseErrors o).
Proof.
  split; [reflexivity|].
  exact (proj1 (ParseConfig_errors decoded
                  (mk "1" [package EmptyString EmptyString EmptyString []] [] ∅)
                  []
                  (mk "1" [package EmptyString EmptyString EmptyString []] [] ∅)
                  ErrNoPackagePath eq_refl eq_refl)).
Defined.

(** *** What validation keeps *)

Lemma keptOverride_refl (o : Override.t) : keptOverride o o.
Proof. reflexivity. Qed.

Lemma Parse_kept (o : Override.t) (log : list string) :
  keptOverride o (obj (Override.Parse (mkWorld o log)).1).
Proof.
  destruct (Parse_assigns o log) as (cn & tb & gb & pk & tn & H). rewrite H.
  destruct o; reflexivity.
Qed.

Lemma Forall2_same {A : Type} (R : A -> A -> Prop) (l : list A) :
  (forall x : A, R x x) -> Forall2 R l l.
Proof. intros H. induction l; constructor; auto. Qed.

Lemma keptPackage_refl (p : PackageSettings.t) : keptPackage p p.
Proof.
  unfold keptPackage. repeat split; auto.
  apply Forall2_same, keptOverride_refl.
Qed.

Lemma parsePackage_kept (p : PackageSettings.t) (log : list string) :
  keptPackage p (obj (parsePackage (mkWorld p log)).1).
Proof.
  rewrite parsePackage_run.
  destruct (String.eqb (PackageSettings.Path p) EmptyString);
    [apply keptPackage_refl|].
  pose proof (forEach_related keptOverride Override.Parse keptOverride_refl
                Parse_kept (PackageSettings.Overrides p) log) as Hk.
  unfold defaultEngine, defaultName.
  destruct (forEach Override.Parse (PackageSettings.Overrides p) log)
    as [w [[]| |]]; cbn [fst obj] in *;
    destruct p as [name engine path schema queries ei ej ep ovs];
    cbn [PackageSettings.Name PackageSettings.Engine PackageSettings.Path
         PackageSettings.Overrides PackageSettings.set_Overrides] in *;
    try (unfold keptPackage; repeat split; auto; fail).
  destruct (String.eqb_spec name EmptyString) as [Hn|Hn];
    cbn [PackageSettings.Name PackageSettings.Engine PackageSettings.Path
         PackageSettings.Overrides PackageSettings.set_Overrides
         PackageSettings.set_Name];
    destruct (String.eqb_spec engine EmptyString) as [He|He];
    unfold keptPackage;
    cbn [PackageSettings.Name PackageSettings.Engine PackageSettings.Path
         PackageSettings.Overrides PackageSettings.set_Overrides
         PackageSettings.set_Name PackageSettings.set_Engine
         PackageSettings.Schema PackageSettings.Queries
         PackageSettings.EmitInterface PackageSettings.EmitJSONTags
         PackageSettings.EmitPreparedQueries];
    repeat split; auto; intros; contradiction.
Qed.

(** X9: whatever its outcome, [ParseConfig] returns the document that was
    decoded with its version and its rename map as they were, the same
    number of global overrides and of packages in the same order, every
    override with the fields that the document gave ([go_type],
    [engine], [null], [column], [postgres_type]), and every package with
    its path, schema, queries, flags and number of overrides, and with its
    name and engine when they were given. *)
Theorem ParseConfig_keeps_document {Reader : Type}
    (Decode : Reader -> GenerateSettings.t * option error) (rd : Reader)
    (log : list string) :
  Version (obj (ParseConfig Decode rd log).1) = Version (Decode rd).1
  /\ Rename (obj (ParseConfig Decode rd log).1) = Rename (Decode rd).1
  /\ Forall2 keptOverride (Overrides (Decode rd).1)
       (Overrides (obj (ParseConfig Decode rd log).1))
  /\ Forall2 keptPackage (Packages (Decode rd).1)
       (Packages (obj (ParseConfig Decode rd log).1))
  /\ length (Overrides (obj (ParseConfig Decode rd log).1))
     = length (Overrides (Decode rd).1)
  /\ length (Packages (obj (ParseConfig Decode rd log).1))
     = length (Packages (Decode rd).1).
Proof.
  assert (H : Version (obj (ParseConfig Decode rd log).1) = Version (Decode rd).1
              /\ Rename (obj (ParseConfig Decode rd log).1) = Rename (Decode rd).1
              /\ Forall2 keptOverride (Overrides (Decode rd).1)
                   (Overrides (obj (ParseConfig Decode rd log).1))
              /\ Forall2 keptPackage (Packages (Decode rd).1)
                   (Packages (obj (ParseConfig Decode rd log).1))).
  { assert (Hsame : forall c : GenerateSettings.t,
               Version c = Version c /\ Rename c = Rename c
               /\ Forall2 keptOverride (Overrides c) (Overrides c)
               /\ Forall2 keptPackage (Packages c) (Packages c)).
    { intros c. repeat split.
      - apply Forall2_same, keptOverride_refl.
      - apply Forall2_same, keptPackage_refl. }
    unfold ParseConfig. destruct (Decode rd) as [config [err|]];
      cbn [fst obj]; [apply Hsame|].
    rewrite validateConfig_run.
    destruct (String.eqb (Version config) EmptyString); [apply Hsame|].
    destruct (negb (String.eqb (Version config) "1")); [apply Hsame|].
    destruct (Z.of_nat (length (Packages config)) =? 0); [apply Hsame|].
    destruct (ValidateGlobalOverrides config) as [[]| |]; try apply Hsame.
    pose proof (forEach_related keptOverride Override.Parse keptOverride_refl
                  Parse_kept (Overrides config) log) as Ho.
    destruct (forEach Override.Parse (Overrides config) log)
      as [w1 [[]| |]]; cbn [fst obj] in *.
    - pose proof (forEach_related keptPackage parsePackage keptPackage_refl
                    parsePackage_kept (Packages config) (stderr w1)) as Hp.
      destruct (forEach parsePackage (Packages config) (stderr w1))
        as [w2 r]. cbn [fst obj] in *.
      destruct config; repeat split; assumption.
    - destruct config; repeat split; try assumption.
      apply Forall2_same, keptPackage_refl.
    - destruct config; repeat split; try assumption.
      apply Forall2_same, keptPackage_refl. }
  destruct H as (H1 & H2 & H3 & H4).
  repeat split; try assumption.
  - symmetry. exact (Forall2_length _ _ _ H3).
  - symmetry. exact (Forall2_length _ _ _ H4).
Qed.

(** *** The engine check, both ways *)

Lemma checkEngines_ok (uses : bool) (orides : list Override.t) :
  checkEngines uses orides = Ok tt <->
  uses = false
  \/ (forall o : Override.t, o ∈ orides -> Override.Engine o <> EmptyString).
Proof.
  split; [|apply checkEngines_explicit].
  destruct uses; [|auto]. intros H. right.
  induction orides as [|o' orides IH]; intros o Ho; [inversion Ho|].
  cbn [checkEngines andb] in H.
  destruct (String.eqb_spec (Override.Engine o') EmptyString) as [|Hne];
    [discriminate|].
  apply elem_of_cons in Ho as [->|Ho]; [exact Hne | exact (IH H o Ho)].
Qed.

Lemma usesMultipleEngines_false (c : GenerateSettings.t) :
  usesMultipleEngines c = false <->
  forall p q : PackageSettings.t,
    p ∈ Packages c -> q ∈ Packages c ->
    PackageSettings.Engine p = PackageSettings.Engine q.
Proof.
  pose proof (usesMultipleEngines_spec c) as Hs.
  destruct (usesMultipleEngines c).
  - split; [discriminate|]. intros Hall.
    destruct Hs as [Hs _]. destruct (Hs eq_refl) as (p & q & Hp & Hq & Hne).
    exfalso. apply Hne. exact (Hall p q Hp Hq).
  - split; [|reflexivity]. intros _ p q Hp Hq.
    destruct (String.eqb_spec (PackageSettings.Engine p)
                (PackageSettings.Engine q)) as [|Hne]; [assumption|].
    destruct Hs as [_ Hs]. discriminate Hs. eauto.
Qed.

(** X10: [ValidateGlobalOverrides] returns no error exactly when all the
    packages have the same engine tag as written (none at all counts as
    one tag) or every global override names an engine; in every other
    case it returns the engine-required error of line 92.  A document with
    one package, or without global overrides, always passes. *)
Theorem ValidateGlobalOverrides_passes_iff (c : GenerateSettings.t) :
  (ValidateGlobalOverrides c = Ok tt <->
   (forall p q : PackageSettings.t,
       p ∈ Packages c -> q ∈ Packages c ->
       PackageSettings.Engine p = PackageSettings.Engine q)
   \/ (forall o : Override.t,
          o ∈ Overrides c -> Override.Engine o <> EmptyString))
  /\ (ValidateGlobalOverrides c <> Ok tt ->
      ValidateGlobalOverrides c = Err errEngineRequired).
Proof.
  unfold ValidateGlobalOverrides. split.
  - rewrite checkEngines_ok, usesMultipleEngines_false. reflexivity.
  - destruct (checkEngines_result (usesMultipleEngines c) (Overrides c))
      as [-> | ->]; [contradiction | reflexivity].
Qed.

(** *** Validated settings *)

Lemma Parse_normalized (o : Override.t) (log : list string)
    (w : World Override.t) :
  Override.Parse (mkWorld o log) = (w, Ok tt) -> normalized (obj w).
Proof.
  intros H.
  assert (Hok : (Override.Parse (mkWorld o log)).2 = Ok tt)
    by (rewrite H; reflexivity).
  pose proof (beforeGoType_ok o log Hok) as Hb.
  pose proof (Parse_ok_gotype o log Hok) as Hg.
  pose proof (Parse_basic_run o log Hb) as Hbasic.
  destruct (Parse_assigns o log) as (cn & tb & gb & pk & tn & Ha).
  rewrite H in Hbasic, Ha. cbn [fst] in Hbasic, Ha.
  assert (Hf : Override.Column (obj w) = Override.Column o
               /\ Override.DBType (obj w) = migratedDBType o
               /\ Override.GoType (obj w) = Override.GoType o)
    by (subst w; destruct o; repeat split).
  destruct Hf as (Hc & Hd & Hgt). clear Ha.
  unfold normalized. rewrite Hc, Hd, Hgt.
  apply beforeGoType_accepts in Hb as (Hnot & Hx & _).
  split; [|split].
  - unfold migratedDBType.
    destruct (Override.nonempty (Override.Deprecated_PostgresType o)) eqn:Hdep;
      destruct (Override.nonempty (Override.DBType o)) eqn:Hdb;
      cbn [andb negb];
      try apply nonempty_true in Hdep; try apply nonempty_false in Hdep;
      try apply nonempty_true in Hdb; try apply nonempty_false in Hdb.
    + exfalso. apply Hnot. split; assumption.
    + split; [intros _; exact Hdep | intros _; apply Hx; left; exact Hdep].
    + split; [intros _; exact Hdb | intros _; apply Hx; right; exact Hdb].
    + split; [|intros Hn; contradiction].
      intros Hcol. apply Hx in Hcol as [Hcol|Hcol]; contradiction.
  - destruct Hg as [(_ & _ & Hf)|(Hm & _)].
    + apply found_basic_first in Hf as (a & s' & -> & _). discriminate.
    + intros E. rewrite E in Hm. discriminate.
  - intros Hm. destruct Hg as [(Hd' & Hs' & Hf)|(Hm' & _)]; [|congruence].
    apply LastIndex_absent in Hd', Hs'.
    destruct (Hbasic Hd' Hs' Hf) as (_ & _ & H3 & _ & H5). auto.
Qed.

Lemma forEach_ok_Forall {S : Type} (P : S -> Prop) (body : M S unit) :
  (forall (x : S) (log : list string) (w : World S),
      body (mkWorld x log) = (w, Ok tt) -> P (obj w)) ->
  forall (l : list S) (log : list string) (w : World (list S)),
    forEach body l log = (w, Ok tt) -> Forall P (obj w).
Proof.
  intros Hbody l log w H. apply forEach_ok in H.
  induction H as [|x x' l l' (log1 & log2 & Hx) _ IH]; constructor; auto.
  exact (Hbody x log1 _ Hx).
Qed.

Lemma Base_never_empty (path : string) : Filepath.Base path <> EmptyString.
Proof.
  destruct (String.eqb_spec path EmptyString) as [->|Hne]; [discriminate|].
  rewrite Base_nonempty by assumption. cbv zeta.
  match goal with
  | |- match ?x with EmptyString => _ | String _ _ => _ end <> _ =>
      destruct x; discriminate
  end.
Qed.

Lemma parsePackage_complete (p : PackageSettings.t) (log : list string)
    (w : World PackageSettings.t) :
  parsePackage (mkWorld p log) = (w, Ok tt) ->
  complete (obj w) /\ Forall normalized (PackageSettings.Overrides (obj w)).
Proof.
  rewrite parsePackage_run.
  destruct (String.eqb_spec (PackageSettings.Path p) EmptyString) as [|Hp];
    [discriminate|].
  destruct (forEach Override.Parse (PackageSettings.Overrides p) log)
    as [w1 [[]| |]] eqn:E; try discriminate.
  intros H; inversion H; subst w; clear H. cbn [obj].
  pose proof (forEach_ok_Forall normalized Override.Parse Parse_normalized
                _ _ _ E) as Hn.
  pose proof (Base_never_empty (PackageSettings.Path p)) as Hbase.
  unfold complete, defaultEngine, defaultName.
  destruct p as [name engine path schema queries ei ej ep ovs].
  cbn [PackageSettings.Name PackageSettings.Engine PackageSettings.Path
       PackageSettings.Overrides PackageSettings.set_Overrides] in *.
  destruct (String.eqb_spec name EmptyString) as [Hn0|Hn0];
    cbn [PackageSettings.Name PackageSettings.Engine PackageSettings.Path
         PackageSettings.Overrides PackageSettings.set_Overrides
         PackageSettings.set_Name];
    destruct (String.eqb_spec engine EmptyString) as [He|He];
    cbn [PackageSettings.Name PackageSettings.Engine PackageSettings.Path
         PackageSettings.Overrides PackageSettings.set_Overrides
         PackageSettings.set_Name PackageSettings.set_Engine];
    repeat split; auto; try discriminate.
Qed.

Lemma ParseConfig_ok_inv {Reader : Type}
    (Decode : Reader -> GenerateSettings.t * option error) (rd : Reader)
    (log : list string) (w : World GenerateSettings.t) :
  ParseConfig Decode rd log = (w, Ok tt) ->
  exists (config : GenerateSettings.t) (w1 : World (list Override.t))
         (w2 : World (list PackageSettings.t)),
    Decode rd = (config, None)
    /\ Version config = "1"
    /\ Packages config <> []
    /\ ValidateGlobalOverrides config = Ok tt
    /\ forEach Override.Parse (Overrides config) log = (w1, Ok tt)
    /\ forEach parsePackage (Packages config) (stderr w1) = (w2, Ok tt)
    /\ w = mkWorld (set_Packages (obj w2) (set_Overrides (obj w1) config))
             (stderr w2).
Proof.
  unfold ParseConfig. destruct (Decode rd) as [config [err|]]; [discriminate|].
  rewrite validateConfig_run.
  destruct (String.eqb_spec (Version config) EmptyString); [discriminate|].
  destruct (String.eqb_spec (Version config) "1") as [Hv|];
    cbn [negb]; [|discriminate].
  destruct (Z.of_nat (length (Packages config)) =? 0) eqn:Ep; [discriminate|].
  destruct (ValidateGlobalOverrides config) as [[]| |] eqn:Eg;
    try discriminate.
  destruct (forEach Override.Parse (Overrides config) log)
    as [w1 [[]| |]] eqn:E1; try discriminate.
  destruct (forEach parsePackage (Packages config) (stderr w1))
    as [w2 r] eqn:E2.
  intros H; inversion H; subst.
  exists config, w1, w2. repeat split; auto.
  intros Hnil. rewrite Hnil in Ep. discriminate.
Qed.

Lemma Forall2_elem_r {A B : Type} (R : A -> B -> Prop) (l : list A)
    (l' : list B) (y : B) :
  Forall2 R l l' -> y ∈ l' -> exists x : A, x ∈ l /\ R x y.
Proof.
  induction 1 as [|x x' l l' Hx _ IH]; intros Hy; [inversion Hy|].
  apply elem_of_cons in Hy as [->|Hy].
  - exists x. split; [apply list_elem_of_here | exact Hx].
  - destruct (IH Hy) as (z & Hz & Hr). exists z.
    split; [now apply list_elem_of_further | exact Hr].
Qed.

(** The engine check still passes after the defaults are filled in. *)
Lemma ValidateGlobalOverrides_defaulted (c c' : GenerateSettings.t) :
  Forall2 keptOverride (Overrides c) (Overrides c') ->
  Forall2 defaulted (Packages c) (Packages c') ->
  ValidateGlobalOverrides c = Ok tt ->
  ValidateGlobalOverrides c' = Ok tt.
Proof.
  intros Ho Hp. unfold ValidateGlobalOverrides.
  rewrite !checkEngines_ok, !usesMultipleEngines_false.
  intros [Hall|Hall]; [left|right].
  - intros p' q' Hp' Hq'.
    destruct (Forall2_elem_r _ _ _ _ Hp Hp') as (p & Hpin & _ & _ & _ & Ep).
    destruct (Forall2_elem_r _ _ _ _ Hp Hq') as (q & Hqin & _ & _ & _ & Eq).
    rewrite Ep, Eq, (Hall p q Hpin Hqin). reflexivity.
  - intros o' Ho'.
    destruct (Forall2_elem_r _ _ _ _ Ho Ho') as (o & Hoin & Hk).
    assert (He : Override.Engine o' = Override.Engine o)
      by (unfold keptOverride, written in Hk; congruence).
    rewrite He. exact (Hall o Hoin).
Qed.

Lemma Forall_concat_map {A B : Type} (P : B -> Prop) (f : A -> list B)
    (l : list A) :
  Forall (fun x => Forall P (f x)) l -> Forall P (concat (map f l)).
Proof.
  induction 1 as [|x l Hx _ IH]; cbn [map concat]; [constructor|].
  apply Forall_app. split; assumption.
Qed.

(** The document that a successful validation returns passes the checks
    on the version, on the list of packages and on the engines again. *)
Lemma ParseConfig_ok_checks {Reader : Type}
    (Decode : Reader -> GenerateSettings.t * option error) (rd : Reader)
    (log : list string) (w : World GenerateSettings.t) :
  ParseConfig Decode rd log = (w, Ok tt) ->
  Version (obj w) = "1"
  /\ Packages (obj w) <> []
  /\ ValidateGlobalOverrides (obj w) = Ok tt.
Proof.
  intros H.
  destruct (ParseConfig_ok_inv Decode rd log w H)
    as (config & w1 & w2 & Hdec & Hv & Hne & Hg & H1 & H2 & ->).
  cbn [obj].
  pose proof (forEach_related keptOverride Override.Parse keptOverride_refl
                Parse_kept (Overrides config) log) as Hk1.
  rewrite H1 in Hk1. cbn [fst] in Hk1.
  assert (Hd2 : Forall2 defaulted (Packages config) (obj w2)).
  { eapply Forall2_impl; [exact (forEach_ok _ _ _ _ H2)|].
    intros p p' (l1 & l2 & Hpp). exact (parsePackage_defaulted _ _ _ _ Hpp). }
  destruct config as [version packages overrides rename].
  cbn [Version Packages Overrides set_Packages set_Overrides] in *.
  split; [exact Hv|]. split.
  - intros E. rewrite E in Hd2. inversion Hd2; subst. contradiction.
  - apply (ValidateGlobalOverrides_defaulted
             (mk version packages overrides rename)); assumption.
Qed.

(** X11: the settings that [ParseConfig] returns without error are
    complete: the version is ["1"], there is a package, every package has
    a name, an engine and a path that are not empty, the engine check
    passes again with the engines filled in, and every override, global
    or of a package, and so every override of a combined view
    [Combine config pkg] of one of its packages, has exactly one of
    [column] and [db_type], a [go_type] that is not empty, and, when its
    [go_type] has no dot, the basic-type mark and its [go_type] as its
    type name. *)
Theorem ParseConfig_validated {Reader : Type}
    (Decode : Reader -> GenerateSettings.t * option error) (rd : Reader)
    (log : list string) (w : World GenerateSettings.t) :
  ParseConfig Decode rd log = (w, Ok tt) ->
  Version (obj w) = "1"
  /\ Packages (obj w) <> []
  /\ Forall complete (Packages (obj w))
  /\ Forall normalized (allOverrides (obj w))
  /\ ValidateGlobalOverrides (obj w) = Ok tt
  /\ (forall p : PackageSettings.t,
        p ∈ Packages (obj w) ->
        Forall normalized (CombinedSettings.Overrides (Combine (obj w) p))).
Proof.
  intros H.
  destruct (ParseConfig_ok_checks Decode rd log w H) as (Hv' & Hne' & Hg').
  destruct (ParseConfig_ok_inv Decode rd log w H)
    as (config & w1 & w2 & Hdec & Hv & Hne & Hg & H1 & H2 & ->).
  cbn [obj] in *.
  pose proof (forEach_ok_Forall normalized Override.Parse Parse_normalized
                _ _ _ H1) as Hn1.
  pose proof (forEach_ok_Forall
                (fun p => complete p
                          /\ Forall normalized (PackageSettings.Overrides p))
                parsePackage parsePackage_complete _ _ _ H2) as Hn2.
  assert (Hpk : Forall (fun p => Forall normalized (PackageSettings.Overrides p))
                  (obj w2)).
  { eapply Forall_impl; [exact Hn2|]. intros p [_ Hp]. exact Hp. }
  split; [exact Hv'|]. split; [exact Hne'|].
  destruct config as [version packages overrides rename].
  cbn [Version Packages Overrides set_Packages set_Overrides] in *.
  split.
  { eapply Forall_impl; [exact Hn2|]. intros p [Hp _]. exact Hp. }
  split.
  { unfold allOverrides. cbn [Overrides Packages].
    apply Forall_app. split; [exact Hn1|].
    apply Forall_concat_map. exact Hpk. }
  split; [exact Hg'|].
  intros p Hp. unfold Combine. cbn [CombinedSettings.Overrides Overrides].
  apply Forall_app. split; [exact Hn1|].
  rewrite Forall_forall in Hpk. exact (Hpk p Hp).
Qed.

Lemma ParseConfig_validated_witness :
  (ParseConfig decoded
     (mk "1"
         [package EmptyString EmptyString "internal/gen"
            [columnOverride "accounts.id" "string"]]
         [typeOverride "uuid" "github.com/gofrs/uuid.UUID"] ∅) []).2 = Ok tt
  /\ Forall complete
       (Packages
          (obj (ParseConfig decoded
                  (mk "1"
                      [package EmptyString EmptyString "internal/gen"
                         [columnOverride "accounts.id" "string"]]
                      [typeOverride "uuid" "github.com/gofrs/uuid.UUID"] ∅)
                  []).1))
  /\ Forall normalized
       (allOverrides
          (obj (ParseConfig decoded
                  (mk "1"
                      [package EmptyString EmptyString "internal/gen"
                         [columnOverride "accounts.id" "string"]]
                      [typeOverride "uuid" "github.com/gofrs/uuid.UUID"] ∅)
                  []).1)).
Proof.
  destruct (ParseConfig_validated decoded
              (mk "1"
                  [package EmptyString EmptyString "internal/gen"
                     [columnOverride "accounts.id" "string"]]
                  [typeOverride "uuid" "github.com/gofrs/uuid.UUID"] ∅) []
              (ParseConfig decoded
                 (mk "1"
                     [package EmptyString EmptyString "internal/gen"
                        [columnOverride "accounts.id" "string"]]
                     [typeOverride "uuid" "github.com/gofrs/uuid.UUID"] ∅)
                 []).1)
    as (_ & _ & H1 & H2 & _); [vm_compute; reflexivity|].
  split; [vm_compute; reflexivity|]. split; [exact H1 | exact H2].
Defined.

(** *** The error stream *)

(** What a step may append to the error stream: at most [k] warnings,
    and exactly [k] when it returns without error. *)
Lemma forEach_warnings {S : Type} (k : S -> nat) (body : M S unit) :
  (forall (x : S) (log : list string),
      exists n : nat,
        (n <= k x)%nat
        /\ stderr (body (mkWorld x log)).1
           = log ++ replicate n warnDeprecatedPostgresType
        /\ ((body (mkWorld x log)).2 = Ok tt -> n = k x)) ->
  forall (l : list S) (log : list string),
    exists n : nat,
      (n <= sum_list (map k l))%nat
      /\ stderr (forEach body l log).1
         = log ++ replicate n warnDeprecatedPostgresType
      /\ ((forEach body l log).2 = Ok tt -> n = sum_list (map k l)).
Proof.
  intros Hbody l. induction l as [|x l IH]; intros log; cbn [forEach];
    [|change (sum_list (map k (x :: l)))
        with (k x + sum_list (map k l))%nat].
  - exists 0%nat. cbn [fst stderr replicate].
    rewrite app_nil_r. auto.
  - destruct (Hbody x log) as (n & Hn & Hs & Hok).
    destruct (body (mkWorld x log)) as [w [[]| |]]; cbn [fst snd] in *.
    + destruct (IH (stderr w)) as (n' & Hn' & Hs' & Hok').
      destruct (forEach body l (stderr w)) as [w' r]. cbn [fst snd stderr] in *.
      exists (n + n')%nat.
      specialize (Hok eq_refl). subst n.
      split; [lia|]. split.
      * rewrite Hs', Hs, <- app_assoc, replicate_add. reflexivity.
      * intros Hr. rewrite (Hok' Hr). reflexivity.
    + exists n. cbn [stderr]. split; [lia|].
      split; [exact Hs | discriminate].
    + exists n. cbn [stderr]. split; [lia|].
      split; [exact Hs | discriminate].
Qed.

Lemma aliased_sum (ovs : list Override.t) :
  aliased ovs = sum_list (map (fun o => aliased [o]) ovs).
Proof.
  induction ovs as [|o ovs IH]; [reflexivity|].
  change (sum_list (map (fun o => aliased [o]) (o :: ovs)))
    with (aliased [o] + sum_list (map (fun o => aliased [o]) ovs))%nat.
  unfold aliased in *. cbn [List.filter].
  destruct (Override.nonempty (Override.Deprecated_PostgresType o));
    cbn [length]; rewrite IH; reflexivity.
Qed.

Lemma aliased_app (l1 l2 : list Override.t) :
  aliased (l1 ++ l2) = (aliased l1 + aliased l2)%nat.
Proof.
  unfold aliased. rewrite List.filter_app, List.length_app. reflexivity.
Qed.

Lemma aliased_concat (ps : list PackageSettings.t) :
  aliased (concat (map PackageSettings.Overrides ps))
  = sum_list (map (fun p => aliased (PackageSettings.Overrides p)) ps).
Proof.
  induction ps as [|p ps IH]; [reflexivity|].
  change (sum_list
            (map (fun p => aliased (PackageSettings.Overrides p)) (p :: ps)))
    with (aliased (PackageSettings.Overrides p)
          + sum_list (map (fun p => aliased (PackageSettings.Overrides p)) ps))%nat.
  cbn [map concat]. rewrite aliased_app, IH. reflexivity.
Qed.

Lemma Parse_warnings (o : Override.t) (log : list string) :
  exists n : nat,
    (n <= aliased [o])%nat
    /\ stderr (Override.Parse (mkWorld o log)).1
       = log ++ replicate n warnDeprecatedPostgresType
    /\ ((Override.Parse (mkWorld o log)).2 = Ok tt -> n = aliased [o]).
Proof.
  destruct (Parse_assigns o log) as (cn & tb & gb & pk & tn & H).
  exists (aliased [o]). rewrite H. cbn [stderr]. unfold aliased.
  cbn [List.filter].
  destruct (Override.nonempty (Override.Deprecated_PostgresType o));
    cbn [length replicate]; rewrite ?app_nil_r; auto.
Qed.

Lemma forEach_Parse_warnings (ovs : list Override.t) (log : list string) :
  exists n : nat,
    (n <= aliased ovs)%nat
    /\ stderr (forEach Override.Parse ovs log).1
       = log ++ replicate n warnDeprecatedPostgresType
    /\ ((forEach Override.Parse ovs log).2 = Ok tt -> n = aliased ovs).
Proof.
  rewrite aliased_sum.
  exact (forEach_warnings (fun o => aliased [o]) Override.Parse
           Parse_warnings ovs log).
Qed.

Lemma parsePackage_warnings (p : PackageSettings.t) (log : list string) :
  exists n : nat,
    (n <= aliased (PackageSettings.Overrides p))%nat
    /\ stderr (parsePackage (mkWorld p log)).1
       = log ++ replicate n warnDeprecatedPostgresType
    /\ ((parsePackage (mkWorld p log)).2 = Ok tt ->
        n = aliased (PackageSettings.Overrides p)).
Proof.
  rewrite parsePackage_run.
  destruct (String.eqb (PackageSettings.Path p) EmptyString).
  - exists 0%nat. cbn [fst snd stderr replicate]. rewrite app_nil_r.
    split; [lia|]. split; [reflexivity | discriminate].
  - destruct (forEach_Parse_warnings (PackageSettings.Overrides p) log)
      as (n & Hn & Hs & Hok).
    exists n.
    destruct (forEach Override.Parse (PackageSettings.Overrides p) log)
      as [w [[]| |]]; cbn [fst snd stderr] in *;
      (split; [exact Hn|]); (split; [exact Hs|]); auto; discriminate.
Qed.

(** X12: all that [ParseConfig] writes to the standard error stream is the
    deprecation warning of line 102, at most once for every override of
    the document that sets [postgres_type], and exactly once for each of
    them when it returns no error: a document without [postgres_type]
    leaves the stream as it was. *)
Theorem ParseConfig_warnings {Reader : Type}
    (Decode : Reader -> GenerateSettings.t * option error) (rd : Reader)
    (log : list string) :
  exists n : nat,
    (n <= aliased (allOverrides (Decode rd).1))%nat
    /\ stderr (ParseConfig Decode rd log).1
       = log ++ replicate n warnDeprecatedPostgresType
    /\ ((ParseConfig Decode rd log).2 = Ok tt ->
        n = aliased (allOverrides (Decode rd).1)).
Proof.
  assert (Hnone : forall (c : GenerateSettings.t) (e : error),
             exists n : nat,
               (n <= aliased (allOverrides c))%nat
               /\ stderr (mkWorld c log, @Err unit e).1
                  = log ++ replicate n warnDeprecatedPostgresType
               /\ ((mkWorld c log, @Err unit e).2 = Ok tt ->
                   n = aliased (allOverrides c))).
  { intros c e. exists 0%nat. cbn [fst snd stderr replicate].
    rewrite app_nil_r. split; [lia|]. split; [reflexivity | discriminate]. }
  unfold ParseConfig. destruct (Decode rd) as [config [err|]]; cbn [fst];
    [apply Hnone|].
  rewrite validateConfig_run.
  destruct (String.eqb (Version config) EmptyString); [apply Hnone|].
  destruct (negb (String.eqb (Version config) "1")); [apply Hnone|].
  destruct (Z.of_nat (length (Packages config)) =? 0); [apply Hnone|].
  unfold ValidateGlobalOverrides.
  destruct (checkEngines_result (usesMultipleEngines config)
              (Overrides config)) as [-> | ->]; [|apply Hnone].
  unfold allOverrides. rewrite aliased_app, aliased_concat.
  destruct (forEach_Parse_warnings (Overrides config) log)
    as (n1 & Hn1 & Hs1 & Hok1).
  destruct (forEach Override.Parse (Overrides config) log)
    as [w1 [[]| |]]; cbn [fst snd stderr] in *.
  - destruct (forEach_warnings
                (fun p => aliased (PackageSettings.Overrides p)) parsePackage
                parsePackage_warnings (Packages config) (stderr w1))
      as (n2 & Hn2 & Hs2 & Hok2).
    destruct (forEach parsePackage (Packages config) (stderr w1))
      as [w2 r]. cbn [fst snd stderr] in *.
    specialize (Hok1 eq_refl). subst n1.
    exists (aliased (Overrides config) + n2)%nat.
    split; [lia|]. split.
    + rewrite Hs2, Hs1, <- app_assoc, replicate_add. reflexivity.
    + intros Hr. rewrite (Hok2 Hr). reflexivity.
  - exists n1. split; [lia|]. split; [exact Hs1 | discriminate].
  - exists n1. split; [lia|]. split; [exact Hs1 | discriminate].
Qed.

(** *** Validating twice *)

Lemma forEach_again {S : Type} (P : S -> Prop) (body : M S unit) :
  (forall (x : S) (log log' : list string) (w : World S),
      P x -> body (mkWorld x log) = (w, Ok tt) ->
      body (mkWorld (obj w) log') = (mkWorld (obj w) log', Ok tt)) ->
  forall (l : list S) (log log' : list string) (w : World (list S)),
    Forall P l ->
    forEach body l log = (w, Ok tt) ->
    forEach body (obj w) log' = (mkWorld (obj w) log', Ok tt).
Proof.
  intros Hbody l. induction l as [|x l IH]; intros log log' w HP;
    cbn [forEach].
  - intros H; inversion H; subst. reflexivity.
  - inversion HP as [|? ? Hx Hl]; subst.
    destruct (body (mkWorld x log)) as [wx [[]| |]] eqn:Ex; try discriminate.
    destruct (forEach body l (stderr wx)) as [wl r] eqn:El.
    intros H; inversion H; subst; clear H. cbn [obj forEach].
    rewrite (Hbody x log log' wx Hx Ex). cbn [stderr obj].
    rewrite (IH (stderr wx) log' wl Hl El). reflexivity.
Qed.

Lemma defaults_keep_overrides (p : PackageSettings.t) :
  PackageSettings.Overrides (defaultEngine (defaultName p))
  = PackageSettings.Overrides p.
Proof.
  unfold defaultEngine, defaultName.
  destruct p as [name engine path schema queries ei ej ep ovs].
  cbn [PackageSettings.Name PackageSettings.Engine].
  destruct (String.eqb name EmptyString);
    cbn [PackageSettings.Name PackageSettings.Engine PackageSettings.set_Name];
    destruct (String.eqb engine EmptyString); reflexivity.
Qed.

Lemma defaults_fixed (p : PackageSettings.t) :
  PackageSettings.Name p <> EmptyString ->
  PackageSettings.Engine p <> EmptyString ->
  defaultEngine (defaultName p) = p.
Proof.
  intros Hn He. apply String.eqb_neq in Hn, He.
  unfold defaultEngine, defaultName. rewrite Hn, He. reflexivity.
Qed.

Lemma set_Overrides_same (p : PackageSettings.t) :
  PackageSettings.set_Overrides (PackageSettings.Overrides p) p = p.
Proof. destruct p; reflexivity. Qed.

Lemma parsePackage_again (p : PackageSettings.t) (log log' : list string)
    (w : World PackageSettings.t) :
  Forall (fun o => Override.Deprecated_PostgresType o = EmptyString)
    (PackageSettings.Overrides p) ->
  parsePackage (mkWorld p log) = (w, Ok tt) ->
  parsePackage (mkWorld (obj w) log') = (mkWorld (obj w) log', Ok tt).
Proof.
  intros Hno H.
  destruct (parsePackage_complete p log w H) as ((Hname & Hengine & Hpath) & _).
  assert (Hov : exists w1 : World (list Override.t),
             forEach Override.Parse (PackageSettings.Overrides p) log
             = (w1, Ok tt)
             /\ PackageSettings.Overrides (obj w) = obj w1).
  { revert H. rewrite parsePackage_run.
    destruct (String.eqb (PackageSettings.Path p) EmptyString);
      [discriminate|].
    destruct (forEach Override.Parse (PackageSettings.Overrides p) log)
      as [w1 [[]| |]]; try discriminate.
    intros H; inversion H; subst w; clear H. exists w1. split; [reflexivity|].
    cbn [obj]. rewrite defaults_keep_overrides. destruct p; reflexivity. }
  destruct Hov as (w1 & E & Hov).
  pose proof (forEach_again _ Override.Parse
                (fun o log0 log1 w0 Hd H0 => Parse_again o log0 log1 w0 Hd H0)
                _ log log' w1 Hno E) as Hagain.
  rewrite parsePackage_run.
  apply String.eqb_neq in Hpath. rewrite Hpath, Hov, Hagain.
  cbn [obj stderr]. rewrite <- Hov, set_Overrides_same.
  rewrite defaults_fixed by assumption. reflexivity.
Qed.

(** X13: validation is idempotent on documents without the deprecated
    [postgres_type]: when [ParseConfig] has returned settings without
    error, a document that decodes to these settings is accepted again,
    and returned unchanged, with nothing written to the error stream. *)
Theorem ParseConfig_twice {Reader : Type}
    (Decode : Reader -> GenerateSettings.t * option error) (rd : Reader)
    (log : list string) (w : World GenerateSettings.t) :
  ParseConfig Decode rd log = (w, Ok tt) ->
  Forall (fun o => Override.Deprecated_PostgresType o = EmptyString)
    (allOverrides (Decode rd).1) ->
  forall (Reader' : Type)
         (Decode' : Reader' -> GenerateSettings.t * option error)
         (rd' : Reader') (log' : list string),
    Decode' rd' = (obj w, None) ->
    ParseConfig Decode' rd' log' = (mkWorld (obj w) log', Ok tt).
Proof.
  intros H Hno Reader' Decode' rd' log' Hdec'.
  destruct (ParseConfig_ok_checks Decode rd log w H) as (Hv' & Hne' & Hg').
  destruct (ParseConfig_ok_inv Decode rd log w H)
    as (config & w1 & w2 & Hdec & Hv & Hne & Hg & H1 & H2 & ->).
  rewrite Hdec in Hno. cbn [fst] in Hno. unfold allOverrides in Hno.
  apply Forall_app in Hno as [Hno1 Hno2].
  assert (Hno2' : Forall
                    (fun p =>
                       Forall
                         (fun o =>
                            Override.Deprecated_PostgresType o = EmptyString)
                         (PackageSettings.Overrides p)) (Packages config)).
  { clear -Hno2. induction (Packages config) as [|p ps IH]; [constructor|].
    cbn [map concat] in Hno2. apply Forall_app in Hno2 as [Hp Hps].
    constructor; auto. }
  pose proof (forEach_again _ Override.Parse
                (fun o log0 log1 w0 Hd H0 => Parse_again o log0 log1 w0 Hd H0)
                _ log log' w1 Hno1 H1) as Ha1.
  pose proof (forEach_again _ parsePackage
                (fun p log0 log1 w0 Hd H0 =>
                   parsePackage_again p log0 log1 w0 Hd H0)
                _ (stderr w1) log' w2 Hno2' H2) as Ha2.
  cbn [obj] in *.
  unfold ParseConfig. rewrite Hdec', validateConfig_run, Hv'.
  rewrite (packages_nonempty _ Hne'), Hg'.
  cbn [String.eqb Ascii.eqb Bool.eqb negb].
  destruct config as [version packages overrides rename].
  cbn [Version Packages Overrides set_Packages set_Overrides] in *.
  rewrite Ha1. cbn [stderr obj]. rewrite Ha2. reflexivity.
Qed.

Lemma ParseConfig_twice_witness :
  ParseConfig decoded
    (obj (ParseConfig decoded
            (mk "1"
                [package EmptyString EmptyString "internal/gen"
                   [columnOverride "accounts.id" "string"]]
                [typeOverride "uuid" "*github.com/gofrs/uuid.UUID"] ∅) []).1)
    []
  = (mkWorld
       (obj (ParseConfig decoded
               (mk "1"
                   [package EmptyString EmptyString "internal/gen"
                      [columnOverride "accounts.id" "string"]]
                   [typeOverride "uuid" "*github.com/gofrs/uuid.UUID"] ∅)
               []).1) [],
     Ok tt).
Proof.
  apply (ParseConfig_twice decoded
           (mk "1"
               [package EmptyString EmptyString "internal/gen"
                  [columnOverride "accounts.id" "string"]]
               [typeOverride "uuid" "*github.com/gofrs/uuid.UUID"] ∅) []).
  - vm_compute. reflexivity.
  - repeat constructor.
  - reflexivity.
Defined.

(** *** Validating twice a document with the deprecated alias *)

Lemma aliased_cons (o : Override.t) (ovs : list Override.t) :
  aliased (o :: ovs)
  = ((if Override.nonempty (Override.Deprecated_PostgresType o) then 1 else 0)
     + aliased ovs)%nat.
Proof.
  unfold aliased. cbn [List.filter].
  destruct (Override.nonempty (Override.Deprecated_PostgresType o));
    reflexivity.
Qed.

Lemma aliased_zero (ovs : list Override.t) :
  aliased ovs = 0%nat <->
  Forall (fun o => Override.Deprecated_PostgresType o = EmptyString) ovs.
Proof.
  induction ovs as [|o ovs IH]; [split; [constructor | reflexivity]|].
  rewrite aliased_cons, Forall_cons, <- IH, <- nonempty_false.
  destruct (Override.nonempty (Override.Deprecated_PostgresType o));
    split; try lia; intros [H1 H2]; try discriminate; lia.
Qed.

Lemma forEach_Parse_again_alias (ovs : list Override.t)
    (log log' : list string) (w : World (list Override.t)) :
  forEach Override.Parse ovs log = (w, Ok tt) ->
  (0 < aliased ovs)%nat ->
  (forEach Override.Parse (obj w) log').2 = Err errDBTypeWithPostgresType.
Proof.
  revert log log' w. induction ovs as [|o ovs IH]; intros log log' w;
    cbn [forEach].
  - intros _ H. inversion H.
  - destruct (Override.Parse (mkWorld o log)) as [wo [[]| |]] eqn:Eo;
      try discriminate.
    destruct (forEach Override.Parse ovs (stderr wo)) as [wl r] eqn:El.
    intros H; inversion H; subst; clear H. cbn [obj forEach].
    rewrite aliased_cons.
    destruct (Override.nonempty (Override.Deprecated_PostgresType o)) eqn:Hd.
    + intros _. apply nonempty_true in Hd.
      rewrite (Parse_again_alias o log log' wo Hd Eo). reflexivity.
    + intros Hpos. apply nonempty_false in Hd.
      rewrite (Parse_again o log log' wo Hd Eo). cbn [stderr].
      pose proof (IH (stderr wo) log' wl El) as Hl.
      destruct (forEach Override.Parse (obj wl) log') as [w' r'].
      cbn [snd] in *. apply Hl. lia.
Qed.

Lemma parsePackage_again_alias (p : PackageSettings.t) (log log' : list string)
    (w : World PackageSettings.t) :
  parsePackage (mkWorld p log) = (w, Ok tt) ->
  (0 < aliased (PackageSettings.Overrides p))%nat ->
  (parsePackage (mkWorld (obj w) log')).2 = Err errDBTypeWithPostgresType.
Proof.
  intros H Hpos.
  destruct (parsePackage_complete p log w H) as ((_ & _ & Hpath) & _).
  assert (Hov : exists w1 : World (list Override.t),
             forEach Override.Parse (PackageSettings.Overrides p) log
             = (w1, Ok tt)
             /\ PackageSettings.Overrides (obj w) = obj w1).
  { revert H. rewrite parsePackage_run.
    destruct (String.eqb (PackageSettings.Path p) EmptyString);
      [discriminate|].
    destruct (forEach Override.Parse (PackageSettings.Overrides p) log)
      as [w1 [[]| |]]; try discriminate.
    intros H; inversion H; subst w; clear H. exists w1. split; [reflexivity|].
    cbn [obj]. rewrite defaults_keep_overrides. destruct p; reflexivity. }
  destruct Hov as (w1 & E & Hov).
  pose proof (forEach_Parse_again_alias _ log log' w1 E Hpos) as Hagain.
  rewrite parsePackage_run.
  apply String.eqb_neq in Hpath. rewrite Hpath, Hov.
  destruct (forEach Override.Parse (obj w1) log') as [w' [[]| |]];
    cbn [snd] in *; try discriminate. exact Hagain.
Qed.

Lemma forEach_parsePackage_again_alias (ps : list PackageSettings.t)
    (log log' : list string) (w : World (list PackageSettings.t)) :
  forEach parsePackage ps log = (w, Ok tt) ->
  (0 < aliased (concat (map PackageSettings.Overrides ps)))%nat ->
  (forEach parsePackage (obj w) log').2 = Err errDBTypeWithPostgresType.
Proof.
  revert log log' w. induction ps as [|p ps IH]; intros log log' w;
    cbn [forEach map concat].
  - intros _ H. inversion H.
  - destruct (parsePackage (mkWorld p log)) as [wp [[]| |]] eqn:Ep;
      try discriminate.
    destruct (forEach parsePackage ps (stderr wp)) as [wl r] eqn:El.
    intros H; inversion H; subst; clear H. cbn [obj forEach].
    rewrite aliased_app.
    destruct (aliased (PackageSettings.Overrides p)) as [|n] eqn:Hn.
    + intros Hpos. apply aliased_zero in Hn.
      rewrite (parsePackage_again p log log' wp Hn Ep). cbn [stderr].
      pose proof (IH (stderr wp) log' wl El) as Hl.
      destruct (forEach parsePackage (obj wl) log') as [w' r'].
      cbn [snd] in *. apply Hl. lia.
    + intros _.
      pose proof (parsePackage_again_alias p log log' wp Ep) as Hp.
      rewrite Hn in Hp. specialize (Hp ltac:(lia)).
      destruct (parsePackage (mkWorld (obj wp) log')) as [w' [[]| |]];
        cbn [snd] in *; try discriminate. exact Hp.
Qed.

(** X17: validation is not idempotent on a document that uses the
    deprecated [postgres_type]: when [ParseConfig] has returned settings
    without error for such a document, a document that decodes to these
    settings is rejected with the conflict error of line 104, because the
    migration has filled [db_type] beside [postgres_type]. *)
Theorem ParseConfig_twice_alias {Reader : Type}
    (Decode : Reader -> GenerateSettings.t * option error) (rd : Reader)
    (log : list string) (w : World GenerateSettings.t) :
  ParseConfig Decode rd log = (w, Ok tt) ->
  (0 < aliased (allOverrides (Decode rd).1))%nat ->
  forall (Reader' : Type)
         (Decode' : Reader' -> GenerateSettings.t * option error)
         (rd' : Reader') (log' : list string),
    Decode' rd' = (obj w, None) ->
    (ParseConfig Decode' rd' log').2 = Err errDBTypeWithPostgresType.
Proof.
  intros H Hpos Reader' Decode' rd' log' Hdec'.
  destruct (ParseConfig_ok_checks Decode rd log w H) as (Hv' & Hne' & Hg').
  destruct (ParseConfig_ok_inv Decode rd log w H)
    as (config & w1 & w2 & Hdec & Hv & Hne & Hg & H1 & H2 & ->).
  rewrite Hdec in Hpos. cbn [fst] in Hpos. unfold allOverrides in Hpos.
  rewrite aliased_app in Hpos.
  cbn [obj] in *.
  unfold ParseConfig. rewrite Hdec', validateConfig_run, Hv'.
  rewrite (packages_nonempty _ Hne'), Hg'.
  cbn [String.eqb Ascii.eqb Bool.eqb negb].
  destruct config as [version packages overrides rename].
  cbn [Version Packages Overrides set_Packages set_Overrides] in *.
  destruct (aliased overrides) as [|n] eqn:Hn.
  - apply aliased_zero in Hn.
    rewrite (forEach_again _ Override.Parse
               (fun o log0 log1 w0 Hd H0 => Parse_again o log0 log1 w0 Hd H0)
               _ log log' w1 Hn H1).
    cbn [stderr obj].
    pose proof (forEach_parsePackage_again_alias packages (stderr w1) log' w2
                  H2 ltac:(lia)) as Hp.
    destruct (forEach parsePackage (obj w2) log') as [w' r']. exact Hp.
  - pose proof (forEach_Parse_again_alias overrides log log' w1 H1) as Ho.
    rewrite Hn in Ho. specialize (Ho ltac:(lia)).
    destruct (forEach Override.Parse (obj w1) log') as [w' [[]| |]];
      cbn [snd] in *; try discriminate. exact Ho.
Qed.

Lemma ParseConfig_twice_alias_witness :
  (ParseConfig decoded
     (mk "1" [package "db" "postgresql" "internal/db" []]
         [aliasOverride "uuid" "string"] ∅) []).2 = Ok tt
  /\ (ParseConfig decoded
        (obj (ParseConfig decoded
                (mk "1" [package "db" "postgresql" "internal/db" []]
                    [aliasOverride "uuid" "string"] ∅) []).1) []).2
     = Err errDBTypeWithPostgresType.
Proof.
  split; [vm_compute; reflexivity|].
  apply (ParseConfig_twice_alias decoded
           (mk "1" [package "db" "postgresql" "internal/db" []]
               [aliasOverride "uuid" "string"] ∅) []
           (ParseConfig decoded
              (mk "1" [package "db" "postgresql" "internal/db" []]
                  [aliasOverride "uuid" "string"] ∅) []).1).
  - vm_compute. reflexivity.
  - vm_compute. lia.
  - reflexivity.
Defined.

(** *** When a document is accepted *)

Lemma forEach_accepts {S : Type} (A : S -> Prop) (body : M S unit) :
  (forall (x : S) (log : list string),
      (body (mkWorld x log)).2 = Ok tt <-> A x) ->
  forall (l : list S) (log : list string),
    (forEach body l log).2 = Ok tt <-> Forall A l.
Proof.
  intros Hbody l. induction l as [|x l IH]; intros log; cbn [forEach].
  - split; [constructor | reflexivity].
  - pose proof (Hbody x log) as Hx.
    destruct (body (mkWorld x log)) as [w [[]| |]]; cbn [snd] in *.
    + pose proof (IH (stderr w)) as Hl.
      destruct (forEach body l (stderr w)) as [w' r]. cbn [snd] in *.
      rewrite Forall_cons. destruct Hx as [Hx _]. specialize (Hx eq_refl).
      split; [intros Hr; split; [exact Hx | apply Hl, Hr]
             | intros [_ Hr]; apply Hl, Hr].
    + split; [discriminate|]. intros Hall. apply Forall_cons in Hall as [Ha _].
      apply Hx in Ha. discriminate.
    + split; [discriminate|]. intros Hall. apply Forall_cons in Hall as [Ha _].
      apply Hx in Ha. discriminate.
Qed.

Lemma parsePackage_accepts (p : PackageSettings.t) (log : list string) :
  (parsePackage (mkWorld p log)).2 = Ok tt <->
  PackageSettings.Path p <> EmptyString
  /\ Forall acceptable (PackageSettings.Overrides p).
Proof.
  rewrite parsePackage_run.
  pose proof (forEach_accepts acceptable Override.Parse Parse_acceptable
                (PackageSettings.Overrides p) log) as Hf.
  destruct (String.eqb_spec (PackageSettings.Path p) EmptyString) as [Hp|Hp].
  - cbn [snd]. split; [discriminate|]. intros [H _]. contradiction.
  - destruct (forEach Override.Parse (PackageSettings.Overrides p) log)
      as [w [[]| |]]; cbn [snd] in *.
    + split; [|reflexivity]. intros _. split; [exact Hp | apply Hf; reflexivity].
    + split; [discriminate|]. intros [_ H]. apply Hf in H. discriminate.
    + split; [discriminate|]. intros [_ H]. apply Hf in H. discriminate.
Qed.

Lemma Forall_concat_map_iff {A B : Type} (P : B -> Prop) (f : A -> list B)
    (l : list A) :
  Forall P (concat (map f l)) <-> Forall (fun x => Forall P (f x)) l.
Proof.
  induction l as [|x l IH]; cbn [map concat].
  - split; constructor.
  - rewrite Forall_app, Forall_cons, IH. reflexivity.
Qed.

(** X14: [ParseConfig] returns no error exactly when the decoder returns
    none, the version is ["1"], there is at least one package, the engine
    check passes (all packages have the same engine tag as written, or
    every global override names an engine), every package has a path, and
    every override of the document, global or of a package, is acceptable
    to [Override.Parse]. *)
Theorem ParseConfig_accepts_iff {Reader : Type}
    (Decode : Reader -> GenerateSettings.t * option error) (rd : Reader)
    (log : list string) :
  (ParseConfig Decode rd log).2 = Ok tt <->
  (Decode rd).2 = None
  /\ Version (Decode rd).1 = "1"
  /\ Packages (Decode rd).1 <> []
  /\ ((forall p q : PackageSettings.t,
          p ∈ Packages (Decode rd).1 -> q ∈ Packages (Decode rd).1 ->
          PackageSettings.Engine p = PackageSettings.Engine q)
      \/ (forall o : Override.t,
             o ∈ Overrides (Decode rd).1 -> Override.Engine o <> EmptyString))
  /\ Forall (fun p => PackageSettings.Path p <> EmptyString)
       (Packages (Decode rd).1)
  /\ Forall acceptable (allOverrides (Decode rd).1).
Proof.
  unfold ParseConfig, allOverrides.
  destruct (Decode rd) as [config [err|]]; cbn [fst snd].
  { split; [discriminate|]. intros [H _]. discriminate. }
  rewrite validateConfig_run, Forall_app, Forall_concat_map_iff.
  destruct (String.eqb_spec (Version config) EmptyString) as [Hv0|Hv0].
  { cbn [snd]. split; [discriminate|]. intros (_ & Hv & _).
    rewrite Hv in Hv0. discriminate. }
  destruct (String.eqb_spec (Version config) "1") as [Hv|Hv]; cbn [negb].
  2:{ cbn [snd]. split; [discriminate|]. intros (_ & Hv' & _). contradiction. }
  destruct (Z.of_nat (length (Packages config)) =? 0) eqn:Ep.
  { cbn [snd]. split; [discriminate|]. intros (_ & _ & Hne & _).
    rewrite (packages_nonempty _ Hne) in Ep. discriminate. }
  assert (Hne : Packages config <> []).
  { intros E. rewrite E in Ep. discriminate. }
  pose proof (checkEngines_ok (usesMultipleEngines config) (Overrides config))
    as Hg.
  rewrite usesMultipleEngines_false in Hg.
  fold (ValidateGlobalOverrides config) in Hg.
  pose proof (forEach_accepts acceptable Override.Parse Parse_acceptable
                (Overrides config) log) as H1.
  destruct (ValidateGlobalOverrides config) as [[]| |]; cbn [snd].
  2,3: split; [discriminate|]; intros (_ & _ & _ & He & _);
       apply Hg in He; discriminate.
  destruct Hg as [Hg _]. specialize (Hg eq_refl).
  destruct (forEach Override.Parse (Overrides config) log)
    as [w1 [[]| |]]; cbn [snd] in *.
  2,3: split; [discriminate|]; intros (_ & _ & _ & _ & _ & Ho & _);
       apply H1 in Ho; discriminate.
  destruct H1 as [H1 _]. specialize (H1 eq_refl).
  pose proof (forEach_accepts
                (fun p => PackageSettings.Path p <> EmptyString
                          /\ Forall acceptable (PackageSettings.Overrides p))
                parsePackage parsePackage_accepts (Packages config)
                (stderr w1)) as H2.
  destruct (forEach parsePackage (Packages config) (stderr w1)) as [w2 r].
  cbn [snd] in *. rewrite H2, Forall_and. split.
  - intros [Hp Ho]. repeat split; auto.
  - intros (_ & _ & _ & _ & Hp & _ & Ho). split; assumption.
Qed.

End ValidatorLaws.
